(** * Request correlation bridge of robloxstudio-mcp

    A shallow embedding of [BridgeService] (bridge-service.ts) and of the two
    observed variants of the HTTP front end (http-server.ts), followed by the
    properties of the pending-request ledger, its FIFO index, the timeout
    reaper and the polling endpoints. *)

From Stdlib Require Import ZArith Lia Ascii.
From stdpp Require Import base tactics option list sorting strings.

Set Warnings "-register-all".
Local Open Scope Z_scope.

(** ** JavaScript values

    Payloads ([data], [response], [error]) are opaque to the bridge
    ([unknown] in the source).  [JErr msg] stands for [new Error(msg)]. *)

Inductive JsValue : Type :=
  | JUndefined
  | JNull
  | JBool (b : bool)
  | JNum (n : Z)
  | JStr (s : string)
  | JErr (message : string)
  | JArr (items : list JsValue)
  | JObj (fields : list (string * JsValue)).

(** [if (v)] *)
Definition truthy (v : JsValue) : bool :=
  match v with
  | JUndefined | JNull => false
  | JBool b => b
  | JNum n => negb (n =? 0)
  | JStr s => negb (String.eqb s "")
  | JErr _ | JArr _ | JObj _ => true
  end.

(** An optional string property ([error?: string], [requestId] of a request
    body): absent is [undefined]. *)
Definition optStr (o : option string) : JsValue :=
  match o with
  | Some s => JStr s
  | None => JUndefined
  end.

(** ** [Map<string, V>]: keys in insertion order *)

Module JsMap.
Section ops.
Context {V : Type}.

Fixpoint get (k : string) (m : list (string * V)) : option V :=
  match m with
  | [] => None
  | (k', v) :: m' => if decide (k' = k) then Some v else get k m'
  end.

Definition has (k : string) (m : list (string * V)) : bool :=
  match get k m with
  | Some _ => true
  | None => false
  end.

(** [set] keeps the position of a key that is present and appends a new one. *)
Fixpoint set (k : string) (v : V) (m : list (string * V)) : list (string * V) :=
  match m with
  | [] => [(k, v)]
  | (k', v') :: m' =>
      if decide (k' = k) then (k, v) :: m' else (k', v') :: set k v m'
  end.

(** A key occurs once in a [Map]; [delete] leaves no entry under [k]. *)
Fixpoint delete (k : string) (m : list (string * V)) : list (string * V) :=
  match m with
  | [] => []
  | (k', v') :: m' =>
      if decide (k' = k) then delete k m' else (k', v') :: delete k m'
  end.

Definition keys (m : list (string * V)) : list string := fst <$> m.

Definition size (m : list (string * V)) : nat := length m.
End ops.
End JsMap.

(** ** Promises and timers of the host

    [new Promise] allocates a promise; the [resolve] and [reject] closures of
    one promise are represented by its index in the store.  A settled promise
    ignores later calls of its closures. *)

Inductive PromiseState : Type :=
  | Pending
  | Fulfilled (value : JsValue)
  | Rejected (reason : JsValue).

Definition settle (p : nat) (outcome : PromiseState)
    (store : list PromiseState) : list PromiseState :=
  match store !! p with
  | Some Pending => <[p := outcome]> store
  | _ => store
  end.

(** The callback given to [setTimeout] in [sendRequest] closes over
    [requestId] and [reject]. *)
Record Timer : Type := mkTimer {
  due : Z;
  timer_requestId : string;
  timer_reject : nat
}.

Fixpoint findTimer (h : nat) (ts : list (nat * Timer)) : option Timer :=
  match ts with
  | [] => None
  | (h', t) :: ts' => if decide (h' = h) then Some t else findTimer h ts'
  end.

Fixpoint dropTimer (h : nat) (ts : list (nat * Timer)) : list (nat * Timer) :=
  match ts with
  | [] => []
  | (h', t) :: ts' =>
      if decide (h' = h) then dropTimer h ts' else (h', t) :: dropTimer h ts'
  end.

(** ** bridge-service.ts *)

Record PendingRequest : Type := mkPendingRequest {
  id : string;
  endpoint : string;
  data : JsValue;
  timestamp : Z;
  settlement : nat;   (* the promise behind [resolve] and [reject] *)
  timeoutId : nat
}.

Record BatchResponse : Type := mkBatchResponse {
  resp_requestId : string;
  resp_response : JsValue;       (* [response?: unknown] *)
  resp_error : option string     (* [error?: string] *)
}.

(** [{ requestId, request: { endpoint, data } }] *)
Record RequestBody : Type := mkRequestBody {
  req_endpoint : string;
  req_data : JsValue
}.

Record PendingView : Type := mkPendingView {
  requestId : string;
  request : RequestBody
}.

(** The [BridgeService] instance together with the part of the host it
    talks to: the promises it created, the armed timers and [Date.now()]. *)
Record World : Type := mkWorld {
  pendingRequests : list (string * PendingRequest);
  requestQueue : list string;
  promises : list PromiseState;
  timers : list (nat * Timer);
  nextTimer : nat;
  clock : Z
}.

Definition requestTimeout : Z := 30000.

Definition newBridge (now : Z) : World :=
  mkWorld [] [] [] [] 0%nat now.

Definition set_pendingRequests (m : list (string * PendingRequest)) (w : World) : World :=
  mkWorld m (requestQueue w) (promises w) (timers w) (nextTimer w) (clock w).

Definition set_requestQueue (q : list string) (w : World) : World :=
  mkWorld (pendingRequests w) q (promises w) (timers w) (nextTimer w) (clock w).

(** [resolve(v)] / [reject(e)] of promise [p] *)
Definition settlePromise (p : nat) (outcome : PromiseState) (w : World) : World :=
  mkWorld (pendingRequests w) (requestQueue w) (settle p outcome (promises w))
    (timers w) (nextTimer w) (clock w).

Definition clearTimeout (h : nat) (w : World) : World :=
  mkWorld (pendingRequests w) (requestQueue w) (promises w)
    (dropTimer h (timers w)) (nextTimer w) (clock w).

(** The clock moves on; nothing else happens. *)
Definition advance (dt : Z) (w : World) : World :=
  mkWorld (pendingRequests w) (requestQueue w) (promises w) (timers w)
    (nextTimer w) (clock w + dt).

Definition viewOf (r : PendingRequest) : PendingView :=
  mkPendingView (id r) (mkRequestBody (endpoint r) (data r)).

(** [Array.prototype.indexOf], scanning from position [i] *)
Fixpoint indexOf_from (i : Z) (x : string) (l : list string) : Z :=
  match l with
  | [] => -1
  | y :: l' => if decide (y = x) then i else indexOf_from (i + 1) x l'
  end.

Definition indexOf (x : string) (l : list string) : Z := indexOf_from 0 x l.

(** [array.splice(i, 1)] for an index [i >= 0] *)
Definition splice1 (i : nat) (l : list string) : list string := delete i l.

Definition removeFromQueue (requestId : string) (w : World) : World :=
  let index := indexOf requestId (requestQueue w) in
  if -1 <? index
  then set_requestQueue (splice1 (Z.to_nat index) (requestQueue w)) w
  else w.

(** [sendRequest]: [requestId] is the value [uuidv4()] returned.  The result
    is the promise handed to the caller. *)
Definition sendRequest (requestId endpoint : string) (data : JsValue)
    (w : World) : nat * World :=
  let p := length (promises w) in
  let timeoutId := nextTimer w in
  let request :=
    mkPendingRequest requestId endpoint data (clock w) p timeoutId in
  (p, mkWorld
        (JsMap.set requestId request (pendingRequests w))
        (requestQueue w ++ [requestId])
        (promises w ++ [Pending])
        (timers w ++ [(timeoutId, mkTimer (clock w + requestTimeout) requestId p)])
        (S timeoutId)
        (clock w)).

(** Body of the callback armed by [sendRequest]. *)
Definition timeoutHandler (requestId : string) (reject : nat) (w : World) : World :=
  if JsMap.has requestId (pendingRequests w) then
    let w1 := removeFromQueue requestId w in
    let w2 := set_pendingRequests (JsMap.delete requestId (pendingRequests w1)) w1 in
    settlePromise reject (Rejected (JErr "Request timeout")) w2
  else w.

(** The host runs the callback of timer [h]; a timer fires once. *)
Definition fireTimer (h : nat) (w : World) : World :=
  match findTimer h (timers w) with
  | Some t => timeoutHandler (timer_requestId t) (timer_reject t) (clearTimeout h w)
  | None => w
  end.

Fixpoint getPendingRequest_loop (m : list (string * PendingRequest))
    (queue : list string) : option PendingView * list string :=
  match queue with
  | [] => (None, [])
  | requestId :: rest =>
      match JsMap.get requestId m with
      | Some request => (Some (viewOf request), queue)
      | None => getPendingRequest_loop m rest   (* [shift()] *)
      end
  end.

Definition getPendingRequest (w : World) : option PendingView * World :=
  let '(r, q) := getPendingRequest_loop (pendingRequests w) (requestQueue w) in
  (r, set_requestQueue q w).

(** First loop of [getPendingRequests]; [rest] is the queue from index [i] on. *)
Fixpoint getPendingRequests_scan (m : list (string * PendingRequest))
    (maxCount : Z) (i : nat) (rest : list string)
    (results : list PendingView) (toRemove : list nat)
    : list PendingView * list nat :=
  match rest with
  | [] => (results, toRemove)
  | requestId :: rest' =>
      if Z.of_nat (length results) <? maxCount then
        match JsMap.get requestId m with
        | Some request =>
            getPendingRequests_scan m maxCount (S i) rest'
              (results ++ [viewOf request]) toRemove
        | None =>
            getPendingRequests_scan m maxCount (S i) rest' results (toRemove ++ [i])
        end
      else (results, toRemove)
  end.

(** Second loop: the marked indices are spliced out, last one first.
    (Every caller passes [maxCount]; its default of 10 is not modelled.) *)
Definition spliceMarked (toRemove : list nat) (queue : list string) : list string :=
  fold_left (fun q i => splice1 i q) (rev toRemove) queue.

Definition getPendingRequests (maxCount : Z) (w : World) : list PendingView * World :=
  let '(results, toRemove) :=
    getPendingRequests_scan (pendingRequests w) maxCount 0%nat (requestQueue w) [] [] in
  (results, set_requestQueue (spliceMarked toRemove (requestQueue w)) w).

Definition hasPendingRequest (requestId : string) (w : World) : bool :=
  JsMap.has requestId (pendingRequests w).

Definition getPendingCount (w : World) : nat :=
  JsMap.size (pendingRequests w).

(** Common tail of [resolveRequest] and [rejectRequest] once the entry is found. *)
Definition settleRequest (requestId : string) (request : PendingRequest)
    (outcome : PromiseState) (w : World) : World :=
  let w1 := clearTimeout (timeoutId request) w in
  let w2 := removeFromQueue requestId w1 in
  let w3 := set_pendingRequests (JsMap.delete requestId (pendingRequests w2)) w2 in
  settlePromise (settlement request) outcome w3.

Definition resolveRequest (requestId : string) (response : JsValue)
    (w : World) : bool * World :=
  match JsMap.get requestId (pendingRequests w) with
  | Some request => (true, settleRequest requestId request (Fulfilled response) w)
  | None => (false, w)
  end.

Definition rejectRequest (requestId : string) (error : JsValue)
    (w : World) : bool * World :=
  match JsMap.get requestId (pendingRequests w) with
  | Some request => (true, settleRequest requestId request (Rejected error) w)
  | None => (false, w)
  end.

Record Tally : Type := mkTally {
  resolved : nat;
  notFound : nat
}.

(** One iteration of the loop of [resolveRequests]. *)
Definition resolveOne (acc : Tally * World) (resp : BatchResponse) : Tally * World :=
  let '(t, w) := acc in
  let '(ok, w') :=
    if truthy (optStr (resp_error resp))
    then rejectRequest (resp_requestId resp) (optStr (resp_error resp)) w
    else resolveRequest (resp_requestId resp) (resp_response resp) w in
  if ok then (mkTally (S (resolved t)) (notFound t), w')
  else (mkTally (resolved t) (S (notFound t)), w').

Definition resolveRequests (responses : list BatchResponse) (w : World) : Tally * World :=
  fold_left resolveOne responses (mkTally 0 0, w).

(** One iteration of the loop of [cleanupOldRequests]. *)
Definition cleanupOne (now : Z) (w : World) (entry : string * PendingRequest) : World :=
  let '(id, request) := entry in
  if requestTimeout <? now - timestamp request
  then settleRequest id request (Rejected (JErr "Request timeout")) w
  else w.

(** The loop deletes only the entry it is visiting, so it visits exactly the
    entries present when it starts. *)
Definition cleanupOldRequests (w : World) : World :=
  fold_left (cleanupOne (clock w)) (pendingRequests w) w.

Definition clearOne (w : World) (entry : string * PendingRequest) : World :=
  let '(_, request) := entry in
  settlePromise (settlement request) (Rejected (JErr "Connection closed"))
    (clearTimeout (timeoutId request) w).

Definition clearAllPendingRequests (w : World) : World :=
  let w1 := fold_left clearOne (pendingRequests w) w in
  set_requestQueue [] (set_pendingRequests [] w1).

(** ** The host's timer queue under a simulated clock *)

Definition set_clock (now : Z) (w : World) : World :=
  mkWorld (pendingRequests w) (requestQueue w) (promises w) (timers w)
    (nextTimer w) now.

(** The armed timer that is due at [t] with the earliest deadline; among
    equal deadlines the one armed first. *)
Fixpoint nextDue (t : Z) (ts : list (nat * Timer)) : option (nat * Timer) :=
  match ts with
  | [] => None
  | (h, tm) :: ts' =>
      if due tm <=? t then
        match nextDue t ts' with
        | Some (h', tm') =>
            if due tm <=? due tm' then Some (h, tm) else Some (h', tm')
        | None => Some (h, tm)
        end
      else nextDue t ts'
  end.

Fixpoint runTimers (fuel : nat) (t : Z) (w : World) : World :=
  match fuel with
  | O => w
  | S fuel' =>
      match nextDue t (timers w) with
      | Some (h, tm) =>
          runTimers fuel' t (fireTimer h (set_clock (Z.max (clock w) (due tm)) w))
      | None => w
      end
  end.

(** The clock moves [ms] milliseconds on and every timer that falls due on
    the way fires, in deadline order (the fake-timer clock of the test
    suite).  No callback of the bridge arms a timer, so the number of armed
    timers bounds the number of firings. *)
Definition advanceTimersByTime (ms : Z) (w : World) : World :=
  let t := clock w + ms in
  set_clock t (runTimers (length (timers w)) t w).

(** ** Operations on a bridge, as its clients and the host perform them *)

Inductive Op : Type :=
  | OpSendRequest (requestId endpoint : string) (data : JsValue)
  | OpGetPendingRequest
  | OpGetPendingRequests (maxCount : Z)
  | OpResolveRequest (requestId : string) (response : JsValue)
  | OpRejectRequest (requestId : string) (error : JsValue)
  | OpResolveRequests (responses : list BatchResponse)
  | OpTimeout (h : nat)
  | OpCleanupOldRequests
  | OpClearAllPendingRequests
  | OpAdvance (dt : Z).

Definition exec (op : Op) (w : World) : World :=
  match op with
  | OpSendRequest requestId endpoint data => (sendRequest requestId endpoint data w).2
  | OpGetPendingRequest => (getPendingRequest w).2
  | OpGetPendingRequests maxCount => (getPendingRequests maxCount w).2
  | OpResolveRequest requestId response => (resolveRequest requestId response w).2
  | OpRejectRequest requestId error => (rejectRequest requestId error w).2
  | OpResolveRequests responses => (resolveRequests responses w).2
  | OpTimeout h => fireTimer h w
  | OpCleanupOldRequests => cleanupOldRequests w
  | OpClearAllPendingRequests => clearAllPendingRequests w
  | OpAdvance dt => advance dt w
  end.

(** [uuidv4()] never returns the id of a request that is pending, a timer
    fires no earlier than its deadline and the clock does not run backwards. *)
Definition enabled (op : Op) (w : World) : Prop :=
  match op with
  | OpSendRequest requestId _ _ => hasPendingRequest requestId w = false
  | OpTimeout h => exists t, findTimer h (timers w) = Some t /\ due t <= clock w
  | OpAdvance dt => 0 <= dt
  | _ => True
  end.

Inductive reachable : World -> Prop :=
  | reachable_new now : reachable (newBridge now)
  | reachable_exec op w : reachable w -> enabled op w -> reachable (exec op w).

(** ** http-server.ts: what the two variants share *)

Record Server : Type := mkServer {
  bridge : World;
  pluginConnected : bool;
  mcpServerActive : bool;
  lastMCPActivity : Z;
  mcpServerStartTime : Z;
  lastPluginActivity : Z
}.

Record HttpResponse : Type := mkHttpResponse {
  status : Z;
  body : JsValue
}.

(** [res.json(b)] and [res.status(c).json(b)] *)
Definition json (b : JsValue) : HttpResponse := mkHttpResponse 200 b.
Definition statusJson (c : Z) (b : JsValue) : HttpResponse := mkHttpResponse c b.

Definition newServer (b : World) : Server := mkServer b false false 0 0 0.

Definition now (s : Server) : Z := clock (bridge s).

Definition set_bridge (b : World) (s : Server) : Server :=
  mkServer b (pluginConnected s) (mcpServerActive s) (lastMCPActivity s)
    (mcpServerStartTime s) (lastPluginActivity s).

Definition set_plugin (connected : bool) (last : Z) (s : Server) : Server :=
  mkServer (bridge s) connected (mcpServerActive s) (lastMCPActivity s)
    (mcpServerStartTime s) last.

Definition set_lastMCPActivity (last : Z) (s : Server) : Server :=
  mkServer (bridge s) (pluginConnected s) (mcpServerActive s) last
    (mcpServerStartTime s) (lastPluginActivity s).

Definition setMCPServerActive (active : bool) (s : Server) : Server :=
  if active
  then mkServer (bridge s) (pluginConnected s) active (now s) (now s)
         (lastPluginActivity s)
  else mkServer (bridge s) (pluginConnected s) active 0 0 (lastPluginActivity s).

Definition trackMCPActivity (s : Server) : Server :=
  if mcpServerActive s then set_lastMCPActivity (now s) s else s.

Definition isPluginConnected (s : Server) : bool :=
  pluginConnected s && (now s - lastPluginActivity s <? 10000).

(** [dt] milliseconds pass and nothing happens. *)
Definition elapse (dt : Z) (s : Server) : Server :=
  set_bridge (advance dt (bridge s)) s.

Definition success : JsValue := JObj [("success", JBool true)].

(** [POST /ready] *)
Definition ready (s : Server) : HttpResponse * Server :=
  (json success, set_plugin true (now s) s).

(** [POST /disconnect] *)
Definition disconnect (s : Server) : HttpResponse * Server :=
  let s1 := set_plugin false (lastPluginActivity s) s in
  let s2 := set_bridge (clearAllPendingRequests (bridge s1)) s1 in
  (json success, s2).

(** First statements of both [GET /poll] handlers. *)
Definition trackPluginActivity (s : Server) : Server :=
  let s1 := if negb (pluginConnected s)
            then set_plugin true (lastPluginActivity s) s else s in
  set_plugin (pluginConnected s1) (now s1) s1.

Definition requestBodyJson (r : RequestBody) : JsValue :=
  JObj [("endpoint", JStr (req_endpoint r)); ("data", req_data r)].

Definition viewJson (v : PendingView) : JsValue :=
  JObj [("requestId", JStr (requestId v)); ("request", requestBodyJson (request v))].

(** Body of [POST /response] after [express.json()], destructured: each
    of the four properties is whatever JSON value the plugin sent,
    [undefined] when it sent none. *)
Record ResponseBody : Type := mkResponseBody {
  body_requestId : JsValue;
  body_response : JsValue;
  body_error : JsValue;
  body_responses : JsValue
}.

(** [bridge.rejectRequest(requestId, error)], [bridge.resolveRequest(requestId,
    response)] and [bridge.hasPendingRequest(requestId)] with a [requestId]
    of any kind: every key of the map is a string. *)
Definition rejectMaybe (requestId : JsValue) (error : JsValue)
    (w : World) : bool * World :=
  match requestId with
  | JStr rid => rejectRequest rid error w
  | _ => (false, w)
  end.

Definition resolveMaybe (requestId : JsValue) (response : JsValue)
    (w : World) : bool * World :=
  match requestId with
  | JStr rid => resolveRequest rid response w
  | _ => (false, w)
  end.

Definition hasPendingMaybe (requestId : JsValue) (w : World) : bool :=
  match requestId with
  | JStr rid => hasPendingRequest rid w
  | _ => false
  end.

(** [v.name] for one of the properties [requestId], [response] and
    [error], which no array, string, number or boolean has; [None] when the
    access throws a [TypeError].  An object parsed from JSON has each key
    once. *)
Definition getProp (name : string) (v : JsValue) : option JsValue :=
  match v with
  | JUndefined | JNull => None
  | JObj fields =>
      Some (match JsMap.get name fields with Some x => x | None => JUndefined end)
  | _ => Some JUndefined
  end.

(** One iteration of the loop of [resolveRequests] on an entry of any
    kind, as the handler passes the parsed array on unchecked; [None] when
    [resp.error] throws. *)
Definition resolveOneJs (acc : Tally * World) (resp : JsValue)
    : option (Tally * World) :=
  let '(t, w) := acc in
  match getProp "error" resp, getProp "requestId" resp, getProp "response" resp with
  | Some error, Some requestId, Some response =>
      let '(ok, w') :=
        if truthy error
        then rejectMaybe requestId error w
        else resolveMaybe requestId response w in
      Some (if ok then (mkTally (S (resolved t)) (notFound t), w')
            else (mkTally (resolved t) (S (notFound t)), w'))
  | _, _, _ => None
  end.

(** [resolveRequests] on such an array: its tally, or, when an entry makes
    it throw, the bridge as the entries before that one have left it. *)
Fixpoint resolveRequestsJs_loop (responses : list JsValue) (acc : Tally * World)
    : (Tally * World) + World :=
  match responses with
  | [] => inl acc
  | resp :: rest =>
      match resolveOneJs acc resp with
      | Some acc' => resolveRequestsJs_loop rest acc'
      | None => inr acc.2
      end
  end.

Definition resolveRequestsJs (responses : list JsValue) (w : World)
    : (Tally * World) + World :=
  resolveRequestsJs_loop responses (mkTally 0 0, w).

(** The JSON object of an entry of the declared type [BatchResponse]. *)
Definition batchResponseJson (r : BatchResponse) : JsValue :=
  JObj ([("requestId", JStr (resp_requestId r))]
        ++ match resp_response r with
           | JUndefined => []
           | v => [("response", v)]
           end
        ++ match resp_error r with
           | Some e => [("error", JStr e)]
           | None => []
           end).

(** A handler that throws is answered by the default error handler of
    Express: status 500 and an error page, which is not JSON and is not
    modelled ([undefined]). *)
Definition uncaught : HttpResponse := mkHttpResponse 500 JUndefined.

(** ** src/http-server.ts: single-request polling, liveness with a timeout *)

Module HttpServerV1.

Definition isMCPServerActive (s : Server) : bool :=
  mcpServerActive s && (now s - lastMCPActivity s <? 15000).

Definition poll (s : Server) : HttpResponse * Server :=
  let s1 := trackPluginActivity s in
  if negb (isMCPServerActive s1) then
    (statusJson 503
       (JObj [("error", JStr "MCP server not connected");
              ("pluginConnected", JBool true);
              ("mcpConnected", JBool false);
              ("request", JNull)]),
     s1)
  else
    let s2 := trackMCPActivity s1 in
    let '(pendingRequest, b) := getPendingRequest (bridge s2) in
    let s3 := set_bridge b s2 in
    match pendingRequest with
    | Some pr =>
        (json (JObj [("request", requestBodyJson (request pr));
                     ("requestId", JStr (requestId pr));
                     ("mcpConnected", JBool true);
                     ("pluginConnected", JBool true)]),
         s3)
    | None =>
        (json (JObj [("request", JNull);
                     ("mcpConnected", JBool true);
                     ("pluginConnected", JBool true)]),
         s3)
    end.

Definition response (b : ResponseBody) (s : Server) : HttpResponse * Server :=
  let '(_, w) :=
    if truthy (body_error b)
    then rejectMaybe (body_requestId b) (body_error b) (bridge s)
    else resolveMaybe (body_requestId b) (body_response b) (bridge s) in
  (json success, set_bridge w s).

Definition uptime (s : Server) : Z :=
  if mcpServerActive s then now s - mcpServerStartTime s else 0.

(** [GET /health] *)
Definition health (s : Server) : HttpResponse :=
  json (JObj [("status", JStr "ok");
              ("service", JStr "robloxstudio-mcp");
              ("pluginConnected", JBool (pluginConnected s));
              ("mcpServerActive", JBool (isMCPServerActive s));
              ("uptime", JNum (uptime s))]).

(** [GET /status] *)
Definition statusOf (s : Server) : HttpResponse :=
  json (JObj [("pluginConnected", JBool (pluginConnected s));
              ("mcpServerActive", JBool (isMCPServerActive s));
              ("lastMCPActivity", JNum (lastMCPActivity s));
              ("uptime", JNum (uptime s))]).

End HttpServerV1.

(** ** The long-polling, batching variant of http-server.ts; liveness is the
    flag alone *)

Module HttpServerV2.

Definition isMCPServerActive (s : Server) : bool := mcpServerActive s.

Definition pollInterval : Z := 50.

(** [await new Promise(resolve => setTimeout(resolve, pollInterval))]: the
    loop goes on [pollInterval] ms later, in the state the rest of the
    program has brought about meanwhile; [env i] is what the rest of the
    program does during the [i]-th sleep. *)
Definition sleep (env : nat -> Server -> Server) (i : nat) (s : Server) : Server :=
  let s' := env i s in
  set_bridge (set_clock (now s + pollInterval) (bridge s')) s'.

(** [waitForRequests].  [fuel] bounds the number of checks. *)
Fixpoint waitForRequests_loop (env : nat -> Server -> Server) (fuel : nat)
    (i : nat) (startTime maxWaitMs maxBatchSize : Z) (s : Server)
    : option (list PendingView * Server) :=
  match fuel with
  | O => None
  | S fuel' =>
      if now s - startTime <? maxWaitMs then
        let '(requests, b) := getPendingRequests maxBatchSize (bridge s) in
        let s1 := set_bridge b s in
        if (0 <? length requests)%nat then Some (requests, s1)
        else waitForRequests_loop env fuel' (S i) startTime maxWaitMs
               maxBatchSize (sleep env i s1)
      else Some ([], s)
  end.

Definition waitForRequests (env : nat -> Server -> Server) (fuel : nat)
    (maxWaitMs maxBatchSize : Z) (s : Server)
    : option (list PendingView * Server) :=
  waitForRequests_loop env fuel 0 (now s) maxWaitMs maxBatchSize s.

(** Query of [GET /poll]; [q_maxWait] and [q_maxBatch] are the results of
    [parseInt], [None] for [NaN]. *)
Record PollQuery : Type := mkPollQuery {
  q_longPoll : option string;
  q_maxWait : option Z;
  q_maxBatch : option Z
}.

(** [parseInt(x) || d] *)
Definition orDefault (n : option Z) (d : Z) : Z :=
  match n with
  | Some z => if z =? 0 then d else z
  | None => d
  end.

Definition isLongPoll (q : PollQuery) : bool :=
  match q_longPoll q with
  | Some v => negb (String.eqb v "false")
  | None => true
  end.

Definition maxWaitOf (q : PollQuery) : Z := Z.min (orDefault (q_maxWait q) 5000) 30000.
Definition maxBatchOf (q : PollQuery) : Z := Z.min (orDefault (q_maxBatch q) 10) 50.

Definition unavailable : JsValue :=
  JObj [("error", JStr "MCP server not connected");
        ("pluginConnected", JBool true);
        ("mcpConnected", JBool false);
        ("requests", JArr [])].

Definition batchJson (requests : list PendingView) : JsValue :=
  JObj [("requests", JArr (viewJson <$> requests));
        ("mcpConnected", JBool true);
        ("pluginConnected", JBool true);
        ("batchSize", JNum (Z.of_nat (length requests)))].

Definition poll (env : nat -> Server -> Server) (fuel : nat) (q : PollQuery)
    (s : Server) : option (HttpResponse * Server) :=
  let s1 := trackPluginActivity s in
  let s2 := if mcpServerActive s1 then set_lastMCPActivity (now s1) s1 else s1 in
  if negb (isMCPServerActive s2) then Some (statusJson 503 unavailable, s2)
  else
    let s3 := trackMCPActivity s2 in
    let longPoll := isLongPoll q in
    let maxWait := maxWaitOf q in
    let maxBatch := maxBatchOf q in
    let waited :=
      if longPoll then waitForRequests env fuel maxWait maxBatch s3
      else
        let '(requests, b) := getPendingRequests maxBatch (bridge s3) in
        Some (requests, set_bridge b s3) in
    match waited with
    | Some (requests, s4) =>
        if (0 <? length requests)%nat then Some (json (batchJson requests), s4)
        else Some (json (batchJson []), s4)
    | None => None
    end.

Definition badRequest : HttpResponse :=
  statusJson 400 (JObj [("error", JStr "requestId or responses array is required")]).

Definition notFoundResponse : HttpResponse :=
  statusJson 404 (JObj [("error", JStr "Request not found or already resolved")]).

(** The single response mode of [POST /response]: a truthy [requestId],
    else 400. *)
Definition responseSingle (b : ResponseBody) (s : Server) : HttpResponse * Server :=
  if truthy (body_requestId b) then
    if negb (hasPendingMaybe (body_requestId b) (bridge s))
    then (notFoundResponse, s)
    else
      let '(_, w) :=
        if truthy (body_error b)
        then rejectMaybe (body_requestId b) (body_error b) (bridge s)
        else resolveMaybe (body_requestId b) (body_response b) (bridge s) in
      (json success, set_bridge w s)
  else (badRequest, s).

(** [POST /response].  [responses && Array.isArray(responses)] holds
    exactly of an array (every array is truthy); the array goes to
    [resolveRequests] as it is. *)
Definition response (b : ResponseBody) (s : Server) : HttpResponse * Server :=
  match body_responses b with
  | JArr responses =>
      match resolveRequestsJs responses (bridge s) with
      | inl (result, w) =>
          (json (JObj [("success", JBool true);
                       ("resolved", JNum (Z.of_nat (resolved result)));
                       ("notFound", JNum (Z.of_nat (notFound result)))]),
           set_bridge w s)
      | inr w => (uncaught, set_bridge w s)
      end
  | _ => responseSingle b s
  end.

Definition uptime (s : Server) : Z :=
  if mcpServerActive s then now s - mcpServerStartTime s else 0.

(** [GET /health] *)
Definition health (s : Server) : HttpResponse :=
  json (JObj [("status", JStr "ok");
              ("service", JStr "roblox-mcp");
              ("version", JStr "2.1.0");
              ("pluginConnected", JBool (pluginConnected s));
              ("mcpServerActive", JBool (isMCPServerActive s));
              ("uptime", JNum (uptime s));
              ("pendingRequests", JNum (Z.of_nat (getPendingCount (bridge s))))]).

(** [GET /status] *)
Definition statusOf (s : Server) : HttpResponse :=
  json (JObj [("pluginConnected", JBool (pluginConnected s));
              ("mcpServerActive", JBool (isMCPServerActive s));
              ("lastMCPActivity", JNum (lastMCPActivity s));
              ("uptime", JNum (uptime s));
              ("pendingRequests", JNum (Z.of_nat (getPendingCount (bridge s))))]).

(** The long poll as the design describes it: check the ledger for a
    batch again and again, one sleep apart, until a batch is not empty or
    the wait is over; the result is that batch, or the empty list. *)
Inductive LongPoll (env : nat -> Server -> Server)
    (startTime maxWaitMs maxBatchSize : Z)
    : nat -> Server -> list PendingView -> Server -> Prop :=
  | LongPoll_timeout i s :
      maxWaitMs <= now s - startTime ->
      LongPoll env startTime maxWaitMs maxBatchSize i s [] s
  | LongPoll_batch i s requests b :
      now s - startTime < maxWaitMs ->
      getPendingRequests maxBatchSize (bridge s) = (requests, b) ->
      requests ≠ [] ->
      LongPoll env startTime maxWaitMs maxBatchSize i s requests (set_bridge b s)
  | LongPoll_sleep i s b requests s' :
      now s - startTime < maxWaitMs ->
      getPendingRequests maxBatchSize (bridge s) = ([], b) ->
      LongPoll env startTime maxWaitMs maxBatchSize (S i)
        (sleep env i (set_bridge b s)) requests s' ->
      LongPoll env startTime maxWaitMs maxBatchSize i s requests s'.

End HttpServerV2.

(** ** What the plugin does to the single-request server *)

(** The requests of the plugin ([/ready], [/disconnect], [/poll],
    [/response]) and the passing of time. *)
Inductive PluginOp : Type :=
  | PluginReady
  | PluginDisconnect
  | PluginPoll
  | PluginResponse (b : ResponseBody)
  | PluginWait (dt : Z).

Module PluginV1.

Definition serve (op : PluginOp) (s : Server) : Server :=
  match op with
  | PluginReady => (ready s).2
  | PluginDisconnect => (disconnect s).2
  | PluginPoll => (HttpServerV1.poll s).2
  | PluginResponse b => (HttpServerV1.response b s).2
  | PluginWait dt => elapse dt s
  end.

Definition serveAll (ops : list PluginOp) (s : Server) : Server :=
  fold_left (fun s op => serve op s) ops s.

End PluginV1.

(** Time does not run backwards. *)
Definition forward (op : PluginOp) : Prop :=
  match op with
  | PluginWait dt => 0 <= dt
  | _ => True
  end.

(** ** tools/index.ts: the result cache and the helpers of the tools *)

Record CacheEntry : Type := mkCacheEntry {
  cache_data : JsValue;
  cache_timestamp : Z
}.

Record CacheConfig : Type := mkCacheConfig {
  cfg_enabled : bool;
  cfg_defaultTTL : Z;
  cfg_maxSize : nat
}.

(** The configuration is set once, in the field initialiser. *)
Definition cacheConfig : CacheConfig := mkCacheConfig true 5000 100.

(** [getCached]: [null] on a miss, else [entry.data]. *)
Definition getCached (key : string) (now : Z) (cache : list (string * CacheEntry))
    : JsValue * list (string * CacheEntry) :=
  if negb (cfg_enabled cacheConfig) then (JNull, cache)
  else
    match JsMap.get key cache with
    | None => (JNull, cache)
    | Some entry =>
        if cfg_defaultTTL cacheConfig <? now - cache_timestamp entry
        then (JNull, JsMap.delete key cache)
        else (cache_data entry, cache)
    end.

(** [setCache]; [this.cache.keys().next().value] is the first key of the
    map in insertion order, [undefined] when the map is empty. *)
Definition setCache (key : string) (data : JsValue) (now : Z)
    (cache : list (string * CacheEntry)) : list (string * CacheEntry) :=
  if negb (cfg_enabled cacheConfig) then cache
  else
    let cache1 :=
      if (cfg_maxSize cacheConfig <=? JsMap.size cache)%nat then
        match JsMap.keys cache with
        | oldestKey :: _ =>
            if truthy (JStr oldestKey) then JsMap.delete oldestKey cache else cache
        | [] => cache
        end
      else cache in
    JsMap.set key (mkCacheEntry data now) cache1.

(** [String.prototype.includes] *)
Fixpoint includes (pattern s : string) : bool :=
  String.prefix pattern s ||
  match s with
  | EmptyString => false
  | String _ s' => includes pattern s'
  end.

(** [invalidateCache(pattern?)] *)
Definition invalidateCache (pattern : option string)
    (cache : list (string * CacheEntry)) : list (string * CacheEntry) :=
  match pattern with
  | Some p =>
      if negb (truthy (JStr p)) then []
      else
        fold_left (fun c key => if includes p key then JsMap.delete key c else c)
          (JsMap.keys cache) cache
  | None => []
  end.

(** What the tools do to the cache. *)
Inductive CacheOp : Type :=
  | CacheGet (key : string) (now : Z)
  | CacheSet (key : string) (data : JsValue) (now : Z)
  | CacheInvalidate (pattern : option string).

Definition cacheStep (cache : list (string * CacheEntry)) (op : CacheOp)
    : list (string * CacheEntry) :=
  match op with
  | CacheGet key now => (getCached key now cache).2
  | CacheSet key data now => setCache key data now cache
  | CacheInvalidate pattern => invalidateCache pattern cache
  end.

(** The keys the tools use are never empty: each starts with a tag such as
    [props:] or is [place-info]. *)
Definition properKey (op : CacheOp) : Prop :=
  match op with
  | CacheSet key _ _ => key ≠ ""
  | _ => True
  end.

(** [validateRequired]: the message of the error it throws, if it throws. *)
Definition validateRequired (value : JsValue) (name : string) : option string :=
  match value with
  | JUndefined | JNull => Some (name ++ " is required")%string
  | JStr s => if String.eqb s "" then Some (name ++ " is required")%string else None
  | _ => None
  end.

(** [s.lastIndexOf(c)] for a single character [c]; [i] is the position of
    the head of [s] and [last] the last match seen so far. *)
Fixpoint lastIndexOf_from (i : Z) (c : Ascii.ascii) (s : string) (last : Z) : Z :=
  match s with
  | EmptyString => last
  | String a s' =>
      lastIndexOf_from (i + 1) c s' (if Ascii.eqb a c then i else last)
  end.

Definition lastIndexOf (c : Ascii.ascii) (s : string) : Z :=
  lastIndexOf_from 0 c s (-1).

(** [s.substring(start, end)]: both arguments are clamped to the string
    and swapped when they are out of order. *)
Definition substring (start end_ : Z) (s : string) : string :=
  let len := Z.of_nat (String.length s) in
  let a := Z.min (Z.max start 0) len in
  let b := Z.min (Z.max end_ 0) len in
  String.substring (Z.to_nat (Z.min a b)) (Z.to_nat (Z.max a b - Z.min a b)) s.

Definition dot : Ascii.ascii := "."%char.

(** [getParentPath] of the later tools file *)
Definition getParentPath (instancePath : string) : string :=
  let lastDot := lastIndexOf dot instancePath in
  if 0 <? lastDot then substring 0 lastDot instancePath else "".

(** The earlier tools file computes the parent in place:
    [instancePath.substring(0, instancePath.lastIndexOf('.'))]. *)
Definition parentPathInline (instancePath : string) : string :=
  substring 0 (lastIndexOf dot instancePath) instancePath.

(** [deleteObject] up to its request to Studio: the error thrown, or the
    cache after the two invalidations. *)
Definition deleteObject_cache (instancePath : string)
    (cache : list (string * CacheEntry)) : string + list (string * CacheEntry) :=
  match validateRequired (JStr instancePath) "instancePath" with
  | Some message => inl message
  | None =>
      let cache1 := invalidateCache (Some instancePath) cache in
      let parentPath := getParentPath instancePath in
      inr (if truthy (JStr parentPath)
           then invalidateCache (Some parentPath) cache1 else cache1)
  end.

(** *** [batch] *)

Record ToolCall : Type := mkToolCall {
  tool : string;
  args : JsValue
}.

(** What awaiting [executeTool] gives: a result, or the message of the
    error thrown. *)
Inductive ToolOutcome : Type :=
  | ToolReturns (result : JsValue)
  | ToolThrows (message : string).

Record BatchItem : Type := mkBatchItem {
  item_tool : string;
  item_success : bool;
  item_result : JsValue;          (* [undefined] on failure *)
  item_error : option string
}.

Record BatchReport : Type := mkBatchReport {
  results : list BatchItem;
  successCount : nat;
  errorCount : nat;
  totalOperations : nat
}.

(** The loop of [batch].  [executeTool] runs a tool against the state [St]
    of Studio and the bridge. *)
Fixpoint batch_loop {St : Type} (executeTool : ToolCall -> St -> ToolOutcome * St)
    (continueOnError : bool) (operations : list ToolCall)
    (acc : list BatchItem) (successes errors : nat) (st : St)
    : (list BatchItem * nat * nat) * St :=
  match operations with
  | [] => (acc, successes, errors, st)
  | op :: rest =>
      match executeTool op st with
      | (ToolReturns result, st') =>
          batch_loop executeTool continueOnError rest
            (acc ++ [mkBatchItem (tool op) true result None])
            (S successes) errors st'
      | (ToolThrows message, st') =>
          let acc' := acc ++ [mkBatchItem (tool op) false JUndefined (Some message)] in
          if negb continueOnError then (acc', successes, S errors, st')
          else batch_loop executeTool continueOnError rest acc' successes (S errors) st'
      end
  end.

(** [batch]: the object handed to [formatMcpResponse], or the error thrown
    for a missing or empty [operations]. *)
Definition batch {St : Type} (executeTool : ToolCall -> St -> ToolOutcome * St)
    (operations : option (list ToolCall)) (continueOnError : bool) (st : St)
    : (string + BatchReport) * St :=
  match operations with
  | None | Some [] => (inl "Operations array is required for batch", st)
  | Some ops =>
      let '(acc, successes, errors, st') :=
        batch_loop executeTool continueOnError ops [] 0%nat 0%nat st in
      (inr (mkBatchReport acc successes errors (length ops)), st')
  end.

(** ** Vocabulary of the statements *)

Definition execAll (ops : list Op) (w : World) : World :=
  fold_left (fun w op => exec op w) ops w.

(** Each operation of the run is possible when its turn comes. *)
Fixpoint enabledAll (ops : list Op) (w : World) : Prop :=
  match ops with
  | [] => True
  | op :: ops' => enabled op w /\ enabledAll ops' (exec op w)
  end.

(** [op] hands [requestId] out again. *)
Definition issues (requestId : string) (op : Op) : Prop :=
  match op with
  | OpSendRequest r _ _ => r = requestId
  | _ => False
  end.

(** Property [name] of a JSON object. *)
Definition field (name : string) (v : JsValue) : option JsValue :=
  match v with
  | JObj fs => JsMap.get name fs
  | _ => None
  end.

Definition timeoutError : PromiseState := Rejected (JErr "Request timeout").
Definition connectionClosed : PromiseState := Rejected (JErr "Connection closed").

(** The ledger invariant: the queue lists the keys of the map in the order
    of the map; every entry is filed under its own id, its promise is still
    pending and is the promise of no other entry, and its timer is armed
    with the callback [sendRequest] built; every armed timer belongs to an
    entry and was handed out by the counter; the entries stand in the order
    in which their timers were handed out, which is the order of the calls
    of [sendRequest]; no two armed timers share a handle. *)
Record wf (w : World) : Prop := mkWf {
  wf_nodup : NoDup (JsMap.keys (pendingRequests w));
  wf_queue : requestQueue w = JsMap.keys (pendingRequests w);
  wf_entry : forall k r,
    JsMap.get k (pendingRequests w) = Some r ->
    id r = k /\
    promises w !! settlement r = Some Pending /\
    findTimer (timeoutId r) (timers w)
      = Some (mkTimer (timestamp r + requestTimeout) k (settlement r));
  wf_promise : forall k1 k2 r1 r2,
    JsMap.get k1 (pendingRequests w) = Some r1 ->
    JsMap.get k2 (pendingRequests w) = Some r2 ->
    settlement r1 = settlement r2 -> k1 = k2;
  wf_timer : forall h t,
    findTimer h (timers w) = Some t ->
    (h < nextTimer w)%nat /\
    exists r, JsMap.get (timer_requestId t) (pendingRequests w) = Some r /\
              timeoutId r = h;
  wf_sorted :
    StronglySorted lt ((fun e => timeoutId e.2) <$> pendingRequests w);
  wf_handles : NoDup (fst <$> timers w)
}.

(** Nothing was registered between [w] and [w']: every entry and every
    armed timer of [w'] is one of [w], and what was settled stays settled. *)
Definition shrinks (w w' : World) : Prop :=
  (forall k r, JsMap.get k (pendingRequests w') = Some r ->
               JsMap.get k (pendingRequests w) = Some r) /\
  (forall p st, promises w !! p = Some st -> st ≠ Pending ->
                promises w' !! p = Some st) /\
  (forall h t, findTimer h (timers w') = Some t ->
               findTimer h (timers w) = Some t) /\
  pendingRequests w' `sublist_of` pendingRequests w.

(** The entries of a batch that find nothing to settle when their turn
    comes, given the ids that are live before the batch. *)
Fixpoint batchMisses (live : list string) (responses : list BatchResponse) : nat :=
  match responses with
  | [] => 0%nat
  | resp :: rest =>
      if decide (resp_requestId resp ∈ live)
      then batchMisses (filter (fun k => k ≠ resp_requestId resp) live) rest
      else S (batchMisses live rest)
  end.

(** [now - timestamp > requestTimeout] *)
Definition expired (now : Z) (r : PendingRequest) : Prop :=
  requestTimeout < now - timestamp r.

(** Every promise that is still pending belongs to a request in the map. *)
Definition accounted (w : World) : Prop :=
  forall p, promises w !! p = Some Pending ->
    exists k r, JsMap.get k (pendingRequests w) = Some r /\ settlement r = p.



(** ** Insertion-ordered maps *)

Section JsMap_facts.
Context {V : Type}.
Implicit Types (m : list (string * V)) (k : string) (v : V).

Lemma get_None_keys k m : JsMap.get k m = None <-> k ∉ JsMap.keys m.
Proof.
  induction m as [|[k' v'] m IH]; simpl.
  - split; [intros _; apply not_elem_of_nil | done].
  - rewrite not_elem_of_cons. destruct (decide (k' = k)) as [->|Hne].
    + split; [done | intros [? _]; done].
    + rewrite IH. split; [intros ?; split; [congruence | done] | intros [_ ?]; done].
Qed.

Lemma get_Some_elem k v m : JsMap.get k m = Some v -> (k, v) ∈ m.
Proof.
  induction m as [|[k' v'] m IH]; simpl; [done|].
  destruct (decide (k' = k)) as [->|Hne].
  - intros [= ->]. apply list_elem_of_here.
  - intros H. apply list_elem_of_further, IH, H.
Qed.

Lemma elem_get k v m : NoDup (JsMap.keys m) -> (k, v) ∈ m -> JsMap.get k m = Some v.
Proof.
  induction m as [|[k' v'] m IH]; simpl; intros Hnd Hin.
  - by apply elem_of_nil in Hin.
  - apply NoDup_cons in Hnd as [Hnotin Hnd].
    apply elem_of_cons in Hin as [[= <- <-]|Hin].
    + by rewrite decide_True.
    + destruct (decide (k' = k)) as [->|Hne]; [|by apply IH].
      exfalso. apply Hnotin. apply (list_elem_of_fmap_2 fst) in Hin. exact Hin.
Qed.

Lemma has_get k m : JsMap.has k m = true <-> is_Some (JsMap.get k m).
Proof.
  unfold JsMap.has. destruct (JsMap.get k m); split; intros H;
    first [done | by eexists | by destruct H].
Qed.

Lemma has_false_get k m : JsMap.has k m = false <-> JsMap.get k m = None.
Proof. unfold JsMap.has. by destruct (JsMap.get k m). Qed.

Lemma get_delete_eq k m : JsMap.get k (JsMap.delete k m) = None.
Proof.
  induction m as [|[k' v'] m IH]; simpl; [done|].
  destruct (decide (k' = k)) as [->|Hne]; [done|].
  simpl. by rewrite decide_False.
Qed.

Lemma get_delete_ne k k' m : k ≠ k' -> JsMap.get k' (JsMap.delete k m) = JsMap.get k' m.
Proof.
  intros Hne. induction m as [|[k0 v0] m IH]; simpl; [done|].
  destruct (decide (k0 = k)) as [->|Hne0].
  - by rewrite decide_False.
  - simpl. by rewrite IH.
Qed.

Lemma keys_delete k m :
  JsMap.keys (JsMap.delete k m) = filter (fun k' => k' ≠ k) (JsMap.keys m).
Proof.
  induction m as [|[k0 v0] m IH]; simpl; [done|].
  rewrite filter_cons. simpl. destruct (decide (k0 = k)) as [->|Hne0].
  - by rewrite decide_False by (intros H; by apply H).
  - rewrite decide_True by done. simpl. by rewrite IH.
Qed.

Lemma delete_filter k m :
  JsMap.delete k m = filter (fun e => e.1 ≠ k) m.
Proof.
  induction m as [|[k0 v0] m IH]; simpl; [done|].
  rewrite filter_cons. simpl. destruct (decide (k0 = k)) as [->|Hne0].
  - by rewrite decide_False by (intros H; by apply H).
  - rewrite decide_True by done. by rewrite IH.
Qed.

Lemma delete_absent k m : JsMap.get k m = None -> JsMap.delete k m = m.
Proof.
  induction m as [|[k0 v0] m IH]; simpl; [done|].
  destruct (decide (k0 = k)) as [->|Hne0]; [done|].
  intros H. by rewrite IH.
Qed.

Lemma set_fresh k v m : JsMap.get k m = None -> JsMap.set k v m = m ++ [(k, v)].
Proof.
  induction m as [|[k0 v0] m IH]; simpl; [done|].
  destruct (decide (k0 = k)) as [->|Hne0]; [done|].
  intros H. by rewrite IH.
Qed.

Lemma get_app k m1 m2 :
  JsMap.get k (m1 ++ m2) =
    match JsMap.get k m1 with Some v => Some v | None => JsMap.get k m2 end.
Proof.
  induction m1 as [|[k0 v0] m1 IH]; simpl; [done|].
  by destruct (decide (k0 = k)).
Qed.

Lemma NoDup_keys_delete k m :
  NoDup (JsMap.keys m) -> NoDup (JsMap.keys (JsMap.delete k m)).
Proof. intros H. rewrite keys_delete. by apply NoDup_filter. Qed.
End JsMap_facts.

(** ** The queue, the timers and the promise store *)

Lemma indexOf_from_bounds i x l :
  indexOf_from i x l = -1 \/ i <= indexOf_from i x l.
Proof.
  revert i. induction l as [|y l IH]; intros i; simpl; [by left|].
  destruct (decide (y = x)); [right; lia|].
  destruct (IH (i + 1)) as [->|H]; [by left | right; lia].
Qed.

Lemma indexOf_from_absent i x l : x ∉ l -> indexOf_from i x l = -1.
Proof.
  revert i. induction l as [|y l IH]; intros i Hx; simpl; [done|].
  apply not_elem_of_cons in Hx as [Hne Hx].
  rewrite decide_False by congruence. by apply IH.
Qed.

Lemma filter_ne_absent (x : string) (l : list string) :
  x ∉ l -> filter (fun y => y ≠ x) l = l.
Proof.
  induction l as [|y l IH]; intros Hx; [done|].
  apply not_elem_of_cons in Hx as [Hne Hx].
  rewrite filter_cons, decide_True by congruence. by rewrite IH.
Qed.

Lemma splice_indexOf_from i x l :
  0 <= i -> NoDup l ->
  (if -1 <? indexOf_from i x l
   then splice1 (Z.to_nat (indexOf_from i x l - i)) l else l)
  = filter (fun y => y ≠ x) l.
Proof.
  revert i. induction l as [|y l IH]; intros i Hi Hnd; simpl.
  - by destruct (-1 <? -1).
  - apply NoDup_cons in Hnd as [Hy Hnd]. rewrite filter_cons.
    destruct (decide (y = x)) as [->|Hne].
    + rewrite decide_False by (intros H; by apply H).
      replace (-1 <? i) with true by (symmetry; apply Z.ltb_lt; lia).
      replace (i - i) with 0 by lia. simpl. by rewrite filter_ne_absent.
    + rewrite decide_True by done.
      specialize (IH (i + 1) ltac:(lia) Hnd).
      destruct (indexOf_from_bounds (i + 1) x l) as [Hidx|Hidx].
      * rewrite Hidx in *. simpl in *. by f_equal.
      * replace (-1 <? indexOf_from (i + 1) x l) with true in *
          by (symmetry; apply Z.ltb_lt; lia).
        replace (Z.to_nat (indexOf_from (i + 1) x l - i))
          with (S (Z.to_nat (indexOf_from (i + 1) x l - (i + 1)))) by lia.
        unfold splice1 in *. by rewrite <- IH.
Qed.

Lemma World_eta w :
  mkWorld (pendingRequests w) (requestQueue w) (promises w) (timers w)
    (nextTimer w) (clock w) = w.
Proof. by destruct w. Qed.

Lemma removeFromQueue_NoDup x w :
  NoDup (requestQueue w) ->
  removeFromQueue x w
  = set_requestQueue (filter (fun y => y ≠ x) (requestQueue w)) w.
Proof.
  intros Hnd. unfold removeFromQueue, indexOf.
  pose proof (splice_indexOf_from 0 x (requestQueue w) ltac:(lia) Hnd) as H.
  rewrite Z.sub_0_r in H.
  destruct (-1 <? indexOf_from 0 x (requestQueue w)).
  - by rewrite H.
  - rewrite <- H. unfold set_requestQueue. by rewrite World_eta.
Qed.

Lemma removeFromQueue_absent x w : x ∉ requestQueue w -> removeFromQueue x w = w.
Proof.
  intros Hx. unfold removeFromQueue, indexOf.
  by rewrite indexOf_from_absent.
Qed.

Lemma removeFromQueue_frame x w :
  pendingRequests (removeFromQueue x w) = pendingRequests w /\
  promises (removeFromQueue x w) = promises w /\
  timers (removeFromQueue x w) = timers w /\
  nextTimer (removeFromQueue x w) = nextTimer w /\
  clock (removeFromQueue x w) = clock w.
Proof. unfold removeFromQueue. by destruct (-1 <? _). Qed.

Lemma findTimer_dropTimer_eq h ts : findTimer h (dropTimer h ts) = None.
Proof.
  induction ts as [|[h' t] ts IH]; simpl; [done|].
  destruct (decide (h' = h)); [done|]. simpl. by rewrite decide_False.
Qed.

Lemma findTimer_dropTimer_ne h h' ts :
  h ≠ h' -> findTimer h' (dropTimer h ts) = findTimer h' ts.
Proof.
  intros Hne. induction ts as [|[h0 t] ts IH]; simpl; [done|].
  destruct (decide (h0 = h)) as [->|Hne0].
  - by rewrite decide_False.
  - simpl. by rewrite IH.
Qed.

Lemma findTimer_dropTimer_Some h h' t ts :
  findTimer h' (dropTimer h ts) = Some t -> h ≠ h' /\ findTimer h' ts = Some t.
Proof.
  intros H. destruct (decide (h = h')) as [->|Hne].
  - by rewrite findTimer_dropTimer_eq in H.
  - by rewrite findTimer_dropTimer_ne in H.
Qed.

Lemma findTimer_app h ts ts' :
  findTimer h (ts ++ ts') =
    match findTimer h ts with Some t => Some t | None => findTimer h ts' end.
Proof.
  induction ts as [|[h0 t] ts IH]; simpl; [done|].
  by destruct (decide (h0 = h)).
Qed.

Lemma dropTimer_absent h ts : findTimer h ts = None -> dropTimer h ts = ts.
Proof.
  induction ts as [|[h0 t] ts IH]; simpl; [done|].
  destruct (decide (h0 = h)); [done|]. intros H. by rewrite IH.
Qed.

Lemma length_dropTimer h ts : (length (dropTimer h ts) <= length ts)%nat.
Proof.
  induction ts as [|[h0 t] ts IH]; simpl; [done|].
  destruct (decide (h0 = h)); simpl; lia.
Qed.

Lemma length_dropTimer_lt h t ts :
  findTimer h ts = Some t -> (length (dropTimer h ts) < length ts)%nat.
Proof.
  induction ts as [|[h0 t0] ts IH]; simpl; [done|].
  destruct (decide (h0 = h)).
  - intros _. pose proof (length_dropTimer h ts). lia.
  - intros H. simpl. apply IH in H. lia.
Qed.

Lemma dropTimer_filter h ts : dropTimer h ts = filter (fun e => e.1 ≠ h) ts.
Proof.
  induction ts as [|[h0 t] ts IH]; simpl; [done|].
  rewrite filter_cons. simpl. destruct (decide (h0 = h)) as [->|Hne].
  - by rewrite decide_False by (intros H; by apply H).
  - rewrite decide_True by done. by rewrite IH.
Qed.

Lemma NoDup_dropTimer h ts : NoDup (fst <$> ts) -> NoDup (fst <$> dropTimer h ts).
Proof.
  intros H. eapply sublist_NoDup; [exact H|].
  apply fmap_sublist. rewrite dropTimer_filter. apply sublist_filter.
Qed.

Lemma findTimer_elem h t ts : findTimer h ts = Some t -> (h, t) ∈ ts.
Proof.
  induction ts as [|[h0 t0] ts IH]; simpl; [done|].
  destruct (decide (h0 = h)) as [->|Hne].
  - intros [= ->]. apply list_elem_of_here.
  - intros H. apply list_elem_of_further, IH, H.
Qed.

Lemma elem_findTimer h t ts :
  NoDup (fst <$> ts) -> (h, t) ∈ ts -> findTimer h ts = Some t.
Proof.
  induction ts as [|[h0 t0] ts IH]; simpl; intros Hnd Hin.
  - by apply elem_of_nil in Hin.
  - apply NoDup_cons in Hnd as [Hnotin Hnd].
    apply elem_of_cons in Hin as [[= <- <-]|Hin].
    + by rewrite decide_True.
    + destruct (decide (h0 = h)) as [->|Hne]; [|by apply IH].
      exfalso. apply Hnotin. apply (list_elem_of_fmap_2 fst) in Hin. exact Hin.
Qed.

Lemma findTimer_None_handles h ts : findTimer h ts = None -> h ∉ fst <$> ts.
Proof.
  induction ts as [|[h0 t0] ts IH]; simpl; intros H.
  - apply not_elem_of_nil.
  - destruct (decide (h0 = h)) as [->|Hne]; [done|].
    apply not_elem_of_cons. split; [done | by apply IH].
Qed.

Lemma settle_lookup_eq p out store :
  store !! p = Some Pending -> settle p out store !! p = Some out.
Proof.
  intros H. unfold settle. rewrite H.
  apply list_lookup_insert_eq. by eapply lookup_lt_Some.
Qed.

Lemma settle_lookup_ne p p' out store :
  p ≠ p' -> settle p out store !! p' = store !! p'.
Proof.
  intros Hne. unfold settle.
  destruct (store !! p) as [[]|]; try done.
  by apply list_lookup_insert_ne.
Qed.

(** A settled promise stays as it is. *)
Lemma settle_settled p p' out st store :
  store !! p' = Some st -> st ≠ Pending -> settle p out store !! p' = Some st.
Proof.
  intros H Hst. destruct (decide (p = p')) as [->|Hne].
  - unfold settle. rewrite H. by destruct st.
  - by rewrite settle_lookup_ne.
Qed.

Lemma settle_not_pending p out store :
  store !! p ≠ Some Pending -> settle p out store = store.
Proof. unfold settle. intros H. by destruct (store !! p) as [[]|]. Qed.

(** ** Settling one entry *)

Lemma settleRequest_eq k r out w :
  NoDup (requestQueue w) ->
  settleRequest k r out w
  = mkWorld (JsMap.delete k (pendingRequests w))
      (filter (fun y => y ≠ k) (requestQueue w))
      (settle (settlement r) out (promises w))
      (dropTimer (timeoutId r) (timers w))
      (nextTimer w) (clock w).
Proof.
  intros Hnd. unfold settleRequest.
  rewrite (removeFromQueue_NoDup k (clearTimeout (timeoutId r) w)) by done.
  reflexivity.
Qed.

Lemma StronglySorted_sublist {A} (R : relation A) (l1 l2 : list A) :
  l1 `sublist_of` l2 -> StronglySorted R l2 -> StronglySorted R l1.
Proof.
  induction 1 as [|x l1 l2 Hsub IH|x l1 l2 Hsub IH]; intros Hs; [done| |].
  - apply StronglySorted_cons in Hs as [Hx Hs].
    apply StronglySorted_cons. split; [|by apply IH].
    rewrite Forall_forall in *. intros y Hy. apply Hx. by eapply elem_of_sublist.
  - apply StronglySorted_cons in Hs as [_ Hs]. by apply IH.
Qed.

Lemma wf_queue_NoDup w : wf w -> NoDup (requestQueue w).
Proof. intros Hwf. rewrite (wf_queue w Hwf). apply (wf_nodup w Hwf). Qed.

Lemma wf_timeoutId_inj w k1 k2 r1 r2 :
  wf w ->
  JsMap.get k1 (pendingRequests w) = Some r1 ->
  JsMap.get k2 (pendingRequests w) = Some r2 ->
  timeoutId r1 = timeoutId r2 -> k1 = k2.
Proof.
  intros Hwf H1 H2 Heq.
  destruct (wf_entry w Hwf _ _ H1) as (_ & _ & Ht1).
  destruct (wf_entry w Hwf _ _ H2) as (_ & _ & Ht2).
  rewrite Heq in Ht1. rewrite Ht1 in Ht2. by injection Ht2.
Qed.

Lemma wf_settleRequest k r out w :
  wf w -> JsMap.get k (pendingRequests w) = Some r ->
  wf (settleRequest k r out w).
Proof.
  intros Hwf Hk. rewrite settleRequest_eq by by apply wf_queue_NoDup.
  assert (Hget : forall k' r', JsMap.get k' (JsMap.delete k (pendingRequests w)) = Some r' ->
            k ≠ k' /\ JsMap.get k' (pendingRequests w) = Some r').
  { intros k' r' H. destruct (decide (k = k')) as [->|Hne].
    - by rewrite get_delete_eq in H.
    - by rewrite get_delete_ne in H. }
  constructor; simpl.
  - apply NoDup_keys_delete, (wf_nodup w Hwf).
  - by rewrite keys_delete, (wf_queue w Hwf).
  - intros k' r' H. apply Hget in H as [Hne H].
    destruct (wf_entry w Hwf _ _ H) as (Hid & Hp & Ht). split_and!; [done| |].
    + rewrite settle_lookup_ne; [done|].
      intros Heq. apply Hne. by eapply (wf_promise w Hwf).
    + rewrite findTimer_dropTimer_ne; [done|].
      intros Heq. apply Hne. by eapply (wf_timeoutId_inj w).
  - intros k1 k2 r1 r2 H1 H2. apply Hget in H1 as [_ H1]. apply Hget in H2 as [_ H2].
    by eapply (wf_promise w Hwf).
  - intros h t H. apply findTimer_dropTimer_Some in H as [Hne H].
    destruct (wf_timer w Hwf _ _ H) as (Hlt & r' & Hr' & Hh). split; [done|].
    exists r'. split; [|done]. rewrite get_delete_ne; [done|].
    intros Heq. apply Hne. congruence.
  - eapply StronglySorted_sublist; [|apply (wf_sorted w Hwf)].
    apply fmap_sublist. rewrite delete_filter. apply sublist_filter.
  - apply NoDup_dropTimer, (wf_handles w Hwf).
Qed.

Lemma resolveRequest_live k r v w :
  JsMap.get k (pendingRequests w) = Some r ->
  resolveRequest k v w = (true, settleRequest k r (Fulfilled v) w).
Proof. intros H. unfold resolveRequest. by rewrite H. Qed.

Lemma rejectRequest_live k r e w :
  JsMap.get k (pendingRequests w) = Some r ->
  rejectRequest k e w = (true, settleRequest k r (Rejected e) w).
Proof. intros H. unfold rejectRequest. by rewrite H. Qed.

Lemma resolveRequest_gone k v w :
  JsMap.get k (pendingRequests w) = None -> resolveRequest k v w = (false, w).
Proof. intros H. unfold resolveRequest. by rewrite H. Qed.

Lemma rejectRequest_gone k e w :
  JsMap.get k (pendingRequests w) = None -> rejectRequest k e w = (false, w).
Proof. intros H. unfold rejectRequest. by rewrite H. Qed.

Lemma wf_resolveRequest k v w : wf w -> wf (resolveRequest k v w).2.
Proof.
  intros Hwf. unfold resolveRequest.
  destruct (JsMap.get k (pendingRequests w)) eqn:H; [|done].
  by apply wf_settleRequest.
Qed.

Lemma wf_rejectRequest k e w : wf w -> wf (rejectRequest k e w).2.
Proof.
  intros Hwf. unfold rejectRequest.
  destruct (JsMap.get k (pendingRequests w)) eqn:H; [|done].
  by apply wf_settleRequest.
Qed.

(** The timer of a live entry does what [settleRequest] does with the
    timeout error; the guard of the callback holds. *)
Lemma fireTimer_settleRequest h t w :
  wf w -> findTimer h (timers w) = Some t ->
  exists r,
    JsMap.get (timer_requestId t) (pendingRequests w) = Some r /\
    timeoutId r = h /\ due t = timestamp r + requestTimeout /\
    timer_reject t = settlement r /\
    fireTimer h w = settleRequest (timer_requestId t) r timeoutError w.
Proof.
  intros Hwf Ht. destruct (wf_timer w Hwf _ _ Ht) as (_ & r & Hr & Hh).
  destruct (wf_entry w Hwf _ _ Hr) as (_ & _ & Ht'). rewrite Hh, Ht in Ht'.
  assert (Hp : timer_reject t = settlement r) by (injection Ht' as ->; done).
  assert (Hd : due t = timestamp r + requestTimeout) by (injection Ht' as ->; done).
  exists r. split_and!; try done.
  unfold fireTimer. rewrite Ht. unfold timeoutHandler. simpl.
  unfold JsMap.has. rewrite Hr. unfold settleRequest. by rewrite Hh, Hp.
Qed.

Lemma timeoutHandler_gone k p w :
  JsMap.get k (pendingRequests w) = None -> timeoutHandler k p w = w.
Proof. intros H. unfold timeoutHandler, JsMap.has. by rewrite H. Qed.

Lemma fireTimer_unarmed h w : findTimer h (timers w) = None -> fireTimer h w = w.
Proof. intros H. unfold fireTimer. by rewrite H. Qed.

Lemma wf_fireTimer h w : wf w -> wf (fireTimer h w).
Proof.
  intros Hwf. destruct (findTimer h (timers w)) as [t|] eqn:Ht.
  - destruct (fireTimer_settleRequest h t w Hwf Ht) as (r & Hr & _ & _ & _ & ->).
    by apply wf_settleRequest.
  - by rewrite fireTimer_unarmed.
Qed.

(** ** Registering a request *)

Lemma wf_sendRequest k ep d w :
  wf w -> JsMap.get k (pendingRequests w) = None ->
  wf (sendRequest k ep d w).2.
Proof.
  intros Hwf Hk. unfold sendRequest. simpl. rewrite set_fresh by done.
  set (r := mkPendingRequest k ep d (clock w) (length (promises w)) (nextTimer w)).
  assert (Hget : forall k' r', JsMap.get k' (pendingRequests w ++ [(k, r)]) = Some r' ->
            JsMap.get k' (pendingRequests w) = Some r' \/
            (JsMap.get k' (pendingRequests w) = None /\ k' = k /\ r' = r)).
  { intros k' r'. rewrite get_app. destruct (JsMap.get k' (pendingRequests w)); [by left|].
    simpl. destruct (decide (k = k')) as [->|]; [|done]. intros [= <-]. by right. }
  assert (Hfresh : findTimer (nextTimer w) (timers w) = None).
  { destruct (findTimer (nextTimer w) (timers w)) as [t|] eqn:Ht; [|done].
    apply (wf_timer w Hwf) in Ht as [Hlt _]. lia. }
  constructor; simpl.
  - unfold JsMap.keys. rewrite fmap_app. simpl. apply NoDup_app. split_and!.
    + apply (wf_nodup w Hwf).
    + intros x Hx Hx'. apply list_elem_of_singleton in Hx' as ->.
      by apply get_None_keys in Hk.
    + apply NoDup_singleton.
  - rewrite (wf_queue w Hwf). unfold JsMap.keys. by rewrite fmap_app.
  - intros k' r' H. apply Hget in H as [H|(Hnone & -> & ->)].
    + destruct (wf_entry w Hwf _ _ H) as (Hid & Hp & Ht). split_and!; [done| |].
      * by rewrite lookup_app_l by by eapply lookup_lt_Some.
      * by rewrite findTimer_app, Ht.
    + split_and!; [done| |].
      * simpl. by rewrite lookup_app_r, Nat.sub_diag by done.
      * simpl. rewrite findTimer_app, Hfresh. simpl. by rewrite decide_True.
  - intros k1 k2 r1 r2 H1 H2 Heq.
    apply Hget in H1 as [H1|(_ & -> & ->)]; apply Hget in H2 as [H2|(_ & -> & ->)].
    + by eapply (wf_promise w Hwf).
    + destruct (wf_entry w Hwf _ _ H1) as (_ & Hp & _).
      apply lookup_lt_Some in Hp. simpl in Heq. lia.
    + destruct (wf_entry w Hwf _ _ H2) as (_ & Hp & _).
      apply lookup_lt_Some in Hp. simpl in Heq. lia.
    + done.
  - intros h t. rewrite findTimer_app.
    destruct (findTimer h (timers w)) as [t'|] eqn:Ht.
    + intros [= <-]. destruct (wf_timer w Hwf _ _ Ht) as (Hlt & r' & Hr' & Hh).
      split; [lia|]. exists r'. split; [|done]. by rewrite get_app, Hr'.
    + simpl. destruct (decide (nextTimer w = h)) as [<-|]; [|done].
      intros [= <-]. simpl. split; [lia|]. exists r. split; [|done].
      rewrite get_app, Hk. simpl. by rewrite decide_True.
  - rewrite fmap_app. apply StronglySorted_app_2.
    + intros h1 h2 Hh1 Hh2. apply list_elem_of_singleton in Hh2 as ->. simpl.
      apply list_elem_of_fmap in Hh1 as ([k1 r1] & -> & Hin).
      apply (elem_get _ _ _ (wf_nodup w Hwf)) in Hin.
      destruct (wf_entry w Hwf _ _ Hin) as (_ & _ & Ht).
      by apply (wf_timer w Hwf) in Ht as [Hlt _].
    + apply (wf_sorted w Hwf).
    + repeat constructor.
  - rewrite fmap_app. apply NoDup_app. split_and!.
    + apply (wf_handles w Hwf).
    + intros h Hh Hh'. apply list_elem_of_singleton in Hh'. simpl in Hh'. subst h.
      by apply findTimer_None_handles in Hfresh.
    + apply NoDup_singleton.
Qed.

Lemma wf_newBridge now : wf (newBridge now).
Proof.
  constructor; simpl; try done.
  - apply NoDup_nil_2.
  - constructor.
  - apply NoDup_nil_2.
Qed.

(** ** Reading the queue *)

Lemma getPendingRequest_loop_head m k r rest :
  JsMap.get k m = Some r ->
  getPendingRequest_loop m (k :: rest) = (Some (viewOf r), k :: rest).
Proof. intros H. simpl. by rewrite H. Qed.

Lemma set_requestQueue_id w : set_requestQueue (requestQueue w) w = w.
Proof. apply World_eta. Qed.

(** With the invariant the head of the queue is the first entry of the map,
    and the queue is left alone. *)
Lemma getPendingRequest_wf w :
  wf w ->
  getPendingRequest w = (viewOf <$> head (snd <$> pendingRequests w), w).
Proof.
  intros Hwf. unfold getPendingRequest.
  pose proof (wf_queue w Hwf) as Hq.
  destruct (pendingRequests w) as [|[k r] m] eqn:Hm.
  - simpl in Hq. rewrite Hq. simpl. rewrite <- Hq. by rewrite set_requestQueue_id.
  - simpl in Hq. rewrite Hq. simpl. rewrite decide_True by done.
    rewrite <- Hq. by rewrite set_requestQueue_id.
Qed.

(** What the first loop of [getPendingRequests] collects: it walks the
    queue, skips the ids the map no longer has, and stops at [maxCount]. *)
Lemma getPendingRequests_scan_results m maxCount i rest results toRemove :
  (getPendingRequests_scan m maxCount i rest results toRemove).1
  = results ++
    take (Z.to_nat maxCount - length results)%nat
      (omap (fun k => viewOf <$> JsMap.get k m) rest).
Proof.
  revert i results toRemove.
  induction rest as [|k rest IH]; intros i results toRemove; simpl.
  - by rewrite take_nil, app_nil_r.
  - destruct (Z.of_nat (length results) <? maxCount) eqn:Hlt.
    + apply Z.ltb_lt in Hlt.
      destruct (JsMap.get k m) as [r|] eqn:Hk; simpl.
      * rewrite IH, length_app. simpl. rewrite <- app_assoc. simpl.
        replace (Z.to_nat maxCount - length results)%nat
          with (S (Z.to_nat maxCount - (length results + 1)))%nat by lia.
        done.
      * by rewrite IH.
    + apply Z.ltb_ge in Hlt. simpl.
      replace (Z.to_nat maxCount - length results)%nat with 0%nat by lia.
      by rewrite take_0, app_nil_r.
Qed.

Lemma getPendingRequests_scan_live m maxCount i rest results toRemove :
  (forall k, k ∈ rest -> is_Some (JsMap.get k m)) ->
  (getPendingRequests_scan m maxCount i rest results toRemove).2 = toRemove.
Proof.
  revert i results toRemove.
  induction rest as [|k rest IH]; intros i results toRemove Hlive; simpl; [done|].
  destruct (Z.of_nat (length results) <? maxCount); [|done].
  destruct (Hlive k) as [r Hr]; [apply list_elem_of_here|]. rewrite Hr.
  apply IH. intros k' Hk'. apply Hlive. by apply list_elem_of_further.
Qed.

Lemma omap_get_keys {V W} (f : V -> W) (m : list (string * V)) :
  NoDup (JsMap.keys m) ->
  omap (fun k => f <$> JsMap.get k m) (JsMap.keys m) = (fun e => f e.2) <$> m.
Proof.
  intros Hnd.
  assert (H : forall l, (forall e, e ∈ l -> e ∈ m) ->
            omap (fun k => f <$> JsMap.get k m) (JsMap.keys l) = (fun e => f e.2) <$> l).
  { induction l as [|[k v] l IH]; intros Hsub; [done|].
    simpl. rewrite (elem_get k v m Hnd) by (apply Hsub, list_elem_of_here).
    simpl. f_equal. apply IH. intros e He. by apply Hsub, list_elem_of_further. }
  by apply H.
Qed.

Lemma getPendingRequests_wf maxCount w :
  wf w ->
  getPendingRequests maxCount w
  = (take (Z.to_nat maxCount) ((fun e => viewOf e.2) <$> pendingRequests w), w) /\
  (getPendingRequests_scan (pendingRequests w) maxCount 0%nat (requestQueue w) [] []).2 = [].
Proof.
  intros Hwf.
  assert (Hlive : forall k, k ∈ requestQueue w -> is_Some (JsMap.get k (pendingRequests w))).
  { intros k Hk. rewrite (wf_queue w Hwf) in Hk.
    destruct (JsMap.get k (pendingRequests w)) eqn:H; [by eexists|].
    by apply get_None_keys in H. }
  pose proof (getPendingRequests_scan_live (pendingRequests w) maxCount 0%nat
                (requestQueue w) [] [] Hlive) as Hrm.
  pose proof (getPendingRequests_scan_results (pendingRequests w) maxCount 0%nat
                (requestQueue w) [] []) as Hres.
  split; [|done]. unfold getPendingRequests.
  destruct (getPendingRequests_scan _ _ _ _ _ _) as [results toRemove].
  simpl in *. subst toRemove. rewrite Hres. unfold spliceMarked. simpl.
  rewrite set_requestQueue_id, Nat.sub_0_r.
  by rewrite (wf_queue w Hwf), (omap_get_keys viewOf) by apply (wf_nodup w Hwf).
Qed.

(** ** What settling leaves behind *)

Lemma settleRequest_fields k r out w :
  pendingRequests (settleRequest k r out w) = JsMap.delete k (pendingRequests w) /\
  promises (settleRequest k r out w) = settle (settlement r) out (promises w) /\
  timers (settleRequest k r out w) = dropTimer (timeoutId r) (timers w) /\
  nextTimer (settleRequest k r out w) = nextTimer w /\
  clock (settleRequest k r out w) = clock w.
Proof.
  unfold settleRequest. simpl.
  destruct (removeFromQueue_frame k (clearTimeout (timeoutId r) w))
    as (-> & -> & -> & -> & ->).
  done.
Qed.

Lemma get_delete_Some {V} k k' (v : V) m :
  JsMap.get k' (JsMap.delete k m) = Some v -> k ≠ k' /\ JsMap.get k' m = Some v.
Proof.
  intros H. destruct (decide (k = k')) as [->|Hne].
  - by rewrite get_delete_eq in H.
  - by rewrite get_delete_ne in H.
Qed.

Lemma shrinks_refl w : shrinks w w.
Proof. by split_and!. Qed.

Lemma shrinks_trans w1 w2 w3 : shrinks w1 w2 -> shrinks w2 w3 -> shrinks w1 w3.
Proof.
  intros (Hm1 & Hp1 & Ht1 & Hs1) (Hm2 & Hp2 & Ht2 & Hs2). split_and!.
  - intros k r H. by apply Hm1, Hm2.
  - intros p st H Hst. by apply Hp2; [apply Hp1|].
  - intros h t H. by apply Ht1, Ht2.
  - by etrans.
Qed.

Lemma shrinks_settleRequest k r out w : shrinks w (settleRequest k r out w).
Proof.
  destruct (settleRequest_fields k r out w) as (Hm & Hp & Ht & _).
  split_and!.
  - intros k' r'. rewrite Hm. intros H. by apply get_delete_Some in H as [_ H].
  - intros p st H Hst. rewrite Hp. by apply settle_settled.
  - intros h t. rewrite Ht. intros H. by apply findTimer_dropTimer_Some in H as [_ H].
  - rewrite Hm, delete_filter. apply sublist_filter.
Qed.

Lemma shrinks_resolveRequest k v w : shrinks w (resolveRequest k v w).2.
Proof.
  unfold resolveRequest. destruct (JsMap.get k (pendingRequests w)); simpl.
  - apply shrinks_settleRequest.
  - apply shrinks_refl.
Qed.

Lemma shrinks_rejectRequest k e w : shrinks w (rejectRequest k e w).2.
Proof.
  unfold rejectRequest. destruct (JsMap.get k (pendingRequests w)); simpl.
  - apply shrinks_settleRequest.
  - apply shrinks_refl.
Qed.

Lemma shrinks_removeFromQueue k w : shrinks w (removeFromQueue k w).
Proof.
  destruct (removeFromQueue_frame k w) as (Hm & Hp & Ht & _).
  unfold shrinks. rewrite Hm, Hp, Ht. by split_and!.
Qed.

Lemma shrinks_timeoutHandler k p w : shrinks w (timeoutHandler k p w).
Proof.
  unfold timeoutHandler. destruct (JsMap.has k (pendingRequests w)); [|apply shrinks_refl].
  destruct (removeFromQueue_frame k w) as (Hm & Hp & Ht & _).
  split_and!; simpl.
  - intros k' r'. rewrite Hm. intros H. by apply get_delete_Some in H as [_ H].
  - intros p' st H Hst. rewrite Hp. by apply settle_settled.
  - intros h t. by rewrite Ht.
  - rewrite Hm, delete_filter. apply sublist_filter.
Qed.

Lemma shrinks_fireTimer h w : shrinks w (fireTimer h w).
Proof.
  unfold fireTimer. destruct (findTimer h (timers w)); [|apply shrinks_refl].
  eapply shrinks_trans; [|apply shrinks_timeoutHandler].
  split_and!; simpl; try done.
  intros h' t' H. by apply findTimer_dropTimer_Some in H as [_ H].
Qed.

Lemma shrinks_set_requestQueue q w : shrinks w (set_requestQueue q w).
Proof. by split_and!. Qed.

Lemma shrinks_getPendingRequest w : shrinks w (getPendingRequest w).2.
Proof.
  unfold getPendingRequest. destruct (getPendingRequest_loop _ _).
  apply shrinks_set_requestQueue.
Qed.

Lemma shrinks_getPendingRequests n w : shrinks w (getPendingRequests n w).2.
Proof.
  unfold getPendingRequests. destruct (getPendingRequests_scan _ _ _ _ _ _).
  apply shrinks_set_requestQueue.
Qed.

Lemma shrinks_advance dt w : shrinks w (advance dt w).
Proof. by split_and!. Qed.

Lemma shrinks_set_clock t w : shrinks w (set_clock t w).
Proof. by split_and!. Qed.

Lemma shrinks_fold {A} (f : World -> A -> World) (l : list A) w :
  (forall w a, shrinks w (f w a)) -> shrinks w (fold_left f l w).
Proof.
  intros Hf. revert w. induction l as [|a l IH]; intros w; simpl.
  - apply shrinks_refl.
  - eapply shrinks_trans; [apply Hf | apply IH].
Qed.

Lemma shrinks_cleanupOne now w e : shrinks w (cleanupOne now w e).
Proof.
  destruct e as [k r]. simpl. destruct (requestTimeout <? now - timestamp r).
  - apply shrinks_settleRequest.
  - apply shrinks_refl.
Qed.

Lemma shrinks_cleanupOldRequests w : shrinks w (cleanupOldRequests w).
Proof. apply shrinks_fold, shrinks_cleanupOne. Qed.

Lemma shrinks_clearOne w e : shrinks w (clearOne w e).
Proof.
  destruct e as [k r]. split_and!; simpl; try done.
  - intros p st H Hst. by apply settle_settled.
  - intros h t H. by apply findTimer_dropTimer_Some in H as [_ H].
Qed.

Lemma shrinks_clearAllPendingRequests w : shrinks w (clearAllPendingRequests w).
Proof.
  unfold clearAllPendingRequests.
  eapply shrinks_trans; [apply (shrinks_fold clearOne), shrinks_clearOne|].
  split_and!; simpl; try done. apply sublist_nil_l.
Qed.

Lemma shrinks_resolveOne acc resp : shrinks acc.2 (resolveOne acc resp).2.
Proof.
  destruct acc as [t w]. unfold resolveOne.
  destruct (truthy (optStr (resp_error resp))).
  - pose proof (shrinks_rejectRequest (resp_requestId resp) (optStr (resp_error resp)) w).
    destruct (rejectRequest _ _ w) as [[] w']; done.
  - pose proof (shrinks_resolveRequest (resp_requestId resp) (resp_response resp) w).
    destruct (resolveRequest _ _ w) as [[] w']; done.
Qed.

Lemma shrinks_resolveRequests_acc responses acc :
  shrinks acc.2 (fold_left resolveOne responses acc).2.
Proof.
  revert acc. induction responses as [|resp rest IH]; intros acc; simpl.
  - apply shrinks_refl.
  - eapply shrinks_trans; [apply shrinks_resolveOne | apply IH].
Qed.

Lemma shrinks_resolveRequests responses w : shrinks w (resolveRequests responses w).2.
Proof. apply (shrinks_resolveRequests_acc responses (mkTally 0 0, w)). Qed.

(** Every operation but [sendRequest] only takes away. *)
Lemma shrinks_exec op w :
  (forall k, ¬ issues k op) -> shrinks w (exec op w).
Proof.
  intros Hop. destruct op as [rid ? ?| | | | | | | | |]; simpl.
  - by destruct (Hop rid).
  - apply shrinks_getPendingRequest.
  - apply shrinks_getPendingRequests.
  - apply shrinks_resolveRequest.
  - apply shrinks_rejectRequest.
  - apply shrinks_resolveRequests.
  - apply shrinks_fireTimer.
  - apply shrinks_cleanupOldRequests.
  - apply shrinks_clearAllPendingRequests.
  - apply shrinks_advance.
Qed.

(** ** The invariant holds in every reachable state *)

Lemma wf_set_clock t w : wf w -> wf (set_clock t w).
Proof. intros [H1 H2 H3 H4 H5 H6 H7]. by constructor. Qed.

Lemma wf_advance dt w : wf w -> wf (advance dt w).
Proof. intros [H1 H2 H3 H4 H5 H6 H7]. by constructor. Qed.

Lemma wf_getPendingRequest w : wf w -> wf (getPendingRequest w).2.
Proof. intros Hwf. by rewrite getPendingRequest_wf. Qed.

Lemma wf_getPendingRequests n w : wf w -> wf (getPendingRequests n w).2.
Proof. intros Hwf. by rewrite (proj1 (getPendingRequests_wf n w Hwf)). Qed.

Lemma wf_cleanup_fold now es w :
  wf w -> NoDup (JsMap.keys es) ->
  (forall k r, (k, r) ∈ es -> JsMap.get k (pendingRequests w) = Some r) ->
  wf (fold_left (cleanupOne now) es w).
Proof.
  revert w. induction es as [|[k r] es IH]; intros w Hwf Hnd Hes; simpl; [done|].
  apply NoDup_cons in Hnd as [Hk Hnd].
  assert (Hkr : JsMap.get k (pendingRequests w) = Some r)
    by apply Hes, list_elem_of_here.
  apply IH; [|done|].
  - destruct (requestTimeout <? now - timestamp r); [|done].
    by apply wf_settleRequest.
  - intros k' r' Hin.
    assert (Hne : k ≠ k').
    { intros ->. apply Hk. by apply (list_elem_of_fmap_2 fst) in Hin. }
    specialize (Hes k' r' (list_elem_of_further _ _ _ Hin)).
    destruct (requestTimeout <? now - timestamp r); [|done].
    destruct (settleRequest_fields k r (Rejected (JErr "Request timeout")) w) as (-> & _).
    by rewrite get_delete_ne.
Qed.

Lemma wf_cleanupOldRequests w : wf w -> wf (cleanupOldRequests w).
Proof.
  intros Hwf. apply wf_cleanup_fold; [done|apply (wf_nodup w Hwf)|].
  intros k r. apply elem_get, (wf_nodup w Hwf).
Qed.

(** [clearAllPendingRequests] cancels the timer of every entry it visits. *)
Lemma clear_fold_timers es w h :
  findTimer h (timers (fold_left clearOne es w)) =
    if decide (h ∈ (fun e => timeoutId e.2) <$> es) then None
    else findTimer h (timers w).
Proof.
  revert w. induction es as [|[k r] es IH]; intros w; simpl; [done|].
  rewrite IH. simpl.
  destruct (decide (h ∈ _ <$> es)) as [Hin|Hnotin].
  - rewrite decide_True; [done|]. by apply list_elem_of_further.
  - destruct (decide (timeoutId r = h)) as [<-|Hne].
    + rewrite decide_True by apply list_elem_of_here. apply findTimer_dropTimer_eq.
    + rewrite decide_False.
      * by apply findTimer_dropTimer_ne.
      * intros Hin. apply elem_of_cons in Hin as [?|?]; [congruence | done].
Qed.

Lemma clear_fold_frame es w :
  pendingRequests (fold_left clearOne es w) = pendingRequests w /\
  requestQueue (fold_left clearOne es w) = requestQueue w /\
  nextTimer (fold_left clearOne es w) = nextTimer w /\
  clock (fold_left clearOne es w) = clock w.
Proof.
  revert w. induction es as [|e es IH]; intros w; [done|].
  change (fold_left clearOne (e :: es) w) with (fold_left clearOne es (clearOne w e)).
  destruct (IH (clearOne w e)) as (-> & -> & -> & ->). by destruct e.
Qed.

Lemma clear_fold_timers_sublist es w :
  timers (fold_left clearOne es w) `sublist_of` timers w.
Proof.
  revert w. induction es as [|[k r] es IH]; intros w; [done|].
  etrans; [apply IH|]. simpl. rewrite dropTimer_filter. apply sublist_filter.
Qed.

Lemma wf_clearAllPendingRequests w : wf w -> wf (clearAllPendingRequests w).
Proof.
  intros Hwf. unfold clearAllPendingRequests. constructor; simpl; try done.
  - apply NoDup_nil_2.
  - intros h t. rewrite clear_fold_timers. case_decide as Hin; [done|].
    intros Ht. exfalso. apply Hin.
    destruct (wf_timer w Hwf _ _ Ht) as (_ & r & Hr & <-).
    apply get_Some_elem in Hr.
    by apply (list_elem_of_fmap_2 (fun e => timeoutId e.2)) in Hr.
  - constructor.
  - eapply sublist_NoDup; [apply (wf_handles w Hwf)|].
    apply fmap_sublist, clear_fold_timers_sublist.
Qed.

Lemma wf_resolveOne acc resp : wf acc.2 -> wf (resolveOne acc resp).2.
Proof.
  destruct acc as [t w]. simpl. intros Hwf. unfold resolveOne.
  destruct (truthy (optStr (resp_error resp))).
  - pose proof (wf_rejectRequest (resp_requestId resp) (optStr (resp_error resp)) w Hwf).
    destruct (rejectRequest _ _ w) as [[] w']; done.
  - pose proof (wf_resolveRequest (resp_requestId resp) (resp_response resp) w Hwf).
    destruct (resolveRequest _ _ w) as [[] w']; done.
Qed.

Lemma wf_resolveRequests_acc responses acc :
  wf acc.2 -> wf (fold_left resolveOne responses acc).2.
Proof.
  revert acc. induction responses as [|resp rest IH]; intros acc Hwf; simpl; [done|].
  by apply IH, wf_resolveOne.
Qed.

Lemma wf_resolveRequests responses w : wf w -> wf (resolveRequests responses w).2.
Proof. intros Hwf. by apply (wf_resolveRequests_acc responses (mkTally 0 0, w)). Qed.

Lemma wf_exec op w : wf w -> enabled op w -> wf (exec op w).
Proof.
  intros Hwf Hen. destruct op; simpl in *.
  - apply wf_sendRequest; [done|]. by apply has_false_get.
  - by apply wf_getPendingRequest.
  - by apply wf_getPendingRequests.
  - by apply wf_resolveRequest.
  - by apply wf_rejectRequest.
  - by apply wf_resolveRequests.
  - by apply wf_fireTimer.
  - by apply wf_cleanupOldRequests.
  - by apply wf_clearAllPendingRequests.
  - by apply wf_advance.
Qed.

Lemma reachable_wf w : reachable w -> wf w.
Proof.
  induction 1 as [now|op w Hreach IH Hen].
  - apply wf_newBridge.
  - by apply wf_exec.
Qed.

(** ** Requests registered one after the other *)

Lemma wf_exec_shrinking op w :
  wf w -> (forall k, ¬ issues k op) -> wf (exec op w).
Proof.
  intros Hwf Hop. destruct op as [rid ? ?| | | | | | | | |].
  - by destruct (Hop rid).
  - by apply wf_exec.
  - by apply wf_exec.
  - by apply wf_exec.
  - by apply wf_exec.
  - by apply wf_exec.
  - by apply wf_fireTimer.
  - by apply wf_exec.
  - by apply wf_exec.
  - by apply wf_advance.
Qed.

Lemma execAll_shrinking ops w :
  wf w -> Forall (fun op => forall k, ¬ issues k op) ops ->
  wf (execAll ops w) /\ shrinks w (execAll ops w).
Proof.
  revert w. induction ops as [|op ops IH]; intros w Hwf Hops; simpl.
  - split; [done | apply shrinks_refl].
  - apply Forall_cons in Hops as [Hop Hops].
    destruct (IH (exec op w)) as [Hwf' Hsh]; [by apply wf_exec_shrinking | done |].
    split; [done|]. eapply shrinks_trans; [by apply shrinks_exec | done].
Qed.


Lemma filter_ext_elem {A} (P1 P2 : A -> Prop)
    `{!forall x, Decision (P1 x), !forall x, Decision (P2 x)} (l : list A) :
  (forall x, x ∈ l -> P1 x <-> P2 x) -> filter P1 l = filter P2 l.
Proof.
  induction l as [|a l IH]; intros Hext; [done|].
  rewrite !filter_cons.
  rewrite IH by (intros x Hx; by apply Hext, list_elem_of_further).
  destruct (decide (P1 a)) as [Ha|Ha].
  - by rewrite decide_True by (by apply Hext; [apply list_elem_of_here|]).
  - rewrite decide_False; [done|].
    intros Ha'. by apply Ha, Hext; [apply list_elem_of_here|].
Qed.

(** A sublist of a list without duplicates is cut out by membership. *)
Lemma sublist_NoDup_filter {A} (f : A -> string) (l1 l2 : list A) :
  l1 `sublist_of` l2 -> NoDup (f <$> l2) ->
  l1 = filter (fun x => f x ∈ f <$> l1) l2.
Proof.
  induction 1 as [|x l1 l2 Hsub IH|x l1 l2 Hsub IH]; intros Hnd; [done| |].
  - rewrite fmap_cons in Hnd. apply NoDup_cons in Hnd as [Hx Hnd].
    rewrite filter_cons, decide_True by (rewrite fmap_cons; apply list_elem_of_here).
    f_equal. rewrite (IH Hnd) at 1. apply filter_ext_elem.
    intros y Hy. rewrite fmap_cons, elem_of_cons. split; [by right|].
    intros [Heq|?]; [|done]. exfalso. apply Hx. rewrite <- Heq.
    by apply list_elem_of_fmap_2.
  - rewrite fmap_cons in Hnd. apply NoDup_cons in Hnd as [Hx Hnd].
    rewrite filter_cons, decide_False; [by apply IH|].
    intros Hin. apply Hx. eapply elem_of_sublist; [exact Hin|].
    by apply fmap_sublist.
Qed.

Lemma filter_all {A} (P : A -> Prop) `{!forall x, Decision (P x)} (l : list A) :
  (forall x, x ∈ l -> P x) -> filter P l = l.
Proof.
  induction l as [|x l IH]; intros Hall; [done|].
  rewrite filter_cons_True by apply Hall, list_elem_of_here.
  f_equal. apply IH. intros y Hy. by apply Hall, list_elem_of_further.
Qed.

Lemma keys_elem_get {V} k (m : list (string * V)) :
  k ∈ JsMap.keys m <-> is_Some (JsMap.get k m).
Proof.
  destruct (JsMap.get k m) as [v|] eqn:Hg.
  - split; [by eexists|]. intros _.
    apply get_Some_elem in Hg. by apply (list_elem_of_fmap_2 fst) in Hg.
  - split; [|by intros []]. intros Hin. by apply get_None_keys in Hg.
Qed.








(** ** The queue and the map *)

Lemma wf_queue_live w k :
  wf w -> k ∈ requestQueue w <-> hasPendingRequest k w = true.
Proof.
  intros Hwf. rewrite (wf_queue w Hwf). unfold hasPendingRequest.
  rewrite has_get. destruct (JsMap.get k (pendingRequests w)) as [r|] eqn:Hg.
  - split; [by eexists|]. intros _.
    apply get_Some_elem in Hg. by apply (list_elem_of_fmap_2 fst) in Hg.
  - split; [|by intros []]. intros Hin. by apply get_None_keys in Hg.
Qed.

Lemma reachable_execAll ops w :
  reachable w -> enabledAll ops w -> reachable (execAll ops w).
Proof.
  revert w. induction ops as [|op ops IH]; intros w Hreach Hen; simpl; [done|].
  destruct Hen as [Hop Hen]. apply IH; [|done]. by apply reachable_exec.
Qed.

(** C10: the FIFO queue mirrors the live map.  In every state the bridge
    can reach by its operations ([sendRequest] with an id that is not
    pending, [getPendingRequest], [getPendingRequests], [resolveRequest],
    [rejectRequest], [resolveRequests], the callback of a request's timer,
    [cleanupOldRequests], [clearAllPendingRequests]) the queue is the list of
    the keys of the map, each once, in the order in which the requests were
    registered; no id in the queue is stale; [getPendingCount()] is the
    length of the queue; [getPendingRequest] and [getPendingRequests] leave
    the queue as it is and mark nothing for removal. *)
Theorem requestQueue_mirrors_pendingRequests w :
  reachable w ->
  requestQueue w = JsMap.keys (pendingRequests w) /\
  NoDup (requestQueue w) /\
  StronglySorted lt ((fun e => timeoutId e.2) <$> pendingRequests w) /\
  (forall k, k ∈ requestQueue w <-> hasPendingRequest k w = true) /\
  getPendingCount w = length (requestQueue w) /\
  getPendingRequest w = (viewOf <$> head (snd <$> pendingRequests w), w) /\
  (forall maxCount,
     (getPendingRequests_scan (pendingRequests w) maxCount 0%nat
        (requestQueue w) [] []).2 = [] /\
     (getPendingRequests maxCount w).2 = w).
Proof.
  intros Hreach. pose proof (reachable_wf w Hreach) as Hwf. split_and!.
  - apply (wf_queue w Hwf).
  - by apply wf_queue_NoDup.
  - apply (wf_sorted w Hwf).
  - intros k. by apply wf_queue_live.
  - unfold getPendingCount, JsMap.size.
    rewrite (wf_queue w Hwf). unfold JsMap.keys. by rewrite length_fmap.
  - by apply getPendingRequest_wf.
  - intros maxCount. destruct (getPendingRequests_wf maxCount w Hwf) as [H1 H2].
    split; [done|]. by rewrite H1.
Qed.

Lemma requestQueue_mirrors_pendingRequests_witness :
  let w := execAll [OpSendRequest "a" "/api/x" JNull;
                    OpSendRequest "b" "/api/y" JNull;
                    OpAdvance 30000;
                    OpTimeout 0%nat;
                    OpSendRequest "c" "/api/z" JNull;
                    OpCleanupOldRequests] (newBridge 0) in
  reachable w /\ requestQueue w = ["b"; "c"] /\
  requestQueue w = JsMap.keys (pendingRequests w).
Proof.
  intros w.
  assert (Hreach : reachable w).
  { apply reachable_execAll; [apply reachable_new|].
    simpl. split_and!; try done.
    eexists. split; [reflexivity|]. vm_compute. discriminate. }
  split_and!; [exact Hreach | reflexivity |].
  exact (proj1 (requestQueue_mirrors_pendingRequests w Hreach)).
Defined.

(** ** Settlement happens once *)

Lemma get_set_ne {V} k k' (v : V) m :
  k ≠ k' -> JsMap.get k' (JsMap.set k v m) = JsMap.get k' m.
Proof.
  intros Hne. induction m as [|[k0 v0] m IH]; simpl.
  - by rewrite decide_False.
  - destruct (decide (k0 = k)) as [->|Hne0]; simpl.
    + by rewrite !decide_False.
    + by rewrite IH.
Qed.

(** An id that is not pending stays so until [sendRequest] hands it out again. *)
Lemma exec_gone k op w :
  ¬ issues k op ->
  JsMap.get k (pendingRequests w) = None ->
  JsMap.get k (pendingRequests (exec op w)) = None.
Proof.
  intros Hop Hk.
  destruct (JsMap.get k (pendingRequests (exec op w))) as [r|] eqn:Hg; [|done].
  destruct op as [rid ep d| | | | | | | | |];
    [simpl in *; rewrite get_set_ne in Hg by done; congruence|..];
    lazymatch type of Hg with
    | JsMap.get _ (pendingRequests (exec ?o _)) = _ =>
        destruct (shrinks_exec o w (fun _ H => H)) as (Hm & _)
    end;
    apply Hm in Hg; congruence.
Qed.

(** A settled promise keeps its outcome whatever the bridge does. *)
Lemma exec_settled p st op w :
  promises w !! p = Some st -> st ≠ Pending ->
  promises (exec op w) !! p = Some st.
Proof.
  intros Hp Hst.
  destruct op as [rid ep d| | | | | | | | |];
    [simpl; rewrite lookup_app_l; [done|]; by eapply lookup_lt_Some|..];
    lazymatch goal with
    | |- promises (exec ?o _) !! _ = _ =>
        destruct (shrinks_exec o w (fun _ H => H)) as (_ & Hs & _)
    end;
    by apply Hs.
Qed.

Lemma execAll_gone_settled k p st ops w :
  Forall (fun op => ¬ issues k op) ops ->
  JsMap.get k (pendingRequests w) = None ->
  promises w !! p = Some st -> st ≠ Pending ->
  JsMap.get k (pendingRequests (execAll ops w)) = None /\
  promises (execAll ops w) !! p = Some st.
Proof.
  revert w. induction ops as [|op ops IH]; intros w Hops Hk Hp Hst; simpl; [done|].
  apply Forall_cons in Hops as [Hop Hops].
  apply IH; [done| |by apply exec_settled|done]. by apply exec_gone.
Qed.

Lemma settleRequest_spec k r outcome w :
  wf w -> JsMap.get k (pendingRequests w) = Some r ->
  let w1 := settleRequest k r outcome w in
  findTimer (timeoutId r) (timers w1) = None /\
  JsMap.get k (pendingRequests w1) = None /\
  (k ∉ requestQueue w1) /\
  promises w1 !! settlement r = Some outcome.
Proof.
  intros Hwf Hk w1.
  pose proof (wf_settleRequest k r outcome w Hwf Hk) as Hwf1. fold w1 in Hwf1.
  destruct (settleRequest_fields k r outcome w) as (Hm & Hp & Ht & _).
  fold w1 in Hm, Hp, Ht.
  assert (Hgone : JsMap.get k (pendingRequests w1) = None)
    by (rewrite Hm; apply get_delete_eq).
  split_and!.
  - rewrite Ht. apply findTimer_dropTimer_eq.
  - done.
  - rewrite (wf_queue w1 Hwf1). by apply get_None_keys.
  - rewrite Hp. apply settle_lookup_eq. by apply (wf_entry w Hwf k r).
Qed.

(** C2: exactly-once settlement.  When [resolveRequest(id, v)] (or
    [rejectRequest(id, e)]) finds the id pending it returns [true], the
    timer of the request is no longer armed, the id is neither in the map
    nor in the queue and the promise of the request is fulfilled with [v]
    (rejected with [e]).  After any further operations -- as long as
    [sendRequest] does not hand the same id out again -- a call of
    [resolveRequest] or [rejectRequest] with this id returns [false] and
    leaves the whole state, the settled promise included, as it is. *)
Theorem settlement_exactly_once w k r v e ops :
  reachable w ->
  JsMap.get k (pendingRequests w) = Some r ->
  Forall (fun op => ¬ issues k op) ops ->
  let settled (res : bool * World) (outcome : PromiseState) : Prop :=
    res.1 = true /\
    findTimer (timeoutId r) (timers res.2) = None /\
    hasPendingRequest k res.2 = false /\
    (k ∉ requestQueue res.2) /\
    promises res.2 !! settlement r = Some outcome /\
    (let w2 := execAll ops res.2 in
     promises w2 !! settlement r = Some outcome /\
     forall v' e',
       resolveRequest k v' w2 = (false, w2) /\
       rejectRequest k e' w2 = (false, w2)) in
  settled (resolveRequest k v w) (Fulfilled v) /\
  settled (rejectRequest k e w) (Rejected e).
Proof.
  intros Hreach Hk Hops settled. pose proof (reachable_wf w Hreach) as Hwf.
  assert (H : forall outcome, outcome ≠ Pending ->
            settled (true, settleRequest k r outcome w) outcome).
  { intros outcome Hout.
    destruct (settleRequest_spec k r outcome w Hwf Hk) as (Ht & Hm & Hq & Hp).
    unfold settled. simpl. split_and!; try done.
    - by apply has_false_get.
    - by eapply execAll_gone_settled.
    - intros v' e'.
      destruct (execAll_gone_settled k (settlement r) outcome ops
                  (settleRequest k r outcome w) Hops Hm Hp Hout) as [Hgone _].
      by rewrite resolveRequest_gone, rejectRequest_gone. }
  rewrite (resolveRequest_live k r v w Hk), (rejectRequest_live k r e w Hk).
  split; by apply H.
Qed.

Lemma settlement_exactly_once_witness :
  let w := execAll [OpSendRequest "a" "/api/x" JNull;
                    OpSendRequest "b" "/api/y" JNull] (newBridge 0) in
  let r := mkPendingRequest "a" "/api/x" JNull 0 0 0 in
  let ops := [OpSendRequest "c" "/api/z" JNull; OpAdvance 40000;
              OpCleanupOldRequests] in
  reachable w /\
  JsMap.get "a" (pendingRequests w) = Some r /\
  Forall (fun op => ¬ issues "a" op) ops /\
  (resolveRequest "a" (JNum 1) w).1 = true /\
  (let w2 := execAll ops (resolveRequest "a" (JNum 1) w).2 in
   promises w2 !! 0%nat = Some (Fulfilled (JNum 1)) /\
   rejectRequest "a" (JStr "late") w2 = (false, w2)).
Proof.
  intros w r ops.
  assert (Hreach : reachable w).
  { apply reachable_execAll; [apply reachable_new|]. by simpl. }
  assert (Hk : JsMap.get "a" (pendingRequests w) = Some r) by reflexivity.
  assert (Hops : Forall (fun op => ¬ issues "a" op) ops).
  { repeat constructor; simpl; try (intros H; exact H). discriminate. }
  destruct (settlement_exactly_once w "a" r (JNum 1) JNull ops Hreach Hk Hops)
    as [(H1 & _ & _ & _ & _ & H2 & H3) _].
  split_and!; [exact Hreach | exact Hk | exact Hops | exact H1 |].
  split; [exact H2 | exact (proj2 (H3 JNull (JStr "late")))].
Defined.

(** ** The timeout reaper *)

Lemma nextDue_Some t ts h tm :
  nextDue t ts = Some (h, tm) -> (h, tm) ∈ ts /\ due tm <= t.
Proof.
  induction ts as [|[h0 t0] ts IH]; simpl; [done|].
  destruct (due t0 <=? t) eqn:Hdue.
  - apply Z.leb_le in Hdue.
    destruct (nextDue t ts) as [[h1 t1]|].
    + destruct (due t0 <=? due t1).
      * intros [= <- <-]. split; [apply list_elem_of_here | done].
      * intros [= <- <-]. destruct IH as [Hin Hle]; [done|].
        split; [by apply list_elem_of_further | done].
    + intros [= <- <-]. split; [apply list_elem_of_here | done].
  - intros H. destruct (IH H) as [Hin Hle].
    split; [by apply list_elem_of_further | done].
Qed.

Lemma nextDue_None t ts h tm :
  nextDue t ts = None -> (h, tm) ∈ ts -> t < due tm.
Proof.
  induction ts as [|[h0 t0] ts IH]; simpl; intros Hnone Hin.
  - by apply elem_of_nil in Hin.
  - destruct (due t0 <=? t) eqn:Hdue.
    + destruct (nextDue t ts) as [[h1 t1]|]; [|done].
      by destruct (due t0 <=? due t1).
    + apply Z.leb_gt in Hdue.
      apply elem_of_cons in Hin as [[= -> ->]|Hin]; [done | by apply IH].
Qed.

(** What became of the request [r] filed under [k]: it is still pending as
    it was, or it is gone and its promise carries the timeout error. *)
Lemma fireTimer_tracks h k r w :
  wf w ->
  (JsMap.get k (pendingRequests w) = Some r \/
   (JsMap.get k (pendingRequests w) = None /\
    promises w !! settlement r = Some timeoutError)) ->
  JsMap.get k (pendingRequests (fireTimer h w)) = Some r \/
  (JsMap.get k (pendingRequests (fireTimer h w)) = None /\
   promises (fireTimer h w) !! settlement r = Some timeoutError).
Proof.
  intros Hwf [Hk|[Hk Hp]].
  - destruct (findTimer h (timers w)) as [t|] eqn:Ht;
      [|left; by rewrite fireTimer_unarmed].
    destruct (fireTimer_settleRequest h t w Hwf Ht) as (r' & Hr' & _ & _ & _ & ->).
    destruct (decide (timer_requestId t = k)) as [Heq|Hne].
    + right. rewrite Heq in *. assert (r' = r) as -> by congruence.
      destruct (settleRequest_spec k r timeoutError w Hwf Hk) as (_ & Hm & _ & Hp).
      done.
    + left. destruct (settleRequest_fields (timer_requestId t) r' timeoutError w)
        as (-> & _). by rewrite get_delete_ne.
  - right. destruct (shrinks_fireTimer h w) as (Hm & Hs & _). split.
    + destruct (JsMap.get k (pendingRequests (fireTimer h w))) as [r'|] eqn:Hg; [|done].
      apply Hm in Hg. congruence.
    + by apply Hs.
Qed.

Lemma runTimers_spec fuel t w k r :
  wf w -> (length (timers w) <= fuel)%nat ->
  JsMap.get k (pendingRequests w) = Some r \/
    (JsMap.get k (pendingRequests w) = None /\
     promises w !! settlement r = Some timeoutError) ->
  let w' := runTimers fuel t w in
  wf w' /\
  (forall h tm, findTimer h (timers w') = Some tm -> t < due tm) /\
  (JsMap.get k (pendingRequests w') = Some r \/
   (JsMap.get k (pendingRequests w') = None /\
    promises w' !! settlement r = Some timeoutError)).
Proof.
  revert w. induction fuel as [|fuel IH]; intros w Hwf Hlen Hk; simpl.
  - split_and!; [done| |done]. intros h tm Ht.
    apply findTimer_elem in Ht. destruct (timers w); [|simpl in Hlen; lia].
    by apply elem_of_nil in Ht.
  - destruct (nextDue t (timers w)) as [[h tm]|] eqn:Hnext.
    + apply nextDue_Some in Hnext as [Hin Hdue].
      apply (elem_findTimer _ _ _ (wf_handles w Hwf)) in Hin.
      set (w0 := set_clock (Z.max (clock w) (due tm)) w).
      assert (Hwf0 : wf w0) by by apply wf_set_clock.
      apply IH.
      * by apply wf_fireTimer.
      * destruct (fireTimer_settleRequest h tm w0 Hwf0 Hin) as (r' & _ & Hh & _ & _ & ->).
        destruct (settleRequest_fields (timer_requestId tm) r' timeoutError w0)
          as (_ & _ & -> & _).
        rewrite Hh. simpl. apply length_dropTimer_lt in Hin. lia.
      * by apply fireTimer_tracks.
    + split_and!; [done| |done]. intros h tm Ht.
      eapply nextDue_None; [done|]. by apply findTimer_elem.
Qed.

Lemma cleanup_fold_noop now es w :
  (forall k r, (k, r) ∈ es -> ¬ expired now r) ->
  fold_left (cleanupOne now) es w = w.
Proof.
  revert w. induction es as [|[k r] es IH]; intros w Hes; simpl; [done|].
  assert (Hr : ¬ expired now r) by apply (Hes k), list_elem_of_here.
  unfold expired in Hr. apply Z.ltb_nlt in Hr. rewrite Hr.
  apply IH. intros k' r' Hin. apply (Hes k'). by apply list_elem_of_further.
Qed.

(** What the sweep does to the expired entries it visits. *)
Lemma cleanup_fold_expired now es w k r :
  wf w -> NoDup (JsMap.keys es) ->
  (forall k r, (k, r) ∈ es -> JsMap.get k (pendingRequests w) = Some r) ->
  (k, r) ∈ es -> expired now r ->
  let w' := fold_left (cleanupOne now) es w in
  JsMap.get k (pendingRequests w') = None /\
  promises w' !! settlement r = Some timeoutError /\
  findTimer (timeoutId r) (timers w') = None.
Proof.
  revert w. induction es as [|[k0 r0] es IH]; intros w Hwf Hnd Hes Hin Hexp; simpl.
  - by apply elem_of_nil in Hin.
  - apply NoDup_cons in Hnd as [Hk0 Hnd].
    assert (Hkr0 : JsMap.get k0 (pendingRequests w) = Some r0)
      by apply Hes, list_elem_of_here.
    apply elem_of_cons in Hin as [[= -> ->]|Hin].
    + unfold expired in Hexp. apply Z.ltb_lt in Hexp. rewrite Hexp.
      change (Rejected (JErr "Request timeout")) with timeoutError.
      destruct (settleRequest_spec k0 r0 timeoutError w Hwf Hkr0) as (Ht & Hm & _ & Hp).
      set (w1 := settleRequest k0 r0 timeoutError w) in *.
      destruct (shrinks_fold (cleanupOne now) es w1 (shrinks_cleanupOne now))
        as (Hm' & Hs' & Ht' & _).
      set (w' := fold_left (cleanupOne now) es w1) in *.
      split_and!.
      * destruct (JsMap.get k0 (pendingRequests w')) as [r'|] eqn:Hg; [|done].
        apply Hm' in Hg. congruence.
      * by apply Hs'.
      * destruct (findTimer (timeoutId r0) (timers w')) as [t'|] eqn:Hg; [|done].
        apply Ht' in Hg. congruence.
    + assert (Hne : k0 ≠ k).
      { intros ->. apply Hk0. by apply (list_elem_of_fmap_2 fst) in Hin. }
      apply IH; try done.
      * destruct (requestTimeout <? now - timestamp r0); [|done].
        by apply wf_settleRequest.
      * intros k' r' Hin'.
        assert (Hne' : k0 ≠ k').
        { intros ->. apply Hk0. by apply (list_elem_of_fmap_2 fst) in Hin'. }
        specialize (Hes k' r' (list_elem_of_further _ _ _ Hin')).
        destruct (requestTimeout <? now - timestamp r0); [|done].
        destruct (settleRequest_fields k0 r0 (Rejected (JErr "Request timeout")) w)
          as (-> & _).
        by rewrite get_delete_ne.
Qed.

Lemma wf_gone_queue w k :
  wf w -> JsMap.get k (pendingRequests w) = None -> k ∉ requestQueue w.
Proof. intros Hwf Hk. rewrite (wf_queue w Hwf). by apply get_None_keys. Qed.

Lemma advanceTimersByTime_spec ms w k r :
  wf w -> JsMap.get k (pendingRequests w) = Some r ->
  let w1 := advanceTimersByTime ms w in
  wf w1 /\ clock w1 = clock w + ms /\
  (forall k' r', JsMap.get k' (pendingRequests w1) = Some r' ->
                 clock w1 < timestamp r' + requestTimeout) /\
  (JsMap.get k (pendingRequests w1) = Some r \/
   (JsMap.get k (pendingRequests w1) = None /\
    promises w1 !! settlement r = Some timeoutError)).
Proof.
  intros Hwf Hk w1.
  destruct (runTimers_spec (length (timers w)) (clock w + ms) w k r Hwf
              ltac:(lia) (or_introl Hk)) as (Hwf' & Hdue & Htrack).
  unfold w1, advanceTimersByTime.
  set (w' := runTimers (length (timers w)) (clock w + ms) w) in *.
  split_and!; [by apply wf_set_clock | done | | done].
  simpl. intros k' r' Hg.
  destruct (wf_entry w' Hwf' _ _ Hg) as (_ & _ & Ht).
  by apply Hdue in Ht.
Qed.

(** C3: timeout at T = 30 s, by the timer or by the sweep.  A pending
    request has its timer armed for 30000 ms after its timestamp.
    (a) When the callback of that timer runs, the request is rejected with
    the error 'Request timeout' and leaves the map and the queue; a later
    sweep finds nothing of it.  (b) On the simulated clock: once the clock
    has moved on to more than 30 s after the timestamp and the timers due
    on the way have fired, the request is rejected with the timeout error,
    [hasPendingRequest] is false, and [cleanupOldRequests] changes nothing
    at all.  (c) When instead the sweep runs first on a request older than
    30 s, it rejects the request with the same error, removes it and
    disarms its timer: the timer cannot fire any more, and its callback
    would find the entry gone and do nothing. *)
Theorem timeout_by_timer_or_sweep w k r :
  reachable w ->
  JsMap.get k (pendingRequests w) = Some r ->
  requestTimeout = 30000 /\
  findTimer (timeoutId r) (timers w)
    = Some (mkTimer (timestamp r + requestTimeout) k (settlement r)) /\
  (let w1 := fireTimer (timeoutId r) w in
   hasPendingRequest k w1 = false /\
   (k ∉ requestQueue w1) /\
   promises w1 !! settlement r = Some timeoutError /\
   hasPendingRequest k (cleanupOldRequests w1) = false /\
   promises (cleanupOldRequests w1) !! settlement r = Some timeoutError) /\
  (forall ms,
     requestTimeout < clock w + ms - timestamp r ->
     let w1 := advanceTimersByTime ms w in
     hasPendingRequest k w1 = false /\
     (k ∉ requestQueue w1) /\
     promises w1 !! settlement r = Some timeoutError /\
     cleanupOldRequests w1 = w1) /\
  (expired (clock w) r ->
   let w2 := cleanupOldRequests w in
   hasPendingRequest k w2 = false /\
   (k ∉ requestQueue w2) /\
   promises w2 !! settlement r = Some timeoutError /\
   findTimer (timeoutId r) (timers w2) = None /\
   fireTimer (timeoutId r) w2 = w2 /\
   timeoutHandler k (settlement r) w2 = w2).
Proof.
  intros Hreach Hk. pose proof (reachable_wf w Hreach) as Hwf.
  destruct (wf_entry w Hwf k r Hk) as (_ & Hpending & Htimer).
  split_and!; [done | done | | |].
  - destruct (fireTimer_settleRequest _ _ w Hwf Htimer) as (r' & Hr' & _ & _ & _ & ->).
    simpl in *. assert (r' = r) as -> by congruence.
    destruct (settleRequest_spec k r timeoutError w Hwf Hk) as (_ & Hm & Hq & Hp).
    set (w1 := settleRequest k r timeoutError w) in *.
    destruct (shrinks_cleanupOldRequests w1) as (Hm' & Hs' & _).
    split_and!; try done.
    + by apply has_false_get.
    + apply has_false_get.
      destruct (JsMap.get k (pendingRequests (cleanupOldRequests w1))) as [r'|] eqn:Hg;
        [|done].
      apply Hm' in Hg. congruence.
    + by apply Hs'.
  - intros ms Hage w1.
    destruct (advanceTimersByTime_spec ms w k r Hwf Hk) as (Hwf1 & Hclock & Hdue & Htrack).
    fold w1 in Hwf1, Hclock, Hdue, Htrack.
    destruct Htrack as [Hlive|[Hgone Hp]].
    { apply Hdue in Hlive. lia. }
    split_and!; [by apply has_false_get | by apply wf_gone_queue | done |].
    apply cleanup_fold_noop. intros k' r' Hin Hexp.
    apply (elem_get _ _ _ (wf_nodup w1 Hwf1)) in Hin. apply Hdue in Hin.
    unfold expired in Hexp. lia.
  - intros Hexp w2.
    destruct (cleanup_fold_expired (clock w) (pendingRequests w) w k r Hwf
                (wf_nodup w Hwf)) as (Hm & Hp & Ht); try done.
    { intros k' r'. apply elem_get, (wf_nodup w Hwf). }
    { by apply get_Some_elem. }
    fold (cleanupOldRequests w) in Hm, Hp, Ht. fold w2 in Hm, Hp, Ht.
    split_and!; try done.
    + by apply has_false_get.
    + apply wf_gone_queue; [|done]. by apply wf_cleanupOldRequests.
    + by apply fireTimer_unarmed.
    + by apply timeoutHandler_gone.
Qed.

Lemma timeout_by_timer_or_sweep_witness :
  let w := execAll [OpSendRequest "a" "/api/x" JNull; OpAdvance 10;
                    OpSendRequest "b" "/api/y" JNull] (newBridge 0) in
  let r := mkPendingRequest "a" "/api/x" JNull 0 0 0 in
  reachable w /\
  JsMap.get "a" (pendingRequests w) = Some r /\
  requestTimeout < clock w + 29995 - timestamp r /\
  promises (advanceTimersByTime 29995 w) !! 0%nat = Some timeoutError /\
  hasPendingRequest "a" (advanceTimersByTime 29995 w) = false /\
  hasPendingRequest "b" (advanceTimersByTime 29995 w) = true.
Proof.
  intros w r.
  assert (Hreach : reachable w).
  { apply reachable_execAll; [apply reachable_new|]. by simpl. }
  assert (Hk : JsMap.get "a" (pendingRequests w) = Some r) by reflexivity.
  assert (Hage : requestTimeout < clock w + 29995 - timestamp r) by reflexivity.
  destruct (timeout_by_timer_or_sweep w "a" r Hreach Hk) as (_ & _ & _ & Hrun & _).
  destruct (Hrun 29995 Hage) as (Hhas & _ & Hp & _).
  split_and!; [exact Hreach | exact Hk | exact Hage | exact Hp | exact Hhas |].
  reflexivity.
Defined.

(** ** Disconnect *)

Lemma clear_fold_promise es w k r :
  (k, r) ∈ es -> promises w !! settlement r = Some Pending ->
  promises (fold_left clearOne es w) !! settlement r = Some connectionClosed.
Proof.
  revert w. induction es as [|[k0 r0] es IH]; intros w Hin Hp.
  - by apply elem_of_nil in Hin.
  - change (fold_left clearOne ((k0, r0) :: es) w)
      with (fold_left clearOne es (clearOne w (k0, r0))).
    destruct (decide (settlement r0 = settlement r)) as [Heq|Hne].
    + destruct (shrinks_fold clearOne es (clearOne w (k0, r0)) shrinks_clearOne)
        as (_ & Hs & _).
      apply Hs; [|done]. simpl. rewrite Heq. by apply settle_lookup_eq.
    + apply elem_of_cons in Hin as [[= -> ->]|Hin]; [done|].
      apply IH; [done|]. simpl. by rewrite settle_lookup_ne.
Qed.

Lemma wf_no_entries_no_timers w :
  wf w -> pendingRequests w = [] -> timers w = [].
Proof.
  intros Hwf Hm. destruct (timers w) as [|[h t] ts] eqn:Hts; [done|].
  destruct (wf_timer w Hwf h t) as (_ & r & Hr & _).
  - rewrite Hts. simpl. by rewrite decide_True.
  - by rewrite Hm in Hr.
Qed.

(** C5: disconnect clears all.  In every state of the ledger
    [clearAllPendingRequests] leaves the map and the queue empty
    ([getPendingCount() = 0], [getPendingRequest()] is [null]), disarms the
    timer of every entry and rejects every entry whose promise is still
    pending with the error 'Connection closed'.  In the states the bridge
    can reach every entry is of that kind, and no timer stays armed.
    [POST /disconnect] (the same in both variants of the server) marks the
    plugin as not connected, clears the bridge in this way and answers
    [{success: true}]. *)
Theorem disconnect_clears_all :
  (forall w,
     let w' := clearAllPendingRequests w in
     pendingRequests w' = [] /\ requestQueue w' = [] /\
     getPendingCount w' = 0%nat /\
     getPendingRequest w' = (None, w') /\
     forall k r, (k, r) ∈ pendingRequests w ->
       findTimer (timeoutId r) (timers w') = None /\
       (promises w !! settlement r = Some Pending ->
        promises w' !! settlement r = Some connectionClosed)) /\
  (forall w, reachable w ->
     timers (clearAllPendingRequests w) = [] /\
     forall k r, (k, r) ∈ pendingRequests w ->
       promises (clearAllPendingRequests w) !! settlement r
       = Some connectionClosed) /\
  (forall s,
     (disconnect s).1 = mkHttpResponse 200 (JObj [("success", JBool true)]) /\
     pluginConnected (disconnect s).2 = false /\
     isPluginConnected (disconnect s).2 = false /\
     bridge (disconnect s).2 = clearAllPendingRequests (bridge s)).
Proof.
  split_and!.
  - intros w w'. split_and!; try done.
    intros k r Hin. split.
    + unfold w', clearAllPendingRequests. simpl. rewrite clear_fold_timers.
      rewrite decide_True; [done|].
      by apply (list_elem_of_fmap_2 (fun e => timeoutId e.2)) in Hin.
    + intros Hp. unfold w', clearAllPendingRequests. simpl.
      by eapply clear_fold_promise.
  - intros w Hreach. pose proof (reachable_wf w Hreach) as Hwf. split.
    + apply wf_no_entries_no_timers; [by apply wf_clearAllPendingRequests | done].
    + intros k r Hin. unfold clearAllPendingRequests. simpl.
      eapply clear_fold_promise; [done|].
      apply (elem_get _ _ _ (wf_nodup w Hwf)) in Hin.
      by apply (wf_entry w Hwf) in Hin as (_ & Hp & _).
  - intros s. by split_and!.
Qed.

Lemma disconnect_clears_all_witness :
  let w := execAll [OpSendRequest "a" "/api/1" JNull;
                    OpSendRequest "b" "/api/2" JNull;
                    OpSendRequest "c" "/api/3" JNull] (newBridge 0) in
  reachable w /\
  promises (clearAllPendingRequests w)
    = [connectionClosed; connectionClosed; connectionClosed] /\
  timers (clearAllPendingRequests w) = [] /\
  getPendingCount (clearAllPendingRequests w) = 0%nat /\
  promises (clearAllPendingRequests w) !! 2%nat = Some connectionClosed.
Proof.
  intros w.
  assert (Hreach : reachable w).
  { apply reachable_execAll; [apply reachable_new|]. by simpl. }
  destruct disconnect_clears_all as (Hany & Hreachable & _).
  destruct (Hreachable w Hreach) as (Htimers & Hall).
  split_and!; [exact Hreach | reflexivity | exact Htimers | exact (proj1 (proj2 (proj2 (Hany w)))) |].
  apply (Hall "c" (mkPendingRequest "c" "/api/3" JNull 0 2 2)).
  apply get_Some_elem. reflexivity.
Defined.

(** ** Batch settlement *)

Lemma resolveOne_live t w resp r :
  wf w ->
  JsMap.get (resp_requestId resp) (pendingRequests w) = Some r ->
  exists outcome,
    outcome = (if truthy (optStr (resp_error resp))
               then Rejected (optStr (resp_error resp))
               else Fulfilled (resp_response resp)) /\
    resolveOne (t, w) resp
    = (mkTally (S (resolved t)) (notFound t),
       settleRequest (resp_requestId resp) r outcome w).
Proof.
  intros Hwf Hr. eexists. split; [done|]. unfold resolveOne.
  destruct (truthy (optStr (resp_error resp))).
  - by rewrite (rejectRequest_live _ r).
  - by rewrite (resolveRequest_live _ r).
Qed.

Lemma resolveOne_gone t w resp :
  JsMap.get (resp_requestId resp) (pendingRequests w) = None ->
  resolveOne (t, w) resp = (mkTally (resolved t) (S (notFound t)), w).
Proof.
  intros Hr. unfold resolveOne.
  destruct (truthy (optStr (resp_error resp))).
  - by rewrite rejectRequest_gone.
  - by rewrite resolveRequest_gone.
Qed.

Lemma batch_tally responses t w :
  wf w ->
  let res := fold_left resolveOne responses (t, w) in
  (resolved res.1 + notFound res.1 = resolved t + notFound t + length responses)%nat /\
  notFound res.1 = (notFound t + batchMisses (requestQueue w) responses)%nat.
Proof.
  revert t w. induction responses as [|resp rest IH]; intros t w Hwf.
  - simpl. lia.
  - cbn [fold_left batchMisses length].
    destruct (JsMap.get (resp_requestId resp) (pendingRequests w)) as [r|] eqn:Hr.
    + destruct (resolveOne_live t w resp r Hwf Hr) as (outcome & _ & ->).
      rewrite decide_True
        by (apply wf_queue_live; [done|]; apply has_get; by eexists).
      destruct (IH (mkTally (S (resolved t)) (notFound t))
                  (settleRequest (resp_requestId resp) r outcome w)) as [H1 H2];
        [by apply wf_settleRequest|].
      assert (Hq : requestQueue (settleRequest (resp_requestId resp) r outcome w)
                = filter (fun y => y ≠ resp_requestId resp) (requestQueue w))
        by (by rewrite settleRequest_eq by by apply wf_queue_NoDup).
      rewrite Hq in H2. cbn [fst snd resolved notFound] in *.
      split; [lia | done].
    + rewrite (resolveOne_gone t w resp Hr).
      rewrite decide_False
        by (rewrite (wf_queue w Hwf); by apply get_None_keys).
      destruct (IH (mkTally (resolved t) (S (notFound t))) w Hwf) as [H1 H2].
      cbn [fst snd resolved notFound] in *. split; lia.
Qed.

(** C4: batch settlement with partial success.  [resolveRequests] goes
    through the entries in the order given.  An entry whose id is pending
    when its turn comes settles that request -- it rejects it with the
    entry's error when the entry has one (the test [if (resp.error)] of the
    source: a non-empty string), and resolves it with the entry's response
    otherwise -- and is counted as resolved; an entry whose id is unknown,
    or was settled before (also by an earlier entry of the same batch),
    changes nothing and is counted as not found.  The call always returns
    its tally, and [resolved + notFound] is the number of entries. *)
Theorem batch_settlement_partial_success w responses :
  reachable w ->
  (resolved (resolveRequests responses w).1
   + notFound (resolveRequests responses w).1 = length responses)%nat /\
  notFound (resolveRequests responses w).1
    = batchMisses (requestQueue w) responses /\
  forall pre resp post,
    responses = pre ++ resp :: post ->
    let before := resolveRequests pre w in
    let k := resp_requestId resp in
    resolveRequests (pre ++ [resp]) w = resolveOne before resp /\
    (hasPendingRequest k before.2 = false ->
     resolveOne before resp
     = (mkTally (resolved before.1) (S (notFound before.1)), before.2)) /\
    (forall r,
       JsMap.get k (pendingRequests before.2) = Some r ->
       let after := resolveOne before resp in
       resolved after.1 = S (resolved before.1) /\
       notFound after.1 = notFound before.1 /\
       hasPendingRequest k after.2 = false /\
       (truthy (optStr (resp_error resp)) = true ->
        promises after.2 !! settlement r = Some (Rejected (optStr (resp_error resp))) /\
        promises (resolveRequests responses w).2 !! settlement r
          = Some (Rejected (optStr (resp_error resp)))) /\
       (truthy (optStr (resp_error resp)) = false ->
        promises after.2 !! settlement r = Some (Fulfilled (resp_response resp)) /\
        promises (resolveRequests responses w).2 !! settlement r
          = Some (Fulfilled (resp_response resp)))).
Proof.
  intros Hreach. pose proof (reachable_wf w Hreach) as Hwf.
  destruct (batch_tally responses (mkTally 0 0) w Hwf) as [Hsum Hmiss].
  split_and!; [exact Hsum | exact Hmiss |].
  intros pre resp post -> before k.
  assert (Hwfb : wf before.2) by by apply wf_resolveRequests.
  assert (Hfinal : resolveRequests (pre ++ resp :: post) w
            = fold_left resolveOne post (resolveOne before resp)).
  { unfold resolveRequests. by rewrite fold_left_app. }
  split_and!.
  - unfold resolveRequests. by rewrite fold_left_app.
  - intros Hgone. apply has_false_get in Hgone.
    destruct before as [tb wb]. by apply resolveOne_gone.
  - intros r Hr after. unfold after. rewrite Hfinal.
    destruct before as [tb wb]. simpl in Hr, Hwfb.
    destruct (resolveOne_live tb wb resp r Hwfb Hr) as (outcome & Hout & ->).
    destruct (settleRequest_spec k r outcome wb Hwfb Hr) as (_ & Hm & _ & Hp).
    cbn [fst snd resolved notFound].
    assert (Hlater : outcome ≠ Pending ->
              promises (fold_left resolveOne post
                          (mkTally (S (resolved tb)) (notFound tb),
                           settleRequest k r outcome wb)).2 !! settlement r
              = Some outcome).
    { intros Hne.
      destruct (shrinks_resolveRequests_acc post
                  (mkTally (S (resolved tb)) (notFound tb),
                   settleRequest k r outcome wb)) as (_ & Hs & _).
      by apply Hs. }
    split_and!; try done.
    + by apply has_false_get.
    + intros Htruthy. rewrite Htruthy in Hout. subst outcome. split; [done|].
      by apply Hlater.
    + intros Hfalsy. rewrite Hfalsy in Hout. subst outcome. split; [done|].
      by apply Hlater.
Qed.

Lemma batch_settlement_partial_success_witness :
  let w := execAll [OpSendRequest "a" "/api/1" JNull;
                    OpSendRequest "b" "/api/2" JNull;
                    OpSendRequest "c" "/api/3" JNull] (newBridge 0) in
  let responses := [mkBatchResponse "a" (JNum 1) None;
                    mkBatchResponse "invalid-id" JUndefined None;
                    mkBatchResponse "c" JUndefined (Some "boom")] in
  reachable w /\
  (resolveRequests responses w).1 = mkTally 2 1 /\
  (resolved (resolveRequests responses w).1
   + notFound (resolveRequests responses w).1 = 3)%nat /\
  promises (resolveRequests responses w).2
    = [Fulfilled (JNum 1); Pending; Rejected (JStr "boom")].
Proof.
  intros w responses.
  assert (Hreach : reachable w).
  { apply reachable_execAll; [apply reachable_new|]. by simpl. }
  destruct (batch_settlement_partial_success w responses Hreach) as (Hsum & _).
  split_and!; [exact Hreach | reflexivity | exact Hsum | reflexivity].
Defined.

(** ** The two variants of the HTTP front end *)

Lemma settleRequest_gone k r outcome w :
  hasPendingRequest k (settleRequest k r outcome w) = false.
Proof.
  unfold hasPendingRequest. apply has_false_get.
  destruct (settleRequest_fields k r outcome w) as (-> & _).
  apply get_delete_eq.
Qed.

Lemma getProp_typed r :
  getProp "error" (batchResponseJson r) = Some (optStr (resp_error r)) /\
  getProp "requestId" (batchResponseJson r) = Some (JStr (resp_requestId r)) /\
  getProp "response" (batchResponseJson r) = Some (resp_response r).
Proof.
  unfold batchResponseJson.
  destruct (resp_response r), (resp_error r); by split_and!.
Qed.

(** On entries of the declared type the loop is the loop of
    [resolveRequests]. *)
Lemma resolveOneJs_typed acc r :
  resolveOneJs acc (batchResponseJson r) = Some (resolveOne acc r).
Proof.
  destruct acc as [t w]. unfold resolveOneJs.
  destruct (getProp_typed r) as (-> & -> & ->). unfold resolveOne.
  cbn [rejectMaybe resolveMaybe].
  destruct (truthy (optStr (resp_error r))).
  - by destruct (rejectRequest _ _ w) as [[] w'].
  - by destruct (resolveRequest _ _ w) as [[] w'].
Qed.

Lemma resolveRequestsJs_typed entries w :
  resolveRequestsJs (batchResponseJson <$> entries) w
  = inl (resolveRequests entries w).
Proof.
  unfold resolveRequestsJs, resolveRequests. generalize (mkTally 0 0, w).
  induction entries as [|r entries IH]; intros acc; [done|].
  rewrite fmap_cons. cbn [resolveRequestsJs_loop fold_left].
  by rewrite resolveOneJs_typed, IH.
Qed.

Lemma resolveOneJs_total acc resp :
  resp ≠ JNull -> resp ≠ JUndefined ->
  exists acc',
    resolveOneJs acc resp = Some acc' /\
    (resolved acc'.1 + notFound acc'.1 = S (resolved acc.1 + notFound acc.1))%nat.
Proof.
  intros Hnull Hundef. destruct acc as [t w]. unfold resolveOneJs.
  assert (Hprop : forall name, exists x, getProp name resp = Some x).
  { intros name. destruct resp; try done; by eexists. }
  destruct (Hprop "error") as [error ->], (Hprop "requestId") as [requestId ->],
    (Hprop "response") as [response ->].
  destruct (if truthy error then rejectMaybe requestId error w
            else resolveMaybe requestId response w) as [[] w'];
    eexists; (split; [reflexivity|]); simpl; lia.
Qed.

Lemma resolveRequestsJs_loop_total responses acc :
  (forall resp, resp ∈ responses -> resp ≠ JNull /\ resp ≠ JUndefined) ->
  exists acc',
    resolveRequestsJs_loop responses acc = inl acc' /\
    (resolved acc'.1 + notFound acc'.1
     = resolved acc.1 + notFound acc.1 + length responses)%nat.
Proof.
  revert acc. induction responses as [|resp rest IH]; intros acc Hok.
  - exists acc. split; [done | simpl; lia].
  - destruct (Hok resp (list_elem_of_here _ _)) as [Hnull Hundef].
    destruct (resolveOneJs_total acc resp Hnull Hundef) as (acc1 & Hone & Hsum1).
    destruct (IH acc1) as (acc' & Hloop & Hsum).
    { intros resp' Hin. by apply Hok, list_elem_of_further. }
    exists acc'. cbn [resolveRequestsJs_loop]. rewrite Hone.
    split; [done | simpl; lia].
Qed.

Lemma resolveRequestsJs_loop_throws pre post acc acc' :
  resolveRequestsJs_loop pre acc = inl acc' ->
  resolveRequestsJs_loop (pre ++ JNull :: post) acc = inr acc'.2.
Proof.
  revert acc. induction pre as [|resp pre IH]; intros acc Hpre.
  - injection Hpre as ->. by destruct acc'.
  - cbn [app resolveRequestsJs_loop] in *.
    destruct (resolveOneJs acc resp) as [acc1|]; [by apply IH | done].
Qed.

Lemma response_v2_typed b s entries :
  body_responses b = JArr (batchResponseJson <$> entries) ->
  HttpServerV2.response b s
  = (json (JObj [("success", JBool true);
                 ("resolved", JNum (Z.of_nat (resolved (resolveRequests entries (bridge s)).1)));
                 ("notFound", JNum (Z.of_nat (notFound (resolveRequests entries (bridge s)).1)))]),
     set_bridge (resolveRequests entries (bridge s)).2 s).
Proof.
  intros Hb. unfold HttpServerV2.response.
  rewrite Hb, resolveRequestsJs_typed. by destruct (resolveRequests entries (bridge s)).
Qed.

Lemma response_v2_single b s :
  (forall responses, body_responses b ≠ JArr responses) ->
  HttpServerV2.response b s = HttpServerV2.responseSingle b s.
Proof.
  intros Hnot. unfold HttpServerV2.response.
  destruct (body_responses b) as [| | | | | |responses|] eqn:Hb; try done.
  by destruct (Hnot responses).
Qed.

(** C6, as the code has it.  In the batching variant of [POST /response] a
    body whose [responses] is an array is handed to [resolveRequests]
    unchecked.  If no entry of the array is [null], the answer is 200 with
    [{success: true, resolved, notFound}], where [resolved + notFound] is
    the number of entries; for entries of the declared type it is the
    tally of [resolveRequests].  If an entry is [null], reading its
    [error] throws: the entries before it have been settled, those after
    it are not looked at, and the answer is 500.  Without such an array, a
    truthy [requestId] that is not pending (or is no string) is answered
    with 404 and nothing changes, one that is pending is settled and
    answered with 200 [{success: true}], and a body with no [requestId], or
    an empty one, is answered with 400.  The single-request variant
    (src/http-server.ts) answers every body with 200 [{success: true}]. *)
Theorem response_error_shapes :
  (forall b s responses,
     body_responses b = JArr responses ->
     (forall resp, resp ∈ responses -> resp ≠ JNull /\ resp ≠ JUndefined) ->
     exists result w,
       resolveRequestsJs responses (bridge s) = inl (result, w) /\
       (resolved result + notFound result = length responses)%nat /\
       HttpServerV2.response b s
       = (mkHttpResponse 200
            (JObj [("success", JBool true);
                   ("resolved", JNum (Z.of_nat (resolved result)));
                   ("notFound", JNum (Z.of_nat (notFound result)))]),
          set_bridge w s)) /\
  (forall b s entries,
     body_responses b = JArr (batchResponseJson <$> entries) ->
     let result := resolveRequests entries (bridge s) in
     HttpServerV2.response b s
     = (mkHttpResponse 200
          (JObj [("success", JBool true);
                 ("resolved", JNum (Z.of_nat (resolved result.1)));
                 ("notFound", JNum (Z.of_nat (notFound result.1)))]),
        set_bridge result.2 s)) /\
  (forall b s pre post,
     body_responses b = JArr (pre ++ JNull :: post) ->
     (forall resp, resp ∈ pre -> resp ≠ JNull /\ resp ≠ JUndefined) ->
     exists result w,
       resolveRequestsJs pre (bridge s) = inl (result, w) /\
       HttpServerV2.response b s = (mkHttpResponse 500 JUndefined, set_bridge w s)) /\
  (forall b s,
     (forall responses, body_responses b ≠ JArr responses) ->
     truthy (body_requestId b) = true ->
     hasPendingMaybe (body_requestId b) (bridge s) = false ->
     HttpServerV2.response b s
     = (mkHttpResponse 404
          (JObj [("error", JStr "Request not found or already resolved")]), s)) /\
  (forall b s rid,
     (forall responses, body_responses b ≠ JArr responses) ->
     body_requestId b = JStr rid -> rid ≠ "" ->
     hasPendingRequest rid (bridge s) = true ->
     (HttpServerV2.response b s).1
     = mkHttpResponse 200 (JObj [("success", JBool true)]) /\
     hasPendingRequest rid (bridge (HttpServerV2.response b s).2) = false) /\
  (forall b s,
     (forall responses, body_responses b ≠ JArr responses) ->
     truthy (body_requestId b) = false ->
     HttpServerV2.response b s
     = (mkHttpResponse 400
          (JObj [("error", JStr "requestId or responses array is required")]), s)) /\
  (forall b s,
     (HttpServerV1.response b s).1
     = mkHttpResponse 200 (JObj [("success", JBool true)])).
Proof.
  split_and!.
  - intros b s responses Hb Hok.
    destruct (resolveRequestsJs_loop_total responses (mkTally 0 0, bridge s) Hok)
      as ([result w] & Hloop & Hsum).
    exists result, w. unfold HttpServerV2.response. rewrite Hb.
    unfold resolveRequestsJs. rewrite Hloop. split_and!; [done | simpl in Hsum; lia | done].
  - intros b s entries Hb result. by rewrite (response_v2_typed b s entries Hb).
  - intros b s pre post Hb Hok.
    destruct (resolveRequestsJs_loop_total pre (mkTally 0 0, bridge s) Hok)
      as ([result w] & Hloop & _).
    exists result, w. unfold HttpServerV2.response. rewrite Hb.
    unfold resolveRequestsJs.
    by rewrite Hloop, (resolveRequestsJs_loop_throws pre post _ _ Hloop).
  - intros b s Hnot Hid Hgone. rewrite (response_v2_single b s Hnot).
    unfold HttpServerV2.responseSingle. by rewrite Hid, Hgone.
  - intros b s rid Hnot Hrid Hne Hlive. rewrite (response_v2_single b s Hnot).
    unfold HttpServerV2.responseSingle. rewrite Hrid.
    cbn [truthy hasPendingMaybe rejectMaybe resolveMaybe]. rewrite Hlive.
    destruct (String.eqb_spec rid ""); [done|]. cbn [negb].
    unfold hasPendingRequest in Hlive. apply has_get in Hlive as [r Hr].
    destruct (truthy (body_error b)).
    + rewrite (rejectRequest_live rid r _ _ Hr). simpl.
      split; [done | apply settleRequest_gone].
    + rewrite (resolveRequest_live rid r _ _ Hr). simpl.
      split; [done | apply settleRequest_gone].
  - intros b s Hnot Hid. rewrite (response_v2_single b s Hnot).
    unfold HttpServerV2.responseSingle. by rewrite Hid.
  - intros b s. unfold HttpServerV1.response.
    destruct (truthy (body_error b)).
    + by destruct (rejectMaybe _ _ _).
    + by destruct (resolveMaybe _ _ _).
Qed.

Lemma response_error_shapes_witness :
  let w := execAll [OpSendRequest "a" "/api/1" JNull;
                    OpSendRequest "b" "/api/2" JNull] (newBridge 0) in
  let s := newServer w in
  let unknown := mkResponseBody (JStr "non-existent-id") (JObj []) JUndefined JUndefined in
  let batch := mkResponseBody JUndefined JUndefined JUndefined
                 (JArr [JObj [("requestId", JStr "a"); ("response", JNum 1)];
                        JNum 7;
                        JObj [("requestId", JStr "zzz"); ("error", JStr "boom")]]) in
  let broken := mkResponseBody JUndefined JUndefined JUndefined
                  (JArr [JObj [("requestId", JStr "a"); ("response", JNum 1)];
                         JNull;
                         JObj [("requestId", JStr "b"); ("response", JNum 2)]]) in
  status (HttpServerV2.response unknown s).1 = 404 /\
  (HttpServerV2.response batch s).1
    = mkHttpResponse 200 (JObj [("success", JBool true);
                                ("resolved", JNum 1); ("notFound", JNum 2)]) /\
  status (HttpServerV2.response broken s).1 = 500 /\
  requestQueue (bridge (HttpServerV2.response broken s).2) = ["b"] /\
  status (HttpServerV2.response
            (mkResponseBody JUndefined JUndefined JUndefined JUndefined) s).1 = 400 /\
  status (HttpServerV2.response
            (mkResponseBody (JStr "a") (JNum 1) JUndefined JUndefined) s).1 = 200.
Proof.
  intros w s unknown batch broken.
  destruct response_error_shapes as (Hbatch & _ & Hthrow & H404 & _).
  assert (Hnot : forall responses, body_responses unknown ≠ JArr responses) by done.
  destruct (Hbatch batch s _ eq_refl) as (result & w1 & Hrun & Hsum & Hresp).
  { intros resp Hin. repeat (apply elem_of_cons in Hin as [->|Hin]; [done|]).
    by apply elem_of_nil in Hin. }
  destruct (Hthrow broken s [JObj [("requestId", JStr "a"); ("response", JNum 1)]]
              [JObj [("requestId", JStr "b"); ("response", JNum 2)]] eq_refl)
    as (result' & w2 & Hrun' & Hresp').
  { intros resp Hin. apply elem_of_cons in Hin as [->|Hin]; [done|].
    by apply elem_of_nil in Hin. }
  split_and!.
  - by rewrite (H404 unknown s Hnot eq_refl eq_refl).
  - reflexivity.
  - by rewrite Hresp'.
  - reflexivity.
  - reflexivity.
  - reflexivity.
Defined.

(** C6 as stated fails twice.  On the single-request variant a body whose
    [requestId] is unknown is answered with 200, not with 404, and a body
    with neither a [requestId] nor a [responses] array is answered with
    200, not with 400.  On the batching variant a [responses] array with a
    [null] entry is not answered with 200: the entry before the [null] is
    settled, the one after it is not, and the answer is 500. *)
Lemma response_shapes_counterexample :
  let s := newServer (execAll [OpSendRequest "a" "/api/1" JNull;
                               OpSendRequest "b" "/api/2" JNull] (newBridge 0)) in
  let unknown := mkResponseBody (JStr "non-existent-id") (JObj []) JUndefined JUndefined in
  let empty := mkResponseBody JUndefined JUndefined JUndefined JUndefined in
  let broken := mkResponseBody JUndefined JUndefined JUndefined
                  (JArr [JObj [("requestId", JStr "a"); ("response", JNum 1)];
                         JNull;
                         JObj [("requestId", JStr "b"); ("response", JNum 2)]]) in
  hasPendingRequest "non-existent-id" (bridge s) = false /\
  HttpServerV1.response unknown s
    = (mkHttpResponse 200 (JObj [("success", JBool true)]), s) /\
  status (HttpServerV1.response unknown s).1 ≠ 404 /\
  HttpServerV1.response empty s
    = (mkHttpResponse 200 (JObj [("success", JBool true)]), s) /\
  status (HttpServerV1.response empty s).1 ≠ 400 /\
  status (HttpServerV2.response broken s).1 = 500 /\
  status (HttpServerV2.response broken s).1 ≠ 200 /\
  hasPendingRequest "a" (bridge (HttpServerV2.response broken s).2) = false /\
  hasPendingRequest "b" (bridge (HttpServerV2.response broken s).2) = true.
Proof. by split_and!. Qed.

Lemma trackPluginActivity_spec s :
  bridge (trackPluginActivity s) = bridge s /\
  pluginConnected (trackPluginActivity s) = true /\
  lastPluginActivity (trackPluginActivity s) = now s /\
  mcpServerActive (trackPluginActivity s) = mcpServerActive s /\
  lastMCPActivity (trackPluginActivity s) = lastMCPActivity s /\
  mcpServerStartTime (trackPluginActivity s) = mcpServerStartTime s.
Proof.
  unfold trackPluginActivity, now.
  destruct (pluginConnected s) eqn:Hp; simpl; by rewrite ?Hp.
Qed.

(** C7, as the code has it.  A [GET /poll] issued while the dispatcher is
    not live first records the activity of the plugin (the plugin is marked
    connected, its last activity is now), then answers 503 with
    [mcpConnected: false] and no work -- in the batching variant an empty
    [requests] array, in the single-request variant (src/http-server.ts)
    [request: null] and no [requests] property -- and the bridge (map,
    queue, promises, timers) is exactly as before. *)
Theorem poll_gated_on_liveness :
  (forall env fuel q s,
     HttpServerV2.isMCPServerActive s = false ->
     exists resp s',
       HttpServerV2.poll env fuel q s = Some (resp, s') /\
       status resp = 503 /\
       field "mcpConnected" (body resp) = Some (JBool false) /\
       field "requests" (body resp) = Some (JArr []) /\
       bridge s' = bridge s /\
       pluginConnected s' = true /\
       lastPluginActivity s' = now s /\
       isPluginConnected s' = true) /\
  (forall s,
     HttpServerV1.isMCPServerActive s = false ->
     exists resp s',
       HttpServerV1.poll s = (resp, s') /\
       status resp = 503 /\
       field "mcpConnected" (body resp) = Some (JBool false) /\
       field "request" (body resp) = Some JNull /\
       field "requests" (body resp) = None /\
       bridge s' = bridge s /\
       pluginConnected s' = true /\
       lastPluginActivity s' = now s /\
       isPluginConnected s' = true).
Proof.
  split.
  - intros env fuel q s Hdown. unfold HttpServerV2.isMCPServerActive in Hdown.
    destruct (trackPluginActivity_spec s) as (Hb & Hp & Hl & Hm & _).
    unfold HttpServerV2.poll. rewrite Hm, Hdown.
    unfold HttpServerV2.isMCPServerActive. rewrite Hm, Hdown. simpl.
    eexists _, _. split; [done|]. split_and!; try done.
    unfold isPluginConnected, now. rewrite Hp, Hl, Hb. unfold now.
    simpl. apply Z.ltb_lt. lia.
  - intros s Hdown.
    destruct (trackPluginActivity_spec s) as (Hb & Hp & Hl & Hm & Ha & _).
    unfold HttpServerV1.poll.
    replace (HttpServerV1.isMCPServerActive (trackPluginActivity s)) with false.
    2:{ unfold HttpServerV1.isMCPServerActive, now in *. by rewrite Hm, Ha, Hb. }
    simpl. eexists _, _. split; [done|]. split_and!; try done.
    unfold isPluginConnected, now. rewrite Hp, Hl, Hb. unfold now.
    simpl. apply Z.ltb_lt. lia.
Qed.

Lemma poll_gated_on_liveness_witness :
  let w := execAll [OpSendRequest "a" "/api/1" JNull] (newBridge 7) in
  let s := newServer w in
  let q := HttpServerV2.mkPollQuery None None None in
  HttpServerV2.isMCPServerActive s = false /\
  HttpServerV1.isMCPServerActive s = false /\
  (exists resp s', HttpServerV2.poll (fun _ => elapse 50) 1 q s = Some (resp, s') /\
     status resp = 503 /\ bridge s' = w) /\
  (exists resp s', HttpServerV1.poll s = (resp, s') /\
     status resp = 503 /\ bridge s' = w).
Proof.
  intros w s q.
  assert (H2 : HttpServerV2.isMCPServerActive s = false) by reflexivity.
  assert (H1 : HttpServerV1.isMCPServerActive s = false) by reflexivity.
  destruct poll_gated_on_liveness as (Hv2 & Hv1).
  split_and!; [exact H2 | exact H1 | |].
  - destruct (Hv2 (fun _ => elapse 50) 1%nat q s H2)
      as (resp & s' & Hpoll & Hstatus & _ & _ & Hbridge & _).
    exists resp, s'. split_and!; [exact Hpoll | exact Hstatus | exact Hbridge].
  - destruct (Hv1 s H1) as (resp & s' & Hpoll & Hstatus & _ & _ & _ & Hbridge & _).
    exists resp, s'. split_and!; [exact Hpoll | exact Hstatus | exact Hbridge].
Defined.

(** C7 as stated fails on the single-request variant: its 503 answer
    carries [request: null] and no [requests] array. *)
Lemma poll_v1_no_requests_array :
  let s := newServer (newBridge 0) in
  HttpServerV1.isMCPServerActive s = false /\
  status (HttpServerV1.poll s).1 = 503 /\
  body (HttpServerV1.poll s).1
    = JObj [("error", JStr "MCP server not connected");
            ("pluginConnected", JBool true);
            ("mcpConnected", JBool false);
            ("request", JNull)] /\
  field "requests" (body (HttpServerV1.poll s).1) ≠ Some (JArr []).
Proof. by split_and!. Qed.

(** C9: the two variants of the dispatcher-liveness check compute
    different functions.  The variant of src/http-server.ts returns the
    flag AND [now - lastMCPActivity < 15000]; the other variant returns the
    flag alone.  They disagree exactly when the flag is set and the last
    activity is 15 s or more ago, and such a state is reached by
    [setMCPServerActive(true)] followed by 15 s or more without activity. *)
Theorem liveness_variants_differ :
  (forall s, HttpServerV1.isMCPServerActive s
             = mcpServerActive s && (now s - lastMCPActivity s <? 15000)) /\
  (forall s, HttpServerV2.isMCPServerActive s = mcpServerActive s) /\
  (forall s, HttpServerV1.isMCPServerActive s ≠ HttpServerV2.isMCPServerActive s
             <-> mcpServerActive s = true /\ 15000 <= now s - lastMCPActivity s) /\
  (forall s0 dt,
     15000 <= dt ->
     let s := elapse dt (setMCPServerActive true s0) in
     HttpServerV1.isMCPServerActive s = false /\
     HttpServerV2.isMCPServerActive s = true).
Proof.
  split_and!; try done.
  - intros s. unfold HttpServerV1.isMCPServerActive, HttpServerV2.isMCPServerActive.
    destruct (mcpServerActive s); simpl.
    + destruct (Z.ltb_spec (now s - lastMCPActivity s) 15000) as [Hlt|Hge]; split.
      * intros H'. by destruct H'.
      * intros [_ H'] _. lia.
      * intros _. split; [done | lia].
      * done.
    + split; [by intros H' | by intros [H' _]].
  - intros s0 dt Hdt s. split; [|done].
    unfold HttpServerV1.isMCPServerActive, s, elapse, now. simpl.
    unfold now. apply Z.ltb_ge. lia.
Qed.

Lemma liveness_variants_differ_witness :
  let s := elapse 16000 (setMCPServerActive true (newServer (newBridge 1000))) in
  15000 <= 16000 /\
  HttpServerV1.isMCPServerActive s = false /\
  HttpServerV2.isMCPServerActive s = true.
Proof.
  intros s.
  assert (H : 15000 <= 16000) by lia.
  destruct liveness_variants_differ as (_ & _ & _ & Hreach).
  split; [exact H|].
  exact (Hreach (newServer (newBridge 1000)) 16000 H).
Defined.

(** ** Long polling *)

Lemma getPendingRequests_frame maxCount w :
  pendingRequests (getPendingRequests maxCount w).2 = pendingRequests w /\
  promises (getPendingRequests maxCount w).2 = promises w /\
  timers (getPendingRequests maxCount w).2 = timers w /\
  clock (getPendingRequests maxCount w).2 = clock w.
Proof.
  unfold getPendingRequests. by destruct (getPendingRequests_scan _ _ _ _ _ _).
Qed.

Lemma getPendingRequests_length maxCount w :
  (length (getPendingRequests maxCount w).1 <= Z.to_nat maxCount)%nat.
Proof.
  pose proof (getPendingRequests_scan_results (pendingRequests w) maxCount 0%nat
                (requestQueue w) [] []) as H.
  unfold getPendingRequests.
  destruct (getPendingRequests_scan _ _ _ _ _ _) as [results toRemove].
  simpl in *. subst results. rewrite length_take. lia.
Qed.

Section long_poll.
Import HttpServerV2.

Variable env : nat -> Server -> Server.

Lemma now_sleep i s : now (sleep env i s) = now s + pollInterval.
Proof. reflexivity. Qed.

Lemma now_checked maxBatchSize s requests b :
  getPendingRequests maxBatchSize (bridge s) = (requests, b) ->
  now (set_bridge b s) = now s.
Proof.
  intros Hget. unfold now. simpl.
  destruct (getPendingRequests_frame maxBatchSize (bridge s)) as (_ & _ & _ & Hc).
  by rewrite Hget in Hc.
Qed.

Lemma waitForRequests_loop_spec fuel i startTime maxWaitMs maxBatchSize s :
  (1 <= fuel)%nat ->
  maxWaitMs - (now s - startTime) <= pollInterval * (Z.of_nat fuel - 1) ->
  exists requests s',
    waitForRequests_loop env fuel i startTime maxWaitMs maxBatchSize s
    = Some (requests, s') /\
    LongPoll env startTime maxWaitMs maxBatchSize i s requests s'.
Proof.
  revert i s. induction fuel as [|fuel IH]; intros i s Hfuel Hleft; [lia|].
  simpl. destruct (Z.ltb_spec (now s - startTime) maxWaitMs) as [Hlt|Hge].
  - destruct (getPendingRequests maxBatchSize (bridge s)) as [requests b] eqn:Hget.
    destruct requests as [|v requests].
    + simpl.
      pose proof (now_checked maxBatchSize s [] b Hget) as Hclock.
      pose proof (now_sleep i (set_bridge b s)) as Hsleep.
      unfold pollInterval in *.
      destruct (IH (S i) (sleep env i (set_bridge b s)))
        as (requests & s' & Hrun & Hspec); [lia | lia |].
      exists requests, s'. split; [done|]. by eapply LongPoll_sleep.
    + simpl. eexists _, _. split; [done|]. by apply LongPoll_batch.
  - eexists _, _. split; [done|]. by apply LongPoll_timeout.
Qed.

(** Once the wait is over nothing is checked any more. *)
Lemma LongPoll_late startTime maxWaitMs maxBatchSize i s requests s' :
  LongPoll env startTime maxWaitMs maxBatchSize i s requests s' ->
  maxWaitMs <= now s - startTime -> requests = [] /\ s' = s.
Proof. intros H Hlate. inversion H; subst; [done | lia | lia]. Qed.

(** A batch that is there at a check ends the wait. *)
Lemma LongPoll_first startTime maxWaitMs maxBatchSize i s requests s' :
  LongPoll env startTime maxWaitMs maxBatchSize i s requests s' ->
  now s - startTime < maxWaitMs ->
  (getPendingRequests maxBatchSize (bridge s)).1 ≠ [] ->
  requests = (getPendingRequests maxBatchSize (bridge s)).1 /\
  s' = set_bridge (getPendingRequests maxBatchSize (bridge s)).2 s.
Proof.
  intros H Hlt Hbatch. inversion H as [? ? Hover|? ? ? b Hlt' Hget Hne|? ? b ? ? Hlt' Hget Hrun];
    subst.
  - lia.
  - by rewrite Hget.
  - by rewrite Hget in Hbatch.
Qed.

Lemma LongPoll_result startTime maxWaitMs maxBatchSize i s requests s' :
  LongPoll env startTime maxWaitMs maxBatchSize i s requests s' ->
  (exists k : nat, now s' = now s + pollInterval * Z.of_nat k) /\
  (requests = [] -> maxWaitMs <= now s' - startTime) /\
  (requests = [] -> now s - startTime < maxWaitMs ->
   now s' - startTime < maxWaitMs + pollInterval) /\
  (requests ≠ [] ->
   now s' - startTime < maxWaitMs /\
   exists s0 b, getPendingRequests maxBatchSize (bridge s0) = (requests, b) /\
                s' = set_bridge b s0) /\
  (length requests <= Z.to_nat maxBatchSize)%nat.
Proof.
  induction 1 as [i s Hover|i s requests b Hlt Hget Hne|i s b requests s' Hlt Hget Hrun IH].
  - split_and!; [exists 0%nat; lia | done | lia | done | simpl; lia].
  - pose proof (now_checked maxBatchSize s requests b Hget) as Hclock.
    split_and!; [exists 0%nat; lia | done | done | |].
    + intros _. split; [lia|]. by exists s, b.
    + pose proof (getPendingRequests_length maxBatchSize (bridge s)) as Hlen.
      by rewrite Hget in Hlen.
  - pose proof (now_checked maxBatchSize s [] b Hget) as Hclock.
    pose proof (now_sleep i (set_bridge b s)) as Hsleep.
    destruct IH as ([k Hk] & Hempty & Hsoon & Hbatch & Hlen).
    split_and!; [exists (S k); lia | done | | done | done].
    intros Hnil _.
    destruct (Z.lt_ge_cases (now (sleep env i (set_bridge b s)) - startTime) maxWaitMs)
      as [Hlt'|Hge'].
    + by apply Hsoon.
    + destruct (LongPoll_late _ _ _ _ _ _ _ Hrun Hge') as [_ ->]. lia.
Qed.

(** C8: the long poll is a bounded wait.  The loop of [waitForRequests]
    checks the ledger and, finding nothing, sleeps 50 ms and checks again.
    With enough checks allowed (one more than [maxWaitMs / 50], rounded up)
    it returns, after a whole number of sleeps; what it returns is the
    first batch that is not empty -- the batch a check found, so at once if
    a batch is there when the wait begins -- before [maxWaitMs] has passed,
    or the empty list when [maxWaitMs] has passed and not 50 ms more; a
    batch never has more than [maxBatchSize] entries.  [GET /poll] with
    long polling, on a live server, answers 200 with exactly the batch of
    [waitForRequests] for [min(parseInt(maxWait) || 5000, 30000)] ms and
    [min(parseInt(maxBatch) || 10, 50)] entries, for which 601 checks
    always suffice: never more than 50 requests, never later than 30.05 s,
    and at once when requests are pending. *)
Theorem long_poll_bounded_wait :
  (forall fuel maxWaitMs maxBatchSize s,
     (1 <= fuel)%nat ->
     maxWaitMs <= 50 * (Z.of_nat fuel - 1) ->
     exists requests s',
       waitForRequests env fuel maxWaitMs maxBatchSize s = Some (requests, s') /\
       LongPoll env (now s) maxWaitMs maxBatchSize 0 s requests s' /\
       (exists k : nat, now s' = now s + 50 * Z.of_nat k) /\
       (requests = [] ->
        maxWaitMs <= now s' - now s /\
        (0 < maxWaitMs -> now s' - now s < maxWaitMs + 50)) /\
       (requests ≠ [] ->
        now s' - now s < maxWaitMs /\
        exists s0 b, getPendingRequests maxBatchSize (bridge s0) = (requests, b) /\
                     s' = set_bridge b s0) /\
       (length requests <= Z.to_nat maxBatchSize)%nat /\
       (0 < maxWaitMs ->
        (getPendingRequests maxBatchSize (bridge s)).1 ≠ [] ->
        requests = (getPendingRequests maxBatchSize (bridge s)).1 /\
        now s' = now s) /\
       (maxWaitMs <= 0 -> requests = [] /\ s' = s)) /\
  (forall q s,
     mcpServerActive s = true -> isLongPoll q = true ->
     let maxWait :=
       Z.min (match q_maxWait q with
              | Some z => if z =? 0 then 5000 else z
              | None => 5000
              end) 30000 in
     let maxBatch :=
       Z.min (match q_maxBatch q with
              | Some z => if z =? 0 then 10 else z
              | None => 10
              end) 50 in
     exists s0 requests s',
       bridge s0 = bridge s /\ now s0 = now s /\
       waitForRequests env 601 maxWait maxBatch s0 = Some (requests, s') /\
       poll env 601 q s
       = Some (mkHttpResponse 200
                 (JObj [("requests", JArr (viewJson <$> requests));
                        ("mcpConnected", JBool true);
                        ("pluginConnected", JBool true);
                        ("batchSize", JNum (Z.of_nat (length requests)))]), s') /\
       (length requests <= 50)%nat /\
       now s <= now s' < now s + 30050 /\
       (reachable (bridge s) -> 0 < maxWait -> 0 < maxBatch ->
        pendingRequests (bridge s) ≠ [] ->
        requests = take (Z.to_nat maxBatch)
                     ((fun e => viewOf e.2) <$> pendingRequests (bridge s)) /\
        requests ≠ [] /\ now s' = now s)).
Proof.
  assert (Hloop : forall fuel maxWaitMs maxBatchSize s,
     (1 <= fuel)%nat ->
     maxWaitMs <= 50 * (Z.of_nat fuel - 1) ->
     exists requests s',
       waitForRequests env fuel maxWaitMs maxBatchSize s = Some (requests, s') /\
       LongPoll env (now s) maxWaitMs maxBatchSize 0 s requests s' /\
       (exists k : nat, now s' = now s + 50 * Z.of_nat k) /\
       (requests = [] ->
        maxWaitMs <= now s' - now s /\
        (0 < maxWaitMs -> now s' - now s < maxWaitMs + 50)) /\
       (requests ≠ [] ->
        now s' - now s < maxWaitMs /\
        exists s0 b, getPendingRequests maxBatchSize (bridge s0) = (requests, b) /\
                     s' = set_bridge b s0) /\
       (length requests <= Z.to_nat maxBatchSize)%nat /\
       (0 < maxWaitMs ->
        (getPendingRequests maxBatchSize (bridge s)).1 ≠ [] ->
        requests = (getPendingRequests maxBatchSize (bridge s)).1 /\
        now s' = now s) /\
       (maxWaitMs <= 0 -> requests = [] /\ s' = s)).
  { intros fuel maxWaitMs maxBatchSize s Hfuel Hwait.
    destruct (waitForRequests_loop_spec fuel 0 (now s) maxWaitMs maxBatchSize s)
      as (requests & s' & Hrun & Hspec); [done | unfold pollInterval; lia |].
    destruct (LongPoll_result _ _ _ _ _ _ _ Hspec)
      as (Hk & Hempty & Hsoon & Hbatch & Hlen).
    unfold pollInterval in *.
    exists requests, s'. split_and!; try done.
    - intros Hnil. split; [by apply Hempty|]. intros Hpos. apply Hsoon; [done | lia].
    - intros Hpos Hthere.
      destruct (LongPoll_first _ _ _ _ _ _ _ Hspec) as [-> ->]; [lia | done |].
      split; [done|].
      destruct (getPendingRequests maxBatchSize (bridge s)) as [rs b] eqn:Hget.
      by apply (now_checked maxBatchSize s rs b).
    - intros Hnone. apply (LongPoll_late _ _ _ _ _ _ _ Hspec). lia. }
  split; [exact Hloop|].
  intros q s Hactive Hlong maxWait maxBatch.
  destruct (trackPluginActivity_spec s) as (Hb & _ & _ & Hm & _).
  assert (Hact1 : mcpServerActive (trackPluginActivity s) = true) by congruence.
  assert (Hact2 : isMCPServerActive
            (set_lastMCPActivity (now (trackPluginActivity s))
               (trackPluginActivity s)) = true)
    by (unfold isMCPServerActive, set_lastMCPActivity; by cbn [mcpServerActive]).
  unfold poll. rewrite Hact1, Hact2, Hlong. cbn [negb].
  set (s3 := trackMCPActivity _).
  assert (Hb3 : bridge s3 = bridge s).
  { unfold s3, trackMCPActivity.
    destruct (mcpServerActive (set_lastMCPActivity _ _)); exact Hb. }
  assert (Hn3 : now s3 = now s) by (unfold now; by rewrite Hb3).
  assert (HW : maxWaitOf q = maxWait) by reflexivity.
  assert (HB : maxBatchOf q = maxBatch) by reflexivity.
  rewrite HW, HB.
  assert (HW30 : maxWait <= 30000) by (unfold maxWait; lia).
  assert (HB50 : maxBatch <= 50) by (unfold maxBatch; lia).
  destruct (Hloop 601%nat maxWait maxBatch s3)
    as (requests & s' & Hrun & _ & [k Hk] & Hempty & Hbatch & Hlen & Hfirst & Hnone);
    [lia | lia |].
  exists s3, requests, s'. rewrite Hrun. split_and!; try done.
  - by destruct requests.
  - lia.
  - lia.
  - destruct requests as [|v requests].
    + destruct (Z.lt_ge_cases 0 maxWait) as [Hpos|Hneg].
      * destruct (Hempty eq_refl) as [_ Hup]. specialize (Hup Hpos). lia.
      * destruct (Hnone Hneg) as [_ ->]. lia.
    + destruct Hbatch as [Hlt _]; [done|]. lia.
  - intros Hreach HposW HposB Hpending.
    pose proof (reachable_wf _ Hreach) as Hwf. rewrite <- Hb3 in Hwf.
    destruct (getPendingRequests_wf maxBatch (bridge s3) Hwf) as [Hget _].
    rewrite Hget in Hfirst. cbn [fst] in Hfirst. rewrite Hb3 in Hfirst.
    assert (Hne : take (Z.to_nat maxBatch)
                    ((fun e => viewOf e.2) <$> pendingRequests (bridge s)) ≠ []).
    { destruct (pendingRequests (bridge s)) as [|e m]; [done|].
      destruct (Z.to_nat maxBatch) eqn:Hn; [lia | done]. }
    destruct (Hfirst HposW Hne) as [-> Hnow]. split_and!; [done | done | lia].
Qed.
End long_poll.

Lemma long_poll_bounded_wait_witness :
  let env := fun (i : nat) (s : Server) =>
    if (i =? 1)%nat
    then set_bridge (sendRequest "a" "/api/1" (JNum 1) (bridge s)).2 s
    else s in
  let idle := setMCPServerActive true (newServer (newBridge 1000)) in
  let busy := set_bridge
                (execAll [OpSendRequest "b" "/api/2" (JNum 2)] (bridge idle)) idle in
  let q := HttpServerV2.mkPollQuery None (Some 120) None in
  (exists s', HttpServerV2.waitForRequests (fun _ s => s) 4 120 10 idle = Some ([], s') /\
              now s' = 1150) /\
  (exists s', HttpServerV2.waitForRequests env 4 120 10 idle
              = Some ([mkPendingView "a" (mkRequestBody "/api/1" (JNum 1))], s') /\
              now s' = 1100) /\
  (exists s0 s',
     HttpServerV2.poll env 601 q busy
     = Some (json (HttpServerV2.batchJson
                     [mkPendingView "b" (mkRequestBody "/api/2" (JNum 2))]), s') /\
     HttpServerV2.waitForRequests env 601 120 10 s0
     = Some ([mkPendingView "b" (mkRequestBody "/api/2" (JNum 2))], s') /\
     now s' = now busy).
Proof.
  intros env idle busy q.
  destruct (long_poll_bounded_wait env) as (Hwait & Hpoll).
  destruct (Hpoll q busy eq_refl eq_refl)
    as (s0 & requests & s' & _ & _ & Hrun & Hresp & _ & _ & Hfirst).
  assert (Hreach : reachable (bridge busy)).
  { apply (reachable_execAll _ (newBridge 1000)); [apply reachable_new|]. by simpl. }
  destruct (Hfirst Hreach) as (Hreq & _ & Hnow);
    [by vm_compute | by vm_compute | done |].
  split_and!.
  - exists (HttpServerV2.sleep (fun _ s => s) 2
              (HttpServerV2.sleep (fun _ s => s) 1
                 (HttpServerV2.sleep (fun _ s => s) 0 idle))).
    split; reflexivity.
  - eexists. split; reflexivity.
  - assert (Hreq' : requests = [mkPendingView "b" (mkRequestBody "/api/2" (JNum 2))])
      by (rewrite Hreq; reflexivity).
    subst requests. exists s0, s'. split_and!; [exact Hresp | exact Hrun | exact Hnow].
Defined.

(** * Further properties of the code *)

(** ** Registering and settling *)

Lemma delete_app_fresh {V} k (v : V) m :
  JsMap.get k m = None -> JsMap.delete k (m ++ [(k, v)]) = m.
Proof.
  induction m as [|[k0 v0] m IH]; simpl.
  - intros _. by rewrite decide_True.
  - destruct (decide (k0 = k)); [done|]. intros H. by rewrite IH.
Qed.

Lemma dropTimer_app_fresh h t ts :
  findTimer h ts = None -> dropTimer h (ts ++ [(h, t)]) = ts.
Proof.
  induction ts as [|[h0 t0] ts IH]; simpl.
  - intros _. by rewrite decide_True.
  - destruct (decide (h0 = h)); [done|]. intros H. by rewrite IH.
Qed.

Lemma wf_nextTimer_fresh w : wf w -> findTimer (nextTimer w) (timers w) = None.
Proof.
  intros Hwf. destruct (findTimer (nextTimer w) (timers w)) as [t|] eqn:Ht; [|done].
  apply (wf_timer w Hwf) in Ht as [Hlt _]. lia.
Qed.

(** X1: a request that is registered and then resolved.  [sendRequest]
    with an id that is not pending hands out a promise that is pending,
    puts the request last in the queue and raises the count by one;
    [resolveRequest] with that id then fulfils exactly that promise with
    the response and leaves map, queue and timers as they were before the
    request was registered. *)
Theorem send_then_resolve_round_trip w k ep d v :
  reachable w ->
  hasPendingRequest k w = false ->
  let p := (sendRequest k ep d w).1 in
  let w1 := (sendRequest k ep d w).2 in
  let w2 := (resolveRequest k v w1).2 in
  promises w1 !! p = Some Pending /\
  hasPendingRequest k w1 = true /\
  getPendingCount w1 = S (getPendingCount w) /\
  requestQueue w1 = requestQueue w ++ [k] /\
  (resolveRequest k v w1).1 = true /\
  promises w2 !! p = Some (Fulfilled v) /\
  pendingRequests w2 = pendingRequests w /\
  requestQueue w2 = requestQueue w /\
  timers w2 = timers w.
Proof.
  intros Hreach Hfresh p w1 w2. pose proof (reachable_wf w Hreach) as Hwf.
  apply has_false_get in Hfresh.
  pose proof (wf_sendRequest k ep d w Hwf Hfresh) as Hwf1. fold w1 in Hwf1.
  set (r := mkPendingRequest k ep d (clock w) (length (promises w)) (nextTimer w)).
  assert (Hm1 : pendingRequests w1 = pendingRequests w ++ [(k, r)]).
  { unfold w1, sendRequest. simpl. by rewrite set_fresh. }
  assert (Hk1 : JsMap.get k (pendingRequests w1) = Some r).
  { rewrite Hm1, get_app, Hfresh. simpl. by rewrite decide_True. }
  assert (Hp1 : promises w1 !! p = Some Pending).
  { unfold w1, p, sendRequest. simpl. by rewrite lookup_app_r, Nat.sub_diag. }
  assert (Hw2 : w2 = settleRequest k r (Fulfilled v) w1).
  { unfold w2. by rewrite (resolveRequest_live k r v w1 Hk1). }
  split_and!.
  - done.
  - unfold hasPendingRequest. apply has_get. by eexists.
  - unfold getPendingCount, JsMap.size. rewrite Hm1, length_app. simpl. lia.
  - done.
  - by rewrite (resolveRequest_live k r v w1 Hk1).
  - rewrite Hw2. destruct (settleRequest_spec k r (Fulfilled v) w1 Hwf1 Hk1)
      as (_ & _ & _ & Hp). exact Hp.
  - rewrite Hw2. destruct (settleRequest_fields k r (Fulfilled v) w1) as (-> & _).
    rewrite Hm1. by apply delete_app_fresh.
  - rewrite Hw2, settleRequest_eq by by apply wf_queue_NoDup.
    simpl. rewrite filter_app, filter_ne_absent.
    + rewrite filter_cons, decide_False by (intros H; by apply H).
      by rewrite filter_nil, app_nil_r.
    + by apply wf_gone_queue.
  - rewrite Hw2. destruct (settleRequest_fields k r (Fulfilled v) w1) as (_ & _ & -> & _).
    simpl. apply dropTimer_app_fresh. by apply wf_nextTimer_fresh.
Qed.

Lemma send_then_resolve_round_trip_witness :
  let w := execAll [OpSendRequest "a" "/api/1" JNull] (newBridge 0) in
  reachable w /\
  hasPendingRequest "b" w = false /\
  (sendRequest "b" "/api/2" JNull w).1 = 1%nat /\
  promises (resolveRequest "b" (JNum 7) (sendRequest "b" "/api/2" JNull w).2).2
    !! 1%nat = Some (Fulfilled (JNum 7)) /\
  requestQueue (resolveRequest "b" (JNum 7) (sendRequest "b" "/api/2" JNull w).2).2
    = ["a"].
Proof.
  intros w.
  assert (Hreach : reachable w).
  { apply reachable_execAll; [apply reachable_new|]. by simpl. }
  assert (Hfresh : hasPendingRequest "b" w = false) by reflexivity.
  destruct (send_then_resolve_round_trip w "b" "/api/2" JNull (JNum 7) Hreach Hfresh)
    as (_ & _ & _ & _ & _ & Hp & _ & Hq & _).
  split_and!; [exact Hreach | exact Hfresh | reflexivity | exact Hp | exact Hq].
Defined.

(** ** Timers and promises are accounted for *)

Lemma StronglySorted_lt_NoDup (l : list nat) : StronglySorted lt l -> NoDup l.
Proof.
  induction 1 as [|x l Hs IH Hx]; [apply NoDup_nil_2|].
  apply NoDup_cons. split; [|done].
  intros Hin. rewrite Forall_forall in Hx. specialize (Hx x Hin). lia.
Qed.

(** X2: no timer leaks.  In every state the bridge can reach, the armed
    timers are exactly the timers of the pending requests, one each: there
    are as many armed timers as pending requests, and none when nothing is
    pending. *)
Theorem armed_timers_match_pending w :
  reachable w ->
  fst <$> timers w ≡ₚ (fun e => timeoutId e.2) <$> pendingRequests w /\
  length (timers w) = getPendingCount w /\
  (getPendingCount w = 0%nat -> timers w = []).
Proof.
  intros Hreach. pose proof (reachable_wf w Hreach) as Hwf.
  assert (Hperm : fst <$> timers w ≡ₚ (fun e => timeoutId e.2) <$> pendingRequests w).
  { apply NoDup_Permutation.
    - apply (wf_handles w Hwf).
    - apply StronglySorted_lt_NoDup, (wf_sorted w Hwf).
    - intros h. split.
      + intros Hin. apply list_elem_of_fmap in Hin as ([h' t] & -> & Hin). simpl.
        apply (elem_findTimer _ _ _ (wf_handles w Hwf)) in Hin.
        destruct (wf_timer w Hwf _ _ Hin) as (_ & r & Hr & <-).
        apply get_Some_elem in Hr.
        by apply (list_elem_of_fmap_2 (fun e => timeoutId e.2)) in Hr.
      + intros Hin. apply list_elem_of_fmap in Hin as ([k r] & -> & Hin). simpl.
        apply (elem_get _ _ _ (wf_nodup w Hwf)) in Hin.
        destruct (wf_entry w Hwf _ _ Hin) as (_ & _ & Ht).
        apply findTimer_elem in Ht. by apply (list_elem_of_fmap_2 fst) in Ht. }
  assert (Hlen : length (timers w) = getPendingCount w).
  { apply Permutation_length in Hperm. rewrite !length_fmap in Hperm.
    by unfold getPendingCount, JsMap.size. }
  split_and!; [done | done |].
  intros Hzero. rewrite Hzero in Hlen. by destruct (timers w).
Qed.

Lemma armed_timers_match_pending_witness :
  let w := execAll [OpSendRequest "a" "/api/1" JNull;
                    OpSendRequest "b" "/api/2" JNull;
                    OpRejectRequest "a" (JStr "no");
                    OpSendRequest "c" "/api/3" JNull] (newBridge 0) in
  reachable w /\ length (timers w) = 2%nat /\ getPendingCount w = 2%nat.
Proof.
  intros w.
  assert (Hreach : reachable w).
  { apply reachable_execAll; [apply reachable_new|]. by simpl. }
  destruct (armed_timers_match_pending w Hreach) as (_ & Hlen & _).
  split_and!; [exact Hreach | reflexivity | by rewrite <- Hlen].
Defined.

Lemma accounted_settleRequest k r outcome w :
  wf w -> accounted w -> JsMap.get k (pendingRequests w) = Some r ->
  outcome ≠ Pending -> accounted (settleRequest k r outcome w).
Proof.
  intros Hwf Hacc Hk Hout p.
  destruct (settleRequest_fields k r outcome w) as (-> & -> & _).
  destruct (wf_entry w Hwf k r Hk) as (_ & Hpending & _).
  intros Hp. destruct (decide (settlement r = p)) as [<-|Hne].
  - rewrite settle_lookup_eq in Hp by done. congruence.
  - rewrite settle_lookup_ne in Hp by done.
    destruct (Hacc p Hp) as (k' & r' & Hk' & Hs).
    exists k', r'. split; [|done]. rewrite get_delete_ne; [done|].
    intros <-. apply Hne. congruence.
Qed.

Lemma accounted_sendRequest k ep d w :
  JsMap.get k (pendingRequests w) = None ->
  accounted w -> accounted (sendRequest k ep d w).2.
Proof.
  intros Hk Hacc p. unfold sendRequest. simpl. rewrite set_fresh by done.
  intros Hp. destruct (decide (p < length (promises w))%nat) as [Hlt|Hge].
  - rewrite lookup_app_l in Hp by done.
    destruct (Hacc p Hp) as (k' & r' & Hk' & Hs).
    exists k', r'. split; [|done]. by rewrite get_app, Hk'.
  - assert (p = length (promises w)) as ->.
    { apply lookup_lt_Some in Hp. rewrite length_app in Hp. simpl in Hp. lia. }
    exists k, (mkPendingRequest k ep d (clock w) (length (promises w)) (nextTimer w)).
    split; [|reflexivity]. rewrite get_app, Hk. simpl.
    by rewrite decide_True.
Qed.

Lemma accounted_resolveOne acc resp :
  wf acc.2 -> accounted acc.2 -> accounted (resolveOne acc resp).2.
Proof.
  destruct acc as [t w]. intros Hwf Hacc. cbn [snd] in Hwf, Hacc.
  destruct (JsMap.get (resp_requestId resp) (pendingRequests w)) as [r|] eqn:Hr.
  - destruct (resolveOne_live t w resp r Hwf Hr) as (outcome & Hout & ->). cbn [snd].
    apply accounted_settleRequest; try done.
    rewrite Hout. by destruct (truthy _).
  - by rewrite (resolveOne_gone t w resp Hr).
Qed.

Lemma accounted_resolveRequests_acc responses acc :
  wf acc.2 -> accounted acc.2 ->
  accounted (fold_left resolveOne responses acc).2.
Proof.
  revert acc. induction responses as [|resp rest IH]; intros acc Hwf Hacc; [done|].
  simpl. apply IH; [by apply wf_resolveOne | by apply accounted_resolveOne].
Qed.

Lemma accounted_cleanup_fold now es w :
  wf w -> accounted w -> NoDup (JsMap.keys es) ->
  (forall k r, (k, r) ∈ es -> JsMap.get k (pendingRequests w) = Some r) ->
  accounted (fold_left (cleanupOne now) es w).
Proof.
  revert w. induction es as [|[k r] es IH]; intros w Hwf Hacc Hnd Hes; simpl; [done|].
  apply NoDup_cons in Hnd as [Hk Hnd].
  assert (Hkr : JsMap.get k (pendingRequests w) = Some r)
    by apply Hes, list_elem_of_here.
  apply IH; [| |done|].
  - destruct (requestTimeout <? now - timestamp r); [|done].
    by apply wf_settleRequest.
  - destruct (requestTimeout <? now - timestamp r); [|done].
    by apply accounted_settleRequest.
  - intros k' r' Hin.
    assert (Hne : k ≠ k').
    { intros ->. apply Hk. by apply (list_elem_of_fmap_2 fst) in Hin. }
    specialize (Hes k' r' (list_elem_of_further _ _ _ Hin)).
    destruct (requestTimeout <? now - timestamp r); [|done].
    destruct (settleRequest_fields k r (Rejected (JErr "Request timeout")) w) as (-> & _).
    by rewrite get_delete_ne.
Qed.

(** [resolve] and [reject] never make a promise pending again. *)
Lemma settle_pending_inv p p' outcome store :
  outcome ≠ Pending ->
  settle p outcome store !! p' = Some Pending -> store !! p' = Some Pending.
Proof.
  intros Hout. destruct (decide (p = p')) as [<-|Hne].
  - unfold settle. destruct (store !! p) as [[]|] eqn:Hp; try done; congruence.
  - by rewrite settle_lookup_ne.
Qed.

Lemma clear_fold_pending_inv es w p :
  promises (fold_left clearOne es w) !! p = Some Pending ->
  promises w !! p = Some Pending.
Proof.
  revert w. induction es as [|[k r] es IH]; intros w; [done|].
  change (fold_left clearOne ((k, r) :: es) w)
    with (fold_left clearOne es (clearOne w (k, r))).
  intros Hp. apply IH in Hp. simpl in Hp. by apply settle_pending_inv in Hp.
Qed.

Lemma accounted_clearAllPendingRequests w :
  accounted w -> accounted (clearAllPendingRequests w).
Proof.
  intros Hacc p. unfold clearAllPendingRequests. simpl. intros Hp. exfalso.
  pose proof (clear_fold_pending_inv _ _ _ Hp) as Hp0.
  destruct (Hacc p Hp0) as (k & r & Hk & <-).
  apply get_Some_elem in Hk.
  rewrite (clear_fold_promise _ _ _ _ Hk Hp0) in Hp. discriminate.
Qed.

Lemma reachable_accounted w : reachable w -> accounted w.
Proof.
  induction 1 as [now|op w Hreach IH Hen].
  - intros p. simpl. by rewrite lookup_nil.
  - pose proof (reachable_wf w Hreach) as Hwf.
    destruct op as [rid ep d| |n|rid v|rid e|responses|h| | |dt]; simpl in *.
    + apply accounted_sendRequest; [by apply has_false_get | done].
    + by rewrite getPendingRequest_wf.
    + by rewrite (proj1 (getPendingRequests_wf n w Hwf)).
    + unfold resolveRequest.
      destruct (JsMap.get rid (pendingRequests w)) eqn:Hr; [|done].
      by apply accounted_settleRequest.
    + unfold rejectRequest.
      destruct (JsMap.get rid (pendingRequests w)) eqn:Hr; [|done].
      by apply accounted_settleRequest.
    + by apply (accounted_resolveRequests_acc responses (mkTally 0 0, w)).
    + destruct Hen as (t & Ht & _).
      destruct (fireTimer_settleRequest h t w Hwf Ht) as (r & Hr & _ & _ & _ & ->).
      by apply accounted_settleRequest.
    + apply accounted_cleanup_fold; [done | done | apply (wf_nodup w Hwf) |].
      intros k r. apply elem_get, (wf_nodup w Hwf).
    + by apply accounted_clearAllPendingRequests.
    + done.
Qed.

(** X3: no caller is left hanging.  In every state the bridge can reach, a
    promise handed out by [sendRequest] is pending exactly as long as its
    request is in the map: every pending promise belongs to a pending
    request (which can still be answered, time out or be cleared), and the
    promise of every pending request is still pending. *)
Theorem pending_promises_are_pending_requests w p :
  reachable w ->
  promises w !! p = Some Pending <->
  exists k r, JsMap.get k (pendingRequests w) = Some r /\ settlement r = p.
Proof.
  intros Hreach. split.
  - by apply reachable_accounted.
  - intros (k & r & Hk & <-).
    by apply (wf_entry w (reachable_wf w Hreach) k r Hk).
Qed.

Lemma pending_promises_are_pending_requests_witness :
  let w := execAll [OpSendRequest "a" "/api/1" JNull;
                    OpSendRequest "b" "/api/2" JNull;
                    OpAdvance 40000;
                    OpCleanupOldRequests;
                    OpSendRequest "c" "/api/3" JNull] (newBridge 0) in
  reachable w /\
  promises w = [timeoutError; timeoutError; Pending] /\
  exists k r, JsMap.get k (pendingRequests w) = Some r /\ settlement r = 2%nat.
Proof.
  intros w.
  assert (Hreach : reachable w).
  { apply reachable_execAll; [apply reachable_new|]. by simpl. }
  split_and!; [exact Hreach | reflexivity |].
  by apply (pending_promises_are_pending_requests w 2%nat Hreach).
Defined.

(** ** What the sweep and the timers spare *)

Lemma cleanup_fold_spared now es w k r :
  wf w -> NoDup (JsMap.keys es) ->
  (forall k r, (k, r) ∈ es -> JsMap.get k (pendingRequests w) = Some r) ->
  JsMap.get k (pendingRequests w) = Some r -> ¬ expired now r ->
  JsMap.get k (pendingRequests (fold_left (cleanupOne now) es w)) = Some r.
Proof.
  revert w. induction es as [|[k0 r0] es IH]; intros w Hwf Hnd Hes Hk Hyoung; simpl;
    [done|].
  apply NoDup_cons in Hnd as [Hk0 Hnd].
  assert (Hkr0 : JsMap.get k0 (pendingRequests w) = Some r0)
    by apply Hes, list_elem_of_here.
  destruct (requestTimeout <? now - timestamp r0) eqn:Hexp.
  - assert (Hne : k0 ≠ k).
    { intros ->. apply Hyoung. unfold expired. apply Z.ltb_lt in Hexp. congruence. }
    apply IH; try done.
    + by apply wf_settleRequest.
    + intros k' r' Hin.
      assert (Hne' : k0 ≠ k').
      { intros ->. apply Hk0. by apply (list_elem_of_fmap_2 fst) in Hin. }
      destruct (settleRequest_fields k0 r0 (Rejected (JErr "Request timeout")) w)
        as (-> & _).
      rewrite get_delete_ne by done. by apply Hes, list_elem_of_further.
    + destruct (settleRequest_fields k0 r0 (Rejected (JErr "Request timeout")) w)
        as (-> & _).
      by rewrite get_delete_ne.
  - apply IH; try done. intros k' r' Hin. by apply Hes, list_elem_of_further.
Qed.

Lemma cleanup_fold_clock now es w :
  clock (fold_left (cleanupOne now) es w) = clock w.
Proof.
  revert w. induction es as [|[k r] es IH]; intros w; [done|]. simpl.
  rewrite IH. destruct (requestTimeout <? now - timestamp r); [|done].
  by destruct (settleRequest_fields k r (Rejected (JErr "Request timeout")) w)
    as (_ & _ & _ & _ & ->).
Qed.

(** X4: the sweep takes the expired requests and nothing else.  In every
    reachable state [cleanupOldRequests] leaves in the map, and in the
    queue, exactly the requests that are not older than 30 s, in their
    order; these keep their pending promise and their armed timer; and a
    second sweep at the same time changes nothing. *)
Theorem cleanup_keeps_the_young w :
  reachable w ->
  let w' := cleanupOldRequests w in
  pendingRequests w'
    = filter (fun e => clock w - timestamp e.2 <= requestTimeout)
        (pendingRequests w) /\
  requestQueue w' = JsMap.keys (pendingRequests w') /\
  (forall k r, JsMap.get k (pendingRequests w') = Some r ->
     promises w' !! settlement r = Some Pending /\
     is_Some (findTimer (timeoutId r) (timers w'))) /\
  cleanupOldRequests w' = w'.
Proof.
  intros Hreach w'. pose proof (reachable_wf w Hreach) as Hwf.
  pose proof (wf_cleanupOldRequests w Hwf) as Hwf'. fold w' in Hwf'.
  destruct (shrinks_cleanupOldRequests w) as (Hm & _ & _ & Hsub). fold w' in Hm, Hsub.
  assert (Hlive : forall k r, (k, r) ∈ pendingRequests w ->
            JsMap.get k (pendingRequests w) = Some r).
  { intros k r. apply elem_get, (wf_nodup w Hwf). }
  assert (Hfilter : pendingRequests w'
            = filter (fun e => clock w - timestamp e.2 <= requestTimeout)
        (pendingRequests w)).
  { rewrite (sublist_NoDup_filter fst _ _ Hsub (wf_nodup w Hwf)) at 1.
    apply filter_ext_elem. intros [k r] Hin. simpl.
    pose proof (Hlive k r Hin) as Hk.
    change (fst <$> pendingRequests w') with (JsMap.keys (pendingRequests w')).
    rewrite keys_elem_get. split.
    - intros [r' Hr']. apply Z.nlt_ge. intros Hexp.
      destruct (cleanup_fold_expired (clock w) (pendingRequests w) w k r Hwf
                  (wf_nodup w Hwf) Hlive Hin Hexp) as (Hgone & _).
      fold (cleanupOldRequests w) in Hgone. fold w' in Hgone. congruence.
    - intros Hyoung. exists r.
      apply (cleanup_fold_spared (clock w) (pendingRequests w) w k r Hwf
               (wf_nodup w Hwf) Hlive Hk). unfold expired. lia. }
  split_and!.
  - done.
  - apply (wf_queue w' Hwf').
  - intros k r Hk. destruct (wf_entry w' Hwf' k r Hk) as (_ & Hp & Ht).
    split; [done | by eexists].
  - unfold cleanupOldRequests at 1. apply cleanup_fold_noop.
    intros k r Hin. unfold w' at 1. unfold cleanupOldRequests.
    rewrite cleanup_fold_clock. rewrite Hfilter in Hin.
    apply list_elem_of_filter in Hin as [Hyoung _]. unfold expired.
    simpl in Hyoung. lia.
Qed.

Lemma cleanup_keeps_the_young_witness :
  let w := execAll [OpSendRequest "a" "/api/1" JNull; OpAdvance 20000;
                    OpSendRequest "b" "/api/2" JNull; OpAdvance 15000]
             (newBridge 0) in
  reachable w /\
  requestQueue (cleanupOldRequests w) = ["b"] /\
  promises (cleanupOldRequests w) = [timeoutError; Pending] /\
  cleanupOldRequests (cleanupOldRequests w) = cleanupOldRequests w.
Proof.
  intros w.
  assert (Hreach : reachable w).
  { apply reachable_execAll; [apply reachable_new|]. by simpl. }
  destruct (cleanup_keeps_the_young w Hreach) as (_ & _ & _ & Hidem).
  split; [exact Hreach|]. split; [reflexivity|]. split; [reflexivity|exact Hidem].
Defined.

Lemma shrinks_runTimers fuel t w : shrinks w (runTimers fuel t w).
Proof.
  revert w. induction fuel as [|fuel IH]; intros w; simpl; [apply shrinks_refl|].
  destruct (nextDue t (timers w)) as [[h tm]|]; [|apply shrinks_refl].
  eapply shrinks_trans; [apply shrinks_set_clock|].
  eapply shrinks_trans; [apply shrinks_fireTimer | apply IH].
Qed.

Lemma wf_runTimers fuel t w : wf w -> wf (runTimers fuel t w).
Proof.
  revert w. induction fuel as [|fuel IH]; intros w Hwf; simpl; [done|].
  destruct (nextDue t (timers w)) as [[h tm]|]; [|done].
  by apply IH, wf_fireTimer, wf_set_clock.
Qed.

Lemma runTimers_spared fuel t w k r :
  wf w -> JsMap.get k (pendingRequests w) = Some r ->
  t < timestamp r + requestTimeout ->
  JsMap.get k (pendingRequests (runTimers fuel t w)) = Some r.
Proof.
  revert w. induction fuel as [|fuel IH]; intros w Hwf Hk Hyoung; simpl; [done|].
  destruct (nextDue t (timers w)) as [[h tm]|] eqn:Hnext; [|done].
  apply nextDue_Some in Hnext as [Hin Hdue].
  apply (elem_findTimer _ _ _ (wf_handles w Hwf)) in Hin.
  set (w0 := set_clock (Z.max (clock w) (due tm)) w).
  assert (Hwf0 : wf w0) by by apply wf_set_clock.
  destruct (fireTimer_settleRequest h tm w0 Hwf0 Hin) as (r' & Hr' & _ & Hd & _ & Hfire).
  apply IH; [by apply wf_fireTimer| |done].
  rewrite Hfire.
  destruct (settleRequest_fields (timer_requestId tm) r' timeoutError w0) as (-> & _).
  rewrite get_delete_ne; [done|].
  intros Heq. rewrite Heq in Hr'. simpl in Hr'.
  assert (r' = r) as -> by congruence. lia.
Qed.

(** X5: the timers reject the requests that are 30 s old and no others.
    When the clock moves on by [ms] and the timers due on the way fire, the
    map and the queue keep exactly the requests registered less than 30 s
    before the new time, in their order, each with its promise pending and
    its timer armed. *)
Theorem timers_spare_the_young w ms :
  reachable w ->
  let w' := advanceTimersByTime ms w in
  pendingRequests w'
    = filter (fun e => clock w + ms < timestamp e.2 + requestTimeout)
        (pendingRequests w) /\
  requestQueue w' = JsMap.keys (pendingRequests w') /\
  (forall k r, JsMap.get k (pendingRequests w') = Some r ->
     promises w' !! settlement r = Some Pending /\
     is_Some (findTimer (timeoutId r) (timers w'))).
Proof.
  intros Hreach w'. pose proof (reachable_wf w Hreach) as Hwf.
  set (t := clock w + ms).
  set (w1 := runTimers (length (timers w)) t w).
  assert (Hw' : w' = set_clock t w1) by done.
  destruct (shrinks_runTimers (length (timers w)) t w) as (Hm & _ & _ & Hsub).
  fold w1 in Hm, Hsub.
  assert (Hwf' : wf w') by (rewrite Hw'; by apply wf_set_clock, wf_runTimers).
  assert (Hpend : pendingRequests w' = pendingRequests w1) by by rewrite Hw'.
  split_and!.
  - rewrite Hpend.
    rewrite (sublist_NoDup_filter fst _ _ Hsub (wf_nodup w Hwf)) at 1.
    apply filter_ext_elem. intros [k r] Hin. simpl.
    pose proof (elem_get k r _ (wf_nodup w Hwf) Hin) as Hk.
    change (fst <$> pendingRequests w1) with (JsMap.keys (pendingRequests w1)).
    rewrite keys_elem_get. split.
    + intros [r' Hr'].
      assert (r' = r) as -> by (apply Hm in Hr'; congruence).
      destruct (advanceTimersByTime_spec ms w k r Hwf Hk) as (_ & Hc & Hall & _).
      fold w' in Hc, Hall. rewrite <- Hpend in Hr'.
      specialize (Hall k r Hr'). fold t in Hc. lia.
    + intros Hyoung. exists r. by apply runTimers_spared.
  - apply (wf_queue w' Hwf').
  - intros k r Hk. destruct (wf_entry w' Hwf' k r Hk) as (_ & Hp & Ht).
    split; [done | by eexists].
Qed.

Lemma timers_spare_the_young_witness :
  let w := execAll [OpSendRequest "a" "/api/1" JNull; OpAdvance 20000;
                    OpSendRequest "b" "/api/2" JNull]
             (newBridge 0) in
  reachable w /\
  requestQueue (advanceTimersByTime 15000 w) = ["b"] /\
  promises (advanceTimersByTime 15000 w) = [timeoutError; Pending] /\
  pendingRequests (advanceTimersByTime 15000 w)
    = filter (fun e => clock w + 15000 < timestamp e.2 + requestTimeout)
        (pendingRequests w).
Proof.
  intros w.
  assert (Hreach : reachable w).
  { apply reachable_execAll; [apply reachable_new|]. by simpl. }
  destruct (timers_spare_the_young w 15000 Hreach) as (Hf & _ & _).
  split; [exact Hreach|]. split; [reflexivity|]. split; [reflexivity|exact Hf].
Defined.

(** ** The plugin and the single-request server *)

Lemma clock_resolveRequest k v w : clock (resolveRequest k v w).2 = clock w.
Proof.
  destruct (JsMap.get k (pendingRequests w)) as [r|] eqn:Hk.
  - rewrite (resolveRequest_live k r v w Hk). cbn [snd].
    by destruct (settleRequest_fields k r (Fulfilled v) w) as (_ & _ & _ & _ & ->).
  - by rewrite (resolveRequest_gone k v w Hk).
Qed.

Lemma clock_rejectRequest k e w : clock (rejectRequest k e w).2 = clock w.
Proof.
  destruct (JsMap.get k (pendingRequests w)) as [r|] eqn:Hk.
  - rewrite (rejectRequest_live k r e w Hk). cbn [snd].
    by destruct (settleRequest_fields k r (Rejected e) w) as (_ & _ & _ & _ & ->).
  - by rewrite (rejectRequest_gone k e w Hk).
Qed.

Lemma clock_clearAllPendingRequests w : clock (clearAllPendingRequests w) = clock w.
Proof.
  unfold clearAllPendingRequests. simpl.
  by destruct (clear_fold_frame (pendingRequests w) w) as (_ & _ & _ & ->).
Qed.

Lemma clock_getPendingRequest w : clock (getPendingRequest w).2 = clock w.
Proof. unfold getPendingRequest. by destruct (getPendingRequest_loop _ _). Qed.

Lemma v1_live_track s :
  HttpServerV1.isMCPServerActive (trackPluginActivity s)
  = HttpServerV1.isMCPServerActive s.
Proof.
  destruct (trackPluginActivity_spec s) as (Hb & _ & _ & Hm & Ha & _).
  unfold HttpServerV1.isMCPServerActive, now. by rewrite Hm, Ha, Hb.
Qed.

Lemma poll_v1_down s :
  HttpServerV1.isMCPServerActive s = false ->
  HttpServerV1.poll s
  = (statusJson 503
       (JObj [("error", JStr "MCP server not connected");
              ("pluginConnected", JBool true);
              ("mcpConnected", JBool false);
              ("request", JNull)]),
     trackPluginActivity s).
Proof.
  intros Hdown. unfold HttpServerV1.poll. by rewrite v1_live_track, Hdown.
Qed.

Lemma response_v1_frame b s :
  mcpServerActive (HttpServerV1.response b s).2 = mcpServerActive s /\
  lastMCPActivity (HttpServerV1.response b s).2 = lastMCPActivity s /\
  now (HttpServerV1.response b s).2 = now s.
Proof.
  unfold HttpServerV1.response, rejectMaybe, resolveMaybe, now.
  destruct (truthy (body_error b)), (body_requestId b) as [| |? |? |rid |? |? |?];
    try done.
  - pose proof (clock_rejectRequest rid (body_error b) (bridge s)).
    by destruct (rejectRequest _ _ _).
  - pose proof (clock_resolveRequest rid (body_response b) (bridge s)).
    by destruct (resolveRequest _ _ _).
Qed.

Lemma serve_v1_down op s :
  forward op ->
  HttpServerV1.isMCPServerActive s = false ->
  mcpServerActive (PluginV1.serve op s) = mcpServerActive s /\
  lastMCPActivity (PluginV1.serve op s) = lastMCPActivity s /\
  now s <= now (PluginV1.serve op s).
Proof.
  intros Hfw Hdown. destruct op as [| | |b|dt]; unfold PluginV1.serve.
  - unfold now. simpl. split_and!; [done|done|lia].
  - unfold now, disconnect. cbn -[clearAllPendingRequests].
    rewrite clock_clearAllPendingRequests. split_and!; [done|done|lia].
  - rewrite (poll_v1_down s Hdown). cbn [snd].
    destruct (trackPluginActivity_spec s) as (Hb & _ & _ & Hm & Ha & _).
    unfold now. rewrite Hb. split_and!; [done|done|lia].
  - destruct (response_v1_frame b s) as (-> & -> & ->). split_and!; [done|done|lia].
  - simpl in Hfw. unfold now. simpl. split_and!; [done|done|lia].
Qed.

Lemma serveAll_v1_down ops s :
  Forall forward ops ->
  HttpServerV1.isMCPServerActive s = false ->
  mcpServerActive (PluginV1.serveAll ops s) = mcpServerActive s /\
  lastMCPActivity (PluginV1.serveAll ops s) = lastMCPActivity s /\
  now s <= now (PluginV1.serveAll ops s).
Proof.
  revert s. induction ops as [|op ops IH]; intros s Hfw Hdown.
  - simpl. split_and!; [done|done|lia].
  - apply Forall_cons in Hfw as [Hop Hfw].
    destruct (serve_v1_down op s Hop Hdown) as (Hm & Ha & Hn).
    assert (Hdown' : HttpServerV1.isMCPServerActive (PluginV1.serve op s) = false).
    { unfold HttpServerV1.isMCPServerActive in *. rewrite Hm, Ha.
      destruct (mcpServerActive s); [|done]. simpl in *.
      apply Z.ltb_ge. apply Z.ltb_ge in Hdown. lia. }
    destruct (IH _ Hfw Hdown') as (Hm' & Ha' & Hn').
    change (PluginV1.serveAll (op :: ops) s)
      with (PluginV1.serveAll ops (PluginV1.serve op s)).
    rewrite Hm', Ha', Hm, Ha. split_and!; [done|done|lia].
Qed.

(** X6: nothing the plugin does revives the single-request server.  Once
    [isMCPServerActive] is false -- the server was never activated, or the
    dispatcher has been silent for 15 s -- it stays false through every
    sequence of [/ready], [/disconnect], [/poll] and [/response] requests
    and waits, and each poll of the sequence and after it is answered 503
    with [request: null]: [/poll] refreshes [lastMCPActivity] only after
    the liveness test has passed. *)
Theorem plugin_cannot_revive_v1 s ops :
  HttpServerV1.isMCPServerActive s = false ->
  Forall forward ops ->
  let s' := PluginV1.serveAll ops s in
  HttpServerV1.isMCPServerActive s' = false /\
  mcpServerActive s' = mcpServerActive s /\
  lastMCPActivity s' = lastMCPActivity s /\
  status (HttpServerV1.poll s').1 = 503 /\
  field "request" (body (HttpServerV1.poll s').1) = Some JNull /\
  bridge (HttpServerV1.poll s').2 = bridge s'.
Proof.
  intros Hdown Hfw s'.
  destruct (serveAll_v1_down ops s Hfw Hdown) as (Hm & Ha & Hn). fold s' in Hm, Ha, Hn.
  assert (Hdown' : HttpServerV1.isMCPServerActive s' = false).
  { unfold HttpServerV1.isMCPServerActive in *. rewrite Hm, Ha.
    destruct (mcpServerActive s); [|done]. simpl in *.
    apply Z.ltb_ge. apply Z.ltb_ge in Hdown. lia. }
  rewrite (poll_v1_down s' Hdown'). simpl.
  destruct (trackPluginActivity_spec s') as (Hb & _).
  by split_and!.
Qed.

Lemma plugin_cannot_revive_v1_witness :
  let s := elapse 15000 (setMCPServerActive true (newServer (newBridge 0))) in
  let ops := [PluginReady; PluginPoll; PluginWait 100;
              PluginResponse (mkResponseBody (JStr "a") JNull JUndefined JUndefined);
              PluginPoll] in
  HttpServerV1.isMCPServerActive (PluginV1.serveAll ops s) = false /\
  status (HttpServerV1.poll (PluginV1.serveAll ops s)).1 = 503.
Proof.
  intros s ops.
  assert (Hfw : Forall forward ops).
  { repeat (apply Forall_cons; split; [by simpl|]). apply Forall_nil_2. }
  destruct (plugin_cannot_revive_v1 s ops eq_refl Hfw) as (H1 & _ & _ & H2 & _).
  split; [exact H1 | exact H2].
Defined.

Lemma set_bridge_id s : set_bridge (bridge s) s = s.
Proof. by destruct s. Qed.

Lemma poll_v1_up s :
  wf (bridge s) ->
  mcpServerActive s = true -> now s - lastMCPActivity s < 15000 ->
  HttpServerV1.poll s
  = (json (match head (pendingRequests (bridge s)) with
           | Some (_, r) =>
               JObj [("request", requestBodyJson (mkRequestBody (endpoint r) (data r)));
                     ("requestId", JStr (id r));
                     ("mcpConnected", JBool true);
                     ("pluginConnected", JBool true)]
           | None =>
               JObj [("request", JNull);
                     ("mcpConnected", JBool true);
                     ("pluginConnected", JBool true)]
           end),
     set_lastMCPActivity (now s) (trackPluginActivity s)).
Proof.
  intros Hwf Hflag Hrecent.
  destruct (trackPluginActivity_spec s) as (Hb & _ & _ & Hm & Ha & _).
  unfold HttpServerV1.poll. rewrite v1_live_track.
  unfold HttpServerV1.isMCPServerActive. rewrite Hflag.
  assert (Hlt : (now s - lastMCPActivity s <? 15000) = true) by by apply Z.ltb_lt.
  rewrite Hlt. cbn [andb negb].
  unfold trackMCPActivity. rewrite Hm, Hflag.
  assert (Hnow : now (trackPluginActivity s) = now s) by (unfold now; by rewrite Hb).
  rewrite Hnow.
  set (s2 := set_lastMCPActivity (now s) (trackPluginActivity s)).
  assert (Hb2 : bridge s2 = bridge s) by done.
  assert (Hwf2 : wf (bridge s2)) by by rewrite Hb2.
  rewrite (getPendingRequest_wf _ Hwf2), set_bridge_id, Hb2.
  by destruct (pendingRequests (bridge s)) as [|[k r] m].
Qed.

(** X7: the single-request server hands the oldest request out again and
    again.  While the server is live, [GET /poll] answers 200 with the
    request at the head of the ledger -- or [request: null] when there is
    none -- and takes nothing off the bridge: map, queue, promises and
    timers are as before.  The poll refreshes [lastMCPActivity], so a
    plugin that polls again within 15 s finds the server live and, as long
    as nothing else happens, is given the same answer. *)
Theorem poll_v1_redelivers s dt :
  reachable (bridge s) ->
  mcpServerActive s = true -> now s - lastMCPActivity s < 15000 ->
  dt < 15000 ->
  let resp := (HttpServerV1.poll s).1 in
  let s' := (HttpServerV1.poll s).2 in
  status resp = 200 /\
  field "mcpConnected" (body resp) = Some (JBool true) /\
  match head (pendingRequests (bridge s)) with
  | Some (k, r) =>
      field "requestId" (body resp) = Some (JStr k) /\
      field "request" (body resp)
        = Some (JObj [("endpoint", JStr (endpoint r)); ("data", data r)])
  | None =>
      field "requestId" (body resp) = None /\
      field "request" (body resp) = Some JNull
  end /\
  bridge s' = bridge s /\
  lastMCPActivity s' = now s /\
  HttpServerV1.isMCPServerActive (elapse dt s') = true /\
  (HttpServerV1.poll (elapse dt s')).1 = resp.
Proof.
  intros Hreach Hflag Hrecent Hdt resp s'.
  pose proof (reachable_wf _ Hreach) as Hwf.
  destruct (trackPluginActivity_spec s) as (Hb & _ & _ & Hm & Ha & _).
  assert (Hpoll := poll_v1_up s Hwf Hflag Hrecent).
  assert (Hs' : s' = set_lastMCPActivity (now s) (trackPluginActivity s))
    by (unfold s'; by rewrite Hpoll).
  assert (Hresp : resp = (HttpServerV1.poll s).1) by done.
  rewrite Hpoll in Hresp. cbn [fst] in Hresp.
  assert (Hbs' : bridge s' = bridge s) by (by rewrite Hs').
  assert (Hwf2 : wf (bridge (elapse dt s'))).
  { unfold elapse. simpl. rewrite Hbs'. by apply wf_advance. }
  assert (Hflag2 : mcpServerActive (elapse dt s') = true).
  { rewrite Hs'. unfold elapse, set_bridge, set_lastMCPActivity.
    cbn [mcpServerActive]. by rewrite Hm. }
  assert (Hlast2 : lastMCPActivity (elapse dt s') = now s) by (by rewrite Hs').
  assert (Hnow2 : now (elapse dt s') = now s + dt).
  { unfold now, elapse. simpl. by rewrite Hbs'. }
  assert (Hrecent2 : now (elapse dt s') - lastMCPActivity (elapse dt s') < 15000)
    by (rewrite Hnow2, Hlast2; lia).
  split_and!.
  - by rewrite Hresp.
  - rewrite Hresp. by destruct (head (pendingRequests (bridge s))) as [[k r]|].
  - rewrite Hresp.
    destruct (pendingRequests (bridge s)) as [|[k r] m] eqn:Hpend; [done|].
    simpl. destruct (wf_entry _ Hwf k r) as (-> & _); [|done].
    rewrite Hpend. simpl. by rewrite decide_True.
  - done.
  - by rewrite Hs'.
  - unfold HttpServerV1.isMCPServerActive. rewrite Hflag2. simpl.
    by apply Z.ltb_lt.
  - rewrite (poll_v1_up _ Hwf2 Hflag2 Hrecent2). cbn [fst].
    rewrite Hresp. unfold elapse. simpl. by rewrite Hbs'.
Qed.

Lemma poll_v1_redelivers_witness :
  let s := setMCPServerActive true
             (newServer (execAll [OpSendRequest "a" "/api/1" JNull;
                                  OpSendRequest "b" "/api/2" JNull] (newBridge 0))) in
  field "requestId" (body (HttpServerV1.poll s).1) = Some (JStr "a") /\
  (HttpServerV1.poll (elapse 14999 (HttpServerV1.poll s).2)).1
    = (HttpServerV1.poll s).1.
Proof.
  intros s.
  assert (Hreach : reachable (bridge s)).
  { apply (reachable_execAll _ (newBridge 0)); [apply reachable_new|]. by simpl. }
  destruct (poll_v1_redelivers s 14999 Hreach eq_refl ltac:(by simpl) ltac:(lia))
    as (_ & _ & Hhead & _ & _ & _ & Hagain).
  split; [exact (proj1 Hhead) | exact Hagain].
Defined.

(** ** Answering what was polled *)

Lemma batchMisses_all_live live responses :
  NoDup (resp_requestId <$> responses) ->
  (forall k, k ∈ resp_requestId <$> responses -> k ∈ live) ->
  batchMisses live responses = 0%nat.
Proof.
  revert live. induction responses as [|resp rest IH]; intros live Hnd Hlive; [done|].
  rewrite fmap_cons in Hnd, Hlive. apply NoDup_cons in Hnd as [Hfresh Hnd].
  cbn [batchMisses]. rewrite decide_True by apply Hlive, list_elem_of_here.
  apply IH; [done|]. intros k Hk. apply list_elem_of_filter. split.
  - intros ->. by apply Hfresh.
  - by apply Hlive, list_elem_of_further.
Qed.

Lemma resolveOne_after acc resp :
  JsMap.get (resp_requestId resp) (pendingRequests (resolveOne acc resp).2) = None.
Proof.
  destruct acc as [t w]. unfold resolveOne.
  destruct (JsMap.get (resp_requestId resp) (pendingRequests w)) as [r|] eqn:Hk;
    destruct (truthy (optStr (resp_error resp)));
    rewrite ?(rejectRequest_live _ r _ _ Hk), ?(resolveRequest_live _ r _ _ Hk),
      ?(rejectRequest_gone _ _ _ Hk), ?(resolveRequest_gone _ _ _ Hk); cbn [snd]; try done.
  - destruct (settleRequest_fields (resp_requestId resp) r
                (Rejected (optStr (resp_error resp))) w) as (-> & _).
    apply get_delete_eq.
  - destruct (settleRequest_fields (resp_requestId resp) r
                (Fulfilled (resp_response resp)) w) as (-> & _).
    apply get_delete_eq.
Qed.

Lemma resolveOne_spared acc resp k :
  resp_requestId resp ≠ k ->
  JsMap.get k (pendingRequests (resolveOne acc resp).2)
  = JsMap.get k (pendingRequests acc.2).
Proof.
  intros Hne. destruct acc as [t w]. unfold resolveOne.
  destruct (JsMap.get (resp_requestId resp) (pendingRequests w)) as [r|] eqn:Hk;
    destruct (truthy (optStr (resp_error resp)));
    rewrite ?(rejectRequest_live _ r _ _ Hk), ?(resolveRequest_live _ r _ _ Hk),
      ?(rejectRequest_gone _ _ _ Hk), ?(resolveRequest_gone _ _ _ Hk); cbn [snd]; try done.
  - destruct (settleRequest_fields (resp_requestId resp) r
                (Rejected (optStr (resp_error resp))) w) as (-> & _).
    by apply get_delete_ne.
  - destruct (settleRequest_fields (resp_requestId resp) r
                (Fulfilled (resp_response resp)) w) as (-> & _).
    by apply get_delete_ne.
Qed.

Lemma resolve_fold_gone responses acc resp :
  resp ∈ responses ->
  JsMap.get (resp_requestId resp)
    (pendingRequests (fold_left resolveOne responses acc).2) = None.
Proof.
  revert acc. induction responses as [|resp0 rest IH]; intros acc Hin.
  - by apply elem_of_nil in Hin.
  - cbn [fold_left]. apply elem_of_cons in Hin as [->|Hin]; [|by apply IH].
    destruct (JsMap.get (resp_requestId resp0)
                (pendingRequests (fold_left resolveOne rest (resolveOne acc resp0)).2))
      as [r|] eqn:Hg; [|done].
    destruct (shrinks_resolveRequests_acc rest (resolveOne acc resp0)) as (Hm & _).
    apply Hm in Hg. by rewrite resolveOne_after in Hg.
Qed.

Lemma resolve_fold_spared responses acc k :
  k ∉ resp_requestId <$> responses ->
  JsMap.get k (pendingRequests (fold_left resolveOne responses acc).2)
  = JsMap.get k (pendingRequests acc.2).
Proof.
  revert acc. induction responses as [|resp rest IH]; intros acc Hk; [done|].
  rewrite fmap_cons in Hk. apply not_elem_of_cons in Hk as [Hne Hk].
  cbn [fold_left]. rewrite IH by done. by apply resolveOne_spared.
Qed.

Lemma resolve_fold_replay responses t w :
  (forall resp, resp ∈ responses ->
     JsMap.get (resp_requestId resp) (pendingRequests w) = None) ->
  fold_left resolveOne responses (t, w)
  = (mkTally (resolved t) (notFound t + length responses), w).
Proof.
  revert t. induction responses as [|resp rest IH]; intros t Hgone.
  - simpl. rewrite Nat.add_0_r. by destruct t.
  - cbn [fold_left]. rewrite (resolveOne_gone t w resp)
      by apply Hgone, list_elem_of_here.
    rewrite IH by (intros resp' Hin; by apply Hgone, list_elem_of_further).
    cbn [resolved notFound length]. do 2 f_equal. lia.
Qed.

Lemma poll_v2_short env fuel q s :
  wf (bridge s) -> mcpServerActive s = true -> HttpServerV2.q_longPoll q = Some "false" ->
  exists s1,
    HttpServerV2.poll env fuel q s
    = Some (json (HttpServerV2.batchJson
                    (take (Z.to_nat (HttpServerV2.maxBatchOf q))
                       ((fun e => viewOf e.2) <$> pendingRequests (bridge s)))), s1) /\
    bridge s1 = bridge s /\ pluginConnected s1 = true /\
    lastPluginActivity s1 = now s /\ lastMCPActivity s1 = now s.
Proof.
  intros Hwf Hflag Hq.
  destruct (trackPluginActivity_spec s) as (Hb & Hp & Hl & Hm & Ha & _).
  unfold HttpServerV2.poll. rewrite Hm, Hflag.
  assert (Hnow : now (trackPluginActivity s) = now s) by (unfold now; by rewrite Hb).
  rewrite Hnow.
  set (s2 := set_lastMCPActivity (now s) (trackPluginActivity s)).
  assert (Hflag2 : mcpServerActive s2 = true).
  { change (mcpServerActive s2) with (mcpServerActive (trackPluginActivity s)).
    by rewrite Hm. }
  unfold HttpServerV2.isMCPServerActive, trackMCPActivity. rewrite Hflag2.
  cbn [negb]. unfold HttpServerV2.isLongPoll. rewrite Hq. cbn [String.eqb Ascii.eqb negb].
  assert (Hnow2 : now s2 = now s) by done.
  rewrite Hnow2.
  set (s3 := set_lastMCPActivity (now s) s2).
  assert (Hb3 : bridge s3 = bridge s) by done.
  assert (Hwf3 : wf (bridge s3)) by by rewrite Hb3.
  destruct (getPendingRequests_wf (HttpServerV2.maxBatchOf q) (bridge s3) Hwf3) as [-> _].
  rewrite set_bridge_id, Hb3.
  set (views := take _ _).
  exists s3. split.
  - destruct views as [|v views']; done.
  - split_and!; [done| | |done].
    + done.
    + done.
Qed.

(** X8: what is polled in one batch can be answered in one batch, once.
    On a live batching server a short poll ([longPoll=false]) answers 200
    with the oldest pending requests, at most [maxBatch], and takes nothing
    off the bridge.  A [POST /response] whose [responses] array answers
    exactly these requests is tallied [resolved] = the size of the batch
    and [notFound] = 0; the answered requests are no longer pending and
    every other request is untouched.  The same body posted again is
    tallied [resolved] = 0 and [notFound] = the size of the batch, and
    changes nothing. *)
Theorem poll_v2_batch_round_trip env fuel q s answers :
  reachable (bridge s) -> mcpServerActive s = true ->
  HttpServerV2.q_longPoll q = Some "false" ->
  let views := take (Z.to_nat (HttpServerV2.maxBatchOf q))
                 ((fun e => viewOf e.2) <$> pendingRequests (bridge s)) in
  resp_requestId <$> answers = requestId <$> views ->
  let b := mkResponseBody JUndefined JUndefined JUndefined
             (JArr (batchResponseJson <$> answers)) in
  exists s1,
    HttpServerV2.poll env fuel q s = Some (json (HttpServerV2.batchJson views), s1) /\
    bridge s1 = bridge s /\
    let first := HttpServerV2.response b s1 in
    let second := HttpServerV2.response b first.2 in
    first.1 = json (JObj [("success", JBool true);
                          ("resolved", JNum (Z.of_nat (length views)));
                          ("notFound", JNum 0)]) /\
    (forall v, v ∈ views -> hasPendingRequest (requestId v) (bridge first.2) = false) /\
    (forall k, k ∉ requestId <$> views ->
       JsMap.get k (pendingRequests (bridge first.2))
       = JsMap.get k (pendingRequests (bridge s))) /\
    second.1 = json (JObj [("success", JBool true);
                           ("resolved", JNum 0);
                           ("notFound", JNum (Z.of_nat (length views)))]) /\
    bridge second.2 = bridge first.2.
Proof.
  intros Hreach Hflag Hq views Hids b.
  pose proof (reachable_wf _ Hreach) as Hwf.
  destruct (poll_v2_short env fuel q s Hwf Hflag Hq) as (s1 & Hpoll & Hb1 & _).
  exists s1. split; [exact Hpoll|]. split; [exact Hb1|].
  intros first second.
  set (w := bridge s) in *.
  set (res := resolveRequests answers w).
  assert (Hfirst : first = (json (JObj [("success", JBool true);
                     ("resolved", JNum (Z.of_nat (resolved res.1)));
                     ("notFound", JNum (Z.of_nat (notFound res.1)))]),
                   set_bridge res.2 s1)).
  { unfold first. rewrite (response_v2_typed b s1 answers eq_refl), Hb1. done. }
  assert (Hlen : length answers = length views).
  { by rewrite <- (length_fmap resp_requestId), Hids, length_fmap. }
  assert (Hkeys : requestId <$> views
                  = take (Z.to_nat (HttpServerV2.maxBatchOf q)) (requestQueue w)).
  { unfold views. rewrite <- fmap_take, <- list_fmap_compose, (wf_queue w Hwf).
    unfold JsMap.keys. rewrite <- fmap_take. apply Forall_fmap_ext_1, Forall_forall.
    intros [k r] Hin. simpl.
    pose proof (sublist_take (pendingRequests w)
                  (Z.to_nat (HttpServerV2.maxBatchOf q))) as Htake.
    apply (elem_of_sublist _ _ _ Hin) in Htake.
    apply (elem_get k r _ (wf_nodup w Hwf)) in Htake.
    by destruct (wf_entry w Hwf k r Htake) as (-> & _). }
  assert (Hnd : NoDup (resp_requestId <$> answers)).
  { rewrite Hids, Hkeys. eapply sublist_NoDup; [|apply sublist_take].
    by apply wf_queue_NoDup. }
  assert (Hlive : forall k, k ∈ resp_requestId <$> answers -> k ∈ requestQueue w).
  { intros k. rewrite Hids, Hkeys. intros Hk.
    by apply (elem_of_sublist _ _ _ Hk), sublist_take. }
  destruct (batch_tally answers (mkTally 0 0) w Hwf) as [Hsum Hmiss].
  fold (resolveRequests answers w) in Hsum, Hmiss. fold res in Hsum, Hmiss.
  rewrite (batchMisses_all_live _ _ Hnd Hlive) in Hmiss.
  cbn [resolved notFound] in Hsum, Hmiss.
  assert (Hres : resolved res.1 = length views) by lia.
  assert (Hgone : forall resp, resp ∈ answers ->
            JsMap.get (resp_requestId resp) (pendingRequests res.2) = None).
  { intros resp Hin. by apply resolve_fold_gone. }
  assert (Hb2 : bridge first.2 = res.2) by (by rewrite Hfirst).
  split_and!.
  - rewrite Hfirst. cbn [fst]. rewrite Hres, Hmiss. done.
  - intros v Hv. rewrite Hb2. unfold hasPendingRequest. apply has_false_get.
    assert (Hk : requestId v ∈ resp_requestId <$> answers)
      by (rewrite Hids; by apply list_elem_of_fmap_2).
    apply list_elem_of_fmap in Hk as (resp & -> & Hin). by apply Hgone.
  - intros k Hk. rewrite Hb2. unfold res, resolveRequests.
    rewrite resolve_fold_spared; [done|]. by rewrite Hids.
  - unfold second. rewrite (response_v2_typed b _ answers eq_refl), Hb2.
    unfold resolveRequests. rewrite (resolve_fold_replay answers _ _ Hgone).
    cbn [fst resolved notFound]. by rewrite Hlen.
  - unfold second. rewrite (response_v2_typed b _ answers eq_refl), Hb2.
    unfold resolveRequests. by rewrite (resolve_fold_replay answers _ _ Hgone).
Qed.

Lemma poll_v2_batch_round_trip_witness :
  let s := setMCPServerActive true
             (newServer (execAll [OpSendRequest "a" "/api/1" JNull;
                                  OpSendRequest "b" "/api/2" JNull;
                                  OpSendRequest "c" "/api/3" JNull] (newBridge 0))) in
  let q := HttpServerV2.mkPollQuery (Some "false") None (Some 2) in
  let answers := [mkBatchResponse "a" (JStr "done") None;
                  mkBatchResponse "b" JUndefined (Some "failed")] in
  exists s1,
    HttpServerV2.poll (fun _ s => s) 0 q s
    = Some (json (HttpServerV2.batchJson
                    [mkPendingView "a" (mkRequestBody "/api/1" JNull);
                     mkPendingView "b" (mkRequestBody "/api/2" JNull)]), s1) /\
    requestQueue (bridge (HttpServerV2.response
                   (mkResponseBody JUndefined JUndefined JUndefined
                      (JArr (batchResponseJson <$> answers))) s1).2)
    = ["c"].
Proof.
  intros s q answers.
  assert (Hreach : reachable (bridge s)).
  { apply (reachable_execAll _ (newBridge 0)); [apply reachable_new|]. by simpl. }
  destruct (poll_v2_batch_round_trip (fun _ s => s) 0 q s answers Hreach eq_refl
              eq_refl eq_refl) as (s1 & Hpoll & Hb1 & _).
  exists s1. split; [exact Hpoll|].
  rewrite (response_v2_typed
             (mkResponseBody JUndefined JUndefined JUndefined
                (JArr (batchResponseJson <$> answers))) s1 answers eq_refl), Hb1.
  reflexivity.
Defined.

(** ** A single answer; the plugin flag *)

(** X9: a single answer settles the request the same way in both variants
    of [POST /response].  For a pending [requestId] the answer is 200
    [{success: true}]; the promise of the request is rejected with [error]
    when the body carries a truthy [error] and fulfilled with [response]
    otherwise, its timer is disarmed and the request is no longer pending;
    the batching variant does exactly the same.  For a [requestId] that is
    not pending the single-request variant still answers 200 and changes
    nothing. *)
Theorem response_single_settles b s rid :
  (forall r,
     reachable (bridge s) ->
     body_requestId b = JStr rid ->
     JsMap.get rid (pendingRequests (bridge s)) = Some r ->
     let outcome := if truthy (body_error b) then Rejected (body_error b)
                    else Fulfilled (body_response b) in
     let s' := (HttpServerV1.response b s).2 in
     HttpServerV1.response b s
     = (json success, set_bridge (settleRequest rid r outcome (bridge s)) s) /\
     promises (bridge s') !! settlement r = Some outcome /\
     findTimer (timeoutId r) (timers (bridge s')) = None /\
     hasPendingRequest rid (bridge s') = false /\
     ((forall responses, body_responses b ≠ JArr responses) -> rid ≠ "" ->
      HttpServerV2.response b s = HttpServerV1.response b s)) /\
  (body_requestId b = JStr rid ->
   hasPendingRequest rid (bridge s) = false ->
   HttpServerV1.response b s = (json success, s)) /\
  ((forall k, body_requestId b ≠ JStr k) ->
   HttpServerV1.response b s = (json success, s)).
Proof.
  split_and!.
  - intros r Hreach Hrid Hr outcome s'.
    pose proof (reachable_wf _ Hreach) as Hwf.
    assert (Hv1 : HttpServerV1.response b s
                  = (json success, set_bridge (settleRequest rid r outcome (bridge s)) s)).
    { unfold HttpServerV1.response, rejectMaybe, resolveMaybe, outcome. rewrite Hrid.
      destruct (truthy (body_error b)).
      - by rewrite (rejectRequest_live rid r _ _ Hr).
      - by rewrite (resolveRequest_live rid r _ _ Hr). }
    assert (Hs' : bridge s' = settleRequest rid r outcome (bridge s))
      by (unfold s'; by rewrite Hv1).
    destruct (settleRequest_spec rid r outcome (bridge s) Hwf Hr) as (Ht & Hg & _ & Hp).
    split_and!.
    + done.
    + by rewrite Hs'.
    + by rewrite Hs'.
    + rewrite Hs'. unfold hasPendingRequest. by apply has_false_get.
    + intros Hb Hne. rewrite Hv1, (response_v2_single b s Hb).
      unfold HttpServerV2.responseSingle. rewrite Hrid.
      cbn [truthy hasPendingMaybe rejectMaybe resolveMaybe].
      destruct (String.eqb_spec rid ""); [done|]. cbn [negb].
      assert (Hhas : hasPendingRequest rid (bridge s) = true).
      { unfold hasPendingRequest. apply has_get. by eexists. }
      rewrite Hhas. cbn [negb]. unfold outcome.
      destruct (truthy (body_error b)).
      * by rewrite (rejectRequest_live rid r _ _ Hr).
      * by rewrite (resolveRequest_live rid r _ _ Hr).
  - intros Hrid Hgone. unfold hasPendingRequest in Hgone. apply has_false_get in Hgone.
    unfold HttpServerV1.response, rejectMaybe, resolveMaybe. rewrite Hrid.
    destruct (truthy (body_error b)).
    + rewrite (rejectRequest_gone rid _ _ Hgone). by rewrite set_bridge_id.
    + rewrite (resolveRequest_gone rid _ _ Hgone). by rewrite set_bridge_id.
  - intros Hrid. unfold HttpServerV1.response, rejectMaybe, resolveMaybe.
    destruct (body_requestId b) as [| |? |? |k |? |? |?];
      try (destruct (truthy (body_error b)); by rewrite set_bridge_id).
    by destruct (Hrid k).
Qed.

Lemma response_single_settles_witness :
  let s := newServer (execAll [OpSendRequest "a" "/api/1" JNull] (newBridge 0)) in
  let b := mkResponseBody (JStr "a") (JStr "done") (JStr "boom") JUndefined in
  promises (bridge (HttpServerV1.response b s).2) = [Rejected (JStr "boom")] /\
  HttpServerV2.response b s = HttpServerV1.response b s /\
  HttpServerV1.response b (HttpServerV1.response b s).2
    = (json success, (HttpServerV1.response b s).2).
Proof.
  intros s b.
  assert (Hreach : reachable (bridge s)).
  { apply (reachable_execAll _ (newBridge 0)); [apply reachable_new|]. by simpl. }
  destruct (response_single_settles b s "a") as (Hlive & _).
  destruct (response_single_settles b (HttpServerV1.response b s).2 "a")
    as (_ & Hgone & _).
  destruct (Hlive _ Hreach eq_refl eq_refl) as (_ & _ & _ & _ & Hsame).
  split; [reflexivity|]. split.
  - apply Hsame; done.
  - apply Hgone; reflexivity.
Defined.

Lemma plugin_flag_reported s c :
  pluginConnected s = c ->
  field "pluginConnected" (body (HttpServerV1.health s)) = Some (JBool c) /\
  field "pluginConnected" (body (HttpServerV1.statusOf s)) = Some (JBool c) /\
  field "pluginConnected" (body (HttpServerV2.health s)) = Some (JBool c) /\
  field "pluginConnected" (body (HttpServerV2.statusOf s)) = Some (JBool c).
Proof. intros <-. by split_and!. Qed.

(** X10: [/health] and [/status] report the plugin flag, not the
    connection.  After [/ready], or after a [/poll] of the single-request
    server, [isPluginConnected] holds for the next 10 s exactly; the
    [pluginConnected] property of [/health] and [/status] stays [true]
    however long the plugin is silent, in both variants, and only
    [/disconnect] turns it to [false]. *)
Theorem plugin_flag_outlives_connection s dt :
  let s1 := elapse dt (ready s).2 in
  let s2 := elapse dt (HttpServerV1.poll s).2 in
  isPluginConnected s1 = (dt <? 10000) /\
  isPluginConnected s2 = (dt <? 10000) /\
  (forall s', s' = s1 \/ s' = s2 ->
     field "pluginConnected" (body (HttpServerV1.health s')) = Some (JBool true) /\
     field "pluginConnected" (body (HttpServerV1.statusOf s')) = Some (JBool true) /\
     field "pluginConnected" (body (HttpServerV2.health s')) = Some (JBool true) /\
     field "pluginConnected" (body (HttpServerV2.statusOf s')) = Some (JBool true) /\
     isPluginConnected (disconnect s').2 = false /\
     field "pluginConnected" (body (HttpServerV1.health (disconnect s').2))
       = Some (JBool false) /\
     field "pluginConnected" (body (HttpServerV2.health (disconnect s').2))
       = Some (JBool false)).
Proof.
  intros s1 s2.
  assert (Hpoll : pluginConnected (HttpServerV1.poll s).2 = true /\
                  lastPluginActivity (HttpServerV1.poll s).2 = now s /\
                  now (HttpServerV1.poll s).2 = now s).
  { destruct (trackPluginActivity_spec s) as (Hb & Hp & Hl & Hm & Ha & _).
    unfold HttpServerV1.poll.
    destruct (negb (HttpServerV1.isMCPServerActive (trackPluginActivity s))).
    - cbn [snd]. unfold now. by rewrite Hb.
    - pose proof (clock_getPendingRequest (bridge (trackMCPActivity (trackPluginActivity s))))
        as Hc.
      assert (Hframe : bridge (trackMCPActivity (trackPluginActivity s)) = bridge s /\
                pluginConnected (trackMCPActivity (trackPluginActivity s)) = true /\
                lastPluginActivity (trackMCPActivity (trackPluginActivity s)) = now s).
      { unfold trackMCPActivity.
        destruct (mcpServerActive (trackPluginActivity s)); by split_and!. }
      destruct Hframe as (Hb2 & Hp2 & Hl2).
      destruct (getPendingRequest _) as [[pr|] w]; cbn [snd] in *;
        unfold now; cbn [bridge set_bridge pluginConnected lastPluginActivity];
        rewrite Hp2, Hl2, Hc, Hb2; done. }
  destruct Hpoll as (Hp2 & Hl2 & Hn2).
  assert (H1 : pluginConnected s1 = true) by done.
  assert (H2 : pluginConnected s2 = true) by done.
  split_and!.
  - unfold isPluginConnected, s1, now. simpl. unfold now. f_equal. lia.
  - unfold isPluginConnected. rewrite H2. unfold s2, elapse, now in *.
    cbn [bridge set_bridge lastPluginActivity clock advance andb].
    rewrite Hl2, Hn2. f_equal. lia.
  - intros s' Hs'.
    assert (Hflag : pluginConnected s' = true) by (by destruct Hs' as [-> | ->]).
    destruct (plugin_flag_reported s' true Hflag) as (Ha & Hb & Hc & Hd).
    destruct (plugin_flag_reported (disconnect s').2 false eq_refl) as (He & _ & Hf & _).
    by split_and!.
Qed.

Lemma plugin_flag_outlives_connection_witness :
  let s := elapse 10000 (ready (newServer (newBridge 0))).2 in
  isPluginConnected s = false /\
  field "pluginConnected" (body (HttpServerV1.health s)) = Some (JBool true).
Proof.
  intros s.
  destruct (plugin_flag_outlives_connection (newServer (newBridge 0)) 10000)
    as (H1 & _ & H3).
  split; [exact H1 | exact (proj1 (H3 s (or_introl eq_refl)))].
Defined.

(** ** The result cache of the tools *)

Lemma get_set_eq {V} k (v : V) m : JsMap.get k (JsMap.set k v m) = Some v.
Proof.
  induction m as [|[k0 v0] m IH]; simpl.
  - by rewrite decide_True.
  - destruct (decide (k0 = k)) as [->|Hne]; simpl.
    + by rewrite decide_True.
    + by rewrite decide_False.
Qed.

Lemma keys_set {V} k (v : V) m :
  JsMap.keys (JsMap.set k v m)
  = if JsMap.has k m then JsMap.keys m else JsMap.keys m ++ [k].
Proof.
  unfold JsMap.has. induction m as [|[k0 v0] m IH]; simpl; [done|].
  destruct (decide (k0 = k)) as [->|Hne]; [done|].
  change (JsMap.keys ((k0, v0) :: JsMap.set k v m) = 
          (if match JsMap.get k m with Some _ => true | None => false end
           then k0 :: JsMap.keys m else k0 :: (JsMap.keys m ++ [k]))).
  unfold JsMap.keys in *. rewrite fmap_cons, IH. simpl.
  by destruct (JsMap.get k m).
Qed.

Lemma length_set {V} k (v : V) m :
  length (JsMap.set k v m)
  = if JsMap.has k m then length m else S (length m).
Proof.
  rewrite <- (length_fmap fst (JsMap.set k v m)).
  change (fst <$> JsMap.set k v m) with (JsMap.keys (JsMap.set k v m)).
  rewrite keys_set. destruct (JsMap.has k m).
  - unfold JsMap.keys. by rewrite length_fmap.
  - unfold JsMap.keys. rewrite length_app, length_fmap. simpl. lia.
Qed.

Lemma NoDup_keys_set {V} k (v : V) m :
  NoDup (JsMap.keys m) -> NoDup (JsMap.keys (JsMap.set k v m)).
Proof.
  intros Hnd. rewrite keys_set. destruct (JsMap.has k m) eqn:Hhas; [done|].
  apply has_false_get, get_None_keys in Hhas.
  apply NoDup_app. split_and!; [done| |apply NoDup_singleton].
  intros x Hx Hx'. apply list_elem_of_singleton in Hx' as ->. done.
Qed.

Lemma length_delete {V} k (m : list (string * V)) :
  (length (JsMap.delete k m) <= length m)%nat.
Proof. rewrite delete_filter. apply length_filter. Qed.

Lemma delete_head {V} k (v : V) m :
  NoDup (JsMap.keys ((k, v) :: m)) -> JsMap.delete k ((k, v) :: m) = m.
Proof.
  intros Hnd. apply NoDup_cons in Hnd as [Hfresh _]. simpl.
  rewrite decide_True by done. by apply delete_absent, get_None_keys.
Qed.

(** What a map of the cache always satisfies, with keys that are not empty. *)
Lemma setCache_ok key data t cache :
  key ≠ "" ->
  NoDup (JsMap.keys cache) /\ (length cache <= 100)%nat /\ ("" ∉ JsMap.keys cache) ->
  NoDup (JsMap.keys (setCache key data t cache)) /\
  (length (setCache key data t cache) <= 100)%nat /\
  ("" ∉ JsMap.keys (setCache key data t cache)).
Proof.
  intros Hkey (Hnd & Hlen & Hne).
  unfold setCache, JsMap.size. cbn [cfg_enabled cacheConfig negb cfg_maxSize].
  set (entry := mkCacheEntry data t).
  assert (Hset : forall c,
            NoDup (JsMap.keys c) -> ("" ∉ JsMap.keys c) ->
            NoDup (JsMap.keys (JsMap.set key entry c)) /\
            ("" ∉ JsMap.keys (JsMap.set key entry c)) /\
            (length (JsMap.set key entry c) <= S (length c))%nat).
  { intros c Hc Hc'. split_and!.
    - by apply NoDup_keys_set.
    - rewrite keys_set. destruct (JsMap.has key c); [done|].
      rewrite elem_of_app, list_elem_of_singleton. intros [?|?]; [done|congruence].
    - rewrite length_set. destruct (JsMap.has key c); lia. }
  destruct (100 <=? length cache)%nat eqn:Hfull.
  - apply Nat.leb_le in Hfull.
    destruct cache as [|[k0 v0] rest]; [simpl in Hfull; lia|].
    cbn [JsMap.keys fmap list_fmap fst].
    assert (Hk0 : k0 ≠ "").
    { intros ->. apply Hne. apply list_elem_of_here. }
    cbn [truthy]. destruct (String.eqb_spec k0 ""); [done|]. cbn [negb].
    rewrite (delete_head k0 v0 rest Hnd).
    apply NoDup_cons in Hnd as [_ Hnd].
    assert (Hne' : ("" ∉ JsMap.keys rest)).
    { intros H. apply Hne. by apply list_elem_of_further. }
    destruct (Hset rest Hnd Hne') as (H1 & H2 & H3).
    split_and!; [done| |done]. simpl in Hlen. lia.
  - apply Nat.leb_gt in Hfull.
    destruct (Hset cache Hnd Hne) as (H1 & H2 & H3).
    split_and!; [done| |done]. lia.
Qed.

Lemma delete_ok {V} k (c : list (string * V)) :
  NoDup (JsMap.keys c) /\ (length c <= 100)%nat /\ ("" ∉ JsMap.keys c) ->
  NoDup (JsMap.keys (JsMap.delete k c)) /\
  (length (JsMap.delete k c) <= 100)%nat /\
  ("" ∉ JsMap.keys (JsMap.delete k c)).
Proof.
  intros (Hnd & Hlen & Hne). split_and!.
  - by apply NoDup_keys_delete.
  - pose proof (length_delete k c). lia.
  - rewrite keys_delete. intros H. by apply list_elem_of_filter in H as [_ H].
Qed.

Lemma invalidate_fold_ok p ks (c : list (string * CacheEntry)) :
  NoDup (JsMap.keys c) /\ (length c <= 100)%nat /\ ("" ∉ JsMap.keys c) ->
  let c' := fold_left (fun c key => if includes p key then JsMap.delete key c else c)
              ks c in
  NoDup (JsMap.keys c') /\ (length c' <= 100)%nat /\ ("" ∉ JsMap.keys c').
Proof.
  revert c. induction ks as [|k ks IH]; intros c Hok; [done|].
  cbn [fold_left]. apply IH. destruct (includes p k); [by apply delete_ok | done].
Qed.

Lemma cacheStep_ok op c :
  properKey op ->
  NoDup (JsMap.keys c) /\ (length c <= 100)%nat /\ ("" ∉ JsMap.keys c) ->
  NoDup (JsMap.keys (cacheStep c op)) /\ (length (cacheStep c op) <= 100)%nat /\
  ("" ∉ JsMap.keys (cacheStep c op)).
Proof.
  intros Hop Hok. destruct op as [key t|key data t|pattern]; cbn [cacheStep].
  - unfold getCached. cbn [cfg_enabled cacheConfig negb].
    destruct (JsMap.get key c) as [entry|]; [|done].
    destruct (_ <? _); [by apply delete_ok | done].
  - by apply setCache_ok.
  - assert (Hnil : NoDup (JsMap.keys ([] : list (string * CacheEntry))) /\
                   (length ([] : list (string * CacheEntry)) <= 100)%nat /\
                   ("" ∉ JsMap.keys ([] : list (string * CacheEntry)))).
    { split_and!; [apply NoDup_nil_2 | simpl; lia | apply not_elem_of_nil]. }
    unfold invalidateCache. destruct pattern as [p|]; [|done].
    destruct (negb (truthy (JStr p))); [done|]. by apply invalidate_fold_ok.
Qed.

(** X11: the cache never holds more than [maxSize] = 100 entries.
    Whatever reads, writes and invalidations the tools perform, starting
    from the empty cache of the constructor and with the non-empty keys the
    tools build, the map has at most 100 entries and no key twice. *)
Theorem cache_never_exceeds_maxSize ops :
  Forall properKey ops ->
  let cache := fold_left cacheStep ops [] in
  (JsMap.size cache <= cfg_maxSize cacheConfig)%nat /\
  NoDup (JsMap.keys cache).
Proof.
  intros Hops cache.
  assert (H : forall c,
            NoDup (JsMap.keys c) /\ (length c <= 100)%nat /\ ("" ∉ JsMap.keys c) ->
            NoDup (JsMap.keys (fold_left cacheStep ops c)) /\
            (length (fold_left cacheStep ops c) <= 100)%nat /\
            ("" ∉ JsMap.keys (fold_left cacheStep ops c))).
  { induction Hops as [|op ops Hop Hops IH]; intros c Hok; [done|].
    cbn [fold_left]. by apply IH, cacheStep_ok. }
  destruct (H []) as (Hnd & Hlen & _).
  { split_and!; [apply NoDup_nil_2 | simpl; lia | apply not_elem_of_nil]. }
  split; [exact Hlen | exact Hnd].
Qed.

Lemma cache_never_exceeds_maxSize_witness :
  let ops := [CacheSet "props:game.Workspace" JNull 0;
              CacheGet "props:game.Workspace" 6000;
              CacheSet "place-info" JNull 7000;
              CacheInvalidate (Some "game")] in
  (JsMap.size (fold_left cacheStep ops []) <= cfg_maxSize cacheConfig)%nat /\
  NoDup (JsMap.keys (fold_left cacheStep ops [])).
Proof.
  intros ops. apply (cache_never_exceeds_maxSize ops).
  repeat (apply Forall_cons; split; [by simpl|]). apply Forall_nil_2.
Defined.

(** X12: what is written to the cache is read back for 5 s.  After
    [setCache key data] at time [t], [getCached key] at time [t + dt]
    returns [data] and leaves the cache alone while [dt <= 5000]; later it
    returns [null] and deletes the entry, so that the key is absent
    afterwards. *)
Theorem cache_round_trip key data t dt cache :
  let c1 := setCache key data t cache in
  getCached key (t + dt) c1
  = (if 5000 <? dt then (JNull, JsMap.delete key c1) else (data, c1)) /\
  JsMap.get key c1 = Some (mkCacheEntry data t) /\
  JsMap.has key (JsMap.delete key c1) = false.
Proof.
  intros c1.
  assert (Hget : JsMap.get key c1 = Some (mkCacheEntry data t)).
  { unfold c1, setCache. cbn [cfg_enabled cacheConfig negb]. apply get_set_eq. }
  split_and!; [|done|apply has_false_get, get_delete_eq].
  unfold getCached. cbn [cfg_enabled cacheConfig negb cfg_defaultTTL].
  rewrite Hget. cbn [cache_timestamp cache_data].
  by replace (t + dt - t) with dt by lia.
Qed.

(** X13: a full cache evicts its oldest entry on every write, also on the
    update of a key it already holds.  With fewer than 100 entries
    [setCache] only writes its key: a new key goes to the end, a key already
    present keeps its place, every other entry is as before.  With 100
    entries the first entry of the map is deleted before the write: the
    result is the rest of the map with the key written to it -- so the
    update of a key that is present leaves 99 entries, and the update of
    the oldest key itself moves it to the end. *)
Theorem setCache_evicts_oldest key data t cache :
  NoDup (JsMap.keys cache) ->
  let entry := mkCacheEntry data t in
  ((JsMap.size cache < 100)%nat ->
   setCache key data t cache = JsMap.set key entry cache /\
   (forall k, k ≠ key ->
      JsMap.get k (setCache key data t cache) = JsMap.get k cache) /\
   JsMap.keys (setCache key data t cache)
   = if JsMap.has key cache then JsMap.keys cache else JsMap.keys cache ++ [key]) /\
  (forall k0 v0 rest,
     cache = (k0, v0) :: rest -> (100 <= JsMap.size cache)%nat -> k0 ≠ "" ->
     setCache key data t cache = JsMap.set key entry rest /\
     (k0 ≠ key -> JsMap.has k0 (setCache key data t cache) = false) /\
     (k0 = key -> setCache key data t cache = rest ++ [(key, entry)]) /\
     (JsMap.has key rest = true ->
      S (JsMap.size (setCache key data t cache)) = JsMap.size cache) /\
     (JsMap.has key cache = false ->
      JsMap.keys (setCache key data t cache) = JsMap.keys rest ++ [key])).
Proof.
  intros Hnd entry. split.
  - intros Hroom.
    assert (Hset : setCache key data t cache = JsMap.set key entry cache).
    { unfold setCache. cbn [cfg_enabled cacheConfig negb cfg_maxSize].
      apply Nat.leb_gt in Hroom. by rewrite Hroom. }
    rewrite Hset. split_and!; [done| |apply keys_set].
    intros k Hk. by apply get_set_ne.
  - intros k0 v0 rest -> Hfull Hk0.
    assert (Hset : setCache key data t ((k0, v0) :: rest) = JsMap.set key entry rest).
    { unfold setCache. cbn [cfg_enabled cacheConfig negb cfg_maxSize].
      apply Nat.leb_le in Hfull. rewrite Hfull.
      cbn [JsMap.keys fmap list_fmap fst truthy].
      destruct (String.eqb_spec k0 ""); [done|]. cbn [negb].
      by rewrite (delete_head k0 v0 rest Hnd). }
    pose proof Hnd as Hnd'. apply NoDup_cons in Hnd' as [Hfresh Hnd'].
    apply get_None_keys in Hfresh.
    rewrite Hset. split_and!.
    + done.
    + intros Hne. apply has_false_get. rewrite get_set_ne by done. exact Hfresh.
    + intros <-. by apply set_fresh.
    + intros Hhas. unfold JsMap.size. rewrite length_set, Hhas. done.
    + intros Hhas. rewrite keys_set.
      assert (Hrest : JsMap.has key rest = false).
      { apply has_false_get. apply has_false_get in Hhas. simpl in Hhas.
        by destruct (decide (k0 = key)). }
      by rewrite Hrest.
Qed.

Lemma setCache_evicts_oldest_witness :
  let rest := (fun i => (String (Ascii.ascii_of_nat (66 + i)) "", mkCacheEntry JNull 0))
                <$> seq 0 99 in
  let cache := ("A", mkCacheEntry JNull 0) :: rest in
  JsMap.has "A" (setCache "B" (JStr "new") 1 cache) = false /\
  S (JsMap.size (setCache "B" (JStr "new") 1 cache)) = JsMap.size cache.
Proof.
  intros rest cache.
  assert (Hnd : NoDup (JsMap.keys cache)).
  { refine (bool_decide_unpack _ _). vm_compute. exact I. }
  assert (Hsize : (100 <= JsMap.size cache)%nat).
  { vm_compute. apply le_n. }
  assert (Hhas : JsMap.has "B" rest = true).
  { vm_compute. reflexivity. }
  destruct (setCache_evicts_oldest "B" (JStr "new") 1 cache Hnd) as [_ Hfull].
  destruct (Hfull "A" (mkCacheEntry JNull 0) rest eq_refl Hsize ltac:(done))
    as (_ & Hgone & _ & Hcount & _).
  split; [apply Hgone; done | apply Hcount, Hhas].
Defined.

(** ** Invalidation *)

Lemma prefix_spec p s : String.prefix p s = true <-> exists b, s = (p ++ b)%string.
Proof.
  revert p. induction s as [|a' s IH]; intros p; destruct p as [|a p]; simpl.
  - split; [by exists "" | done].
  - split; [done | by intros [b Hb]].
  - split; [intros _; by eexists | done].
  - destruct (Ascii.ascii_dec a a') as [->|Hne].
    + rewrite IH. split; intros [b Hb]; exists b; [by rewrite Hb | by injection Hb].
    + split; [done|]. intros [b Hb]. injection Hb as -> _. done.
Qed.

Lemma includes_spec p s :
  includes p s = true <-> exists a b, s = (a ++ p ++ b)%string.
Proof.
  induction s as [|c s IH]; cbn [includes].
  - rewrite orb_false_r, prefix_spec. split.
    + intros [b Hb]. by exists "", b.
    + intros (a & b & Hab). destruct a; [by exists b|done].
  - rewrite orb_true_iff, prefix_spec, IH. split.
    + intros [[b Hb] | (a & b & Hab)].
      * by exists "", b.
      * exists (String c a), b. simpl. by rewrite Hab.
    + intros (a & b & Hab). destruct a as [|c' a].
      * left. by exists b.
      * right. exists a, b. simpl in Hab. by injection Hab.
Qed.

Lemma invalidate_fold_filter p ks (c : list (string * CacheEntry)) :
  fold_left (fun c key => if includes p key then JsMap.delete key c else c) ks c
  = filter (fun e => ¬ (includes p e.1 = true /\ e.1 ∈ ks)) c.
Proof.
  revert c. induction ks as [|k ks IH]; intros c.
  - simpl. symmetry. apply filter_all. intros e He [_ Hin].
    by apply elem_of_nil in Hin.
  - cbn [fold_left]. rewrite IH. destruct (includes p k) eqn:Hk.
    + rewrite delete_filter, list_filter_filter. apply filter_ext_elem.
      intros [k' v'] _. simpl. rewrite elem_of_cons. split.
      * intros [H1 H2] [H3 [->|H4]]; [done|]. by apply H1.
      * intros H. split.
        -- intros [H1 H2]. apply H. by split; [|right].
        -- intros ->. apply H. by split; [|left].
    + apply filter_ext_elem. intros [k' v'] _. simpl. rewrite elem_of_cons. split.
      * intros H [H1 [->|H2]]; [congruence|]. by apply H.
      * intros H [H1 H2]. apply H. by split; [|right].
Qed.

Lemma invalidateCache_filter p cache :
  p ≠ "" ->
  invalidateCache (Some p) cache = filter (fun e => includes p e.1 = false) cache.
Proof.
  intros Hp. unfold invalidateCache. cbn [truthy].
  destruct (String.eqb_spec p ""); [done|]. cbn [negb].
  rewrite invalidate_fold_filter. apply filter_ext_elem.
  intros [k v] Hin. simpl. split.
  - intros H. destruct (includes p k) eqn:Hk; [|done].
    exfalso. apply H. split; [done|]. by apply (list_elem_of_fmap_2 fst) in Hin.
  - intros H [H1 _]. congruence.
Qed.

Lemma get_filter_includes p k (cache : list (string * CacheEntry)) :
  JsMap.get k (filter (fun e => includes p e.1 = false) cache)
  = if includes p k then None else JsMap.get k cache.
Proof.
  induction cache as [|[k0 v0] cache IH]; [by destruct (includes _ _)|].
  rewrite filter_cons. cbn [fst].
  destruct (decide (includes p k0 = false)) as [H0|H0].
  - simpl. destruct (decide (k0 = k)) as [->|Hne]; [by rewrite H0|]. apply IH.
  - simpl. destruct (decide (k0 = k)) as [->|Hne]; [|apply IH].
    apply not_false_is_true in H0. rewrite IH. by rewrite H0.
Qed.

(** X14: [invalidateCache] in closed form.  Without a pattern, or with the
    empty pattern, the cache is emptied.  With a pattern the loop, which
    deletes from the map it is walking, leaves exactly the entries whose key
    does not contain the pattern, in their order; a key contains the
    pattern when it is [a ++ pattern ++ b] for some [a] and [b]. *)
Theorem invalidateCache_closed_form pattern cache :
  invalidateCache None cache = [] /\
  invalidateCache (Some "") cache = [] /\
  (pattern ≠ "" ->
   invalidateCache (Some pattern) cache
   = filter (fun e => includes pattern e.1 = false) cache /\
   (forall a b, JsMap.has (a ++ pattern ++ b) (invalidateCache (Some pattern) cache)
                = false) /\
   (forall k, (forall a b, k ≠ (a ++ pattern ++ b)%string) ->
              JsMap.get k (invalidateCache (Some pattern) cache) = JsMap.get k cache)).
Proof.
  split_and!; [done|done|]. intros Hp.
  rewrite (invalidateCache_filter pattern cache Hp). split_and!.
  - done.
  - intros a b. apply has_false_get. rewrite get_filter_includes.
    assert (Hinc : includes pattern (a ++ pattern ++ b) = true)
      by (apply includes_spec; by exists a, b).
    by rewrite Hinc.
  - intros k Hk. rewrite get_filter_includes.
    destruct (includes pattern k) eqn:Hinc; [|done].
    apply includes_spec in Hinc as (a & b & ->). by destruct (Hk a b).
Qed.

Lemma invalidateCache_closed_form_witness :
  let cache := [("props:game.Workspace.Part", mkCacheEntry JNull 0);
                ("place-info", mkCacheEntry JNull 0);
                ("children:game.Workspace", mkCacheEntry JNull 0)] in
  invalidateCache (Some "game.Workspace") cache
    = [("place-info", mkCacheEntry JNull 0)] /\
  JsMap.has ("props:" ++ "game.Workspace" ++ ".Part")
    (invalidateCache (Some "game.Workspace") cache) = false.
Proof.
  intros cache.
  destruct (invalidateCache_closed_form "game.Workspace" cache) as (_ & _ & H).
  destruct (H ltac:(done)) as (Hclosed & Hgone & _).
  split; [by rewrite Hclosed | apply Hgone].
Defined.

(** ** Paths *)

Lemma append_nil (b : string) : ("" ++ b)%string = b.
Proof. reflexivity. Qed.

Lemma append_cons x (a b : string) : (String x a ++ b)%string = String x (a ++ b).
Proof. reflexivity. Qed.

Lemma append_assoc (a b c : string) : ((a ++ b) ++ c = a ++ (b ++ c))%string.
Proof.
  induction a as [|x a IH]; [done|]. rewrite !append_cons. by f_equal.
Qed.

Lemma length_append (a b : string) :
  String.length (a ++ b) = (String.length a + String.length b)%nat.
Proof.
  induction a as [|x a IH]; [done|]. rewrite append_cons. simpl. by f_equal.
Qed.

Lemma substring_prefix (a b : string) :
  String.substring 0 (String.length a) (a ++ b) = a.
Proof.
  induction a as [|x a IH]; [by destruct b|].
  rewrite append_cons. simpl. by f_equal.
Qed.

Lemma substring_0_prefix n s : exists rest, s = (String.substring 0 n s ++ rest)%string.
Proof.
  revert s. induction n as [|n IH]; intros s.
  - exists s. by destruct s.
  - destruct s as [|c s]; [by exists ""|].
    destruct (IH s) as [rest Hrest]. exists rest. simpl.
    rewrite append_cons. by f_equal.
Qed.

Lemma lastIndexOf_from_app i c a s last :
  lastIndexOf_from i c (a ++ s) last
  = lastIndexOf_from (i + Z.of_nat (String.length a)) c s (lastIndexOf_from i c a last).
Proof.
  revert i last. induction a as [|x a IH]; intros i last.
  - simpl. by rewrite Z.add_0_r.
  - rewrite append_cons. cbn [lastIndexOf_from String.length]. rewrite IH.
    f_equal. lia.
Qed.

Lemma lastIndexOf_from_none i s last :
  includes "." s = false -> lastIndexOf_from i dot s last = last.
Proof.
  revert i last. induction s as [|x s IH]; intros i last Hs; [done|].
  cbn [includes String.prefix] in Hs. apply orb_false_iff in Hs as [Hx Hs].
  cbn [lastIndexOf_from]. rewrite IH by done.
  destruct (Ascii.eqb_spec x dot) as [->|Hne]; [|done].
  unfold dot in Hx. destruct (Ascii.ascii_dec "." "."); [|done]. by destruct s.
Qed.

Lemma lastIndexOf_from_range i c s last :
  lastIndexOf_from i c s last = last \/
  i <= lastIndexOf_from i c s last < i + Z.of_nat (String.length s).
Proof.
  revert i last. induction s as [|x s IH]; intros i last; [by left|].
  cbn [lastIndexOf_from String.length].
  destruct (IH (i + 1) (if Ascii.eqb x c then i else last)) as [->|H].
  - destruct (Ascii.eqb x c); [right; lia | by left].
  - right. lia.
Qed.

Lemma substring_0_nat (k : nat) s :
  (k <= String.length s)%nat -> substring 0 (Z.of_nat k) s = String.substring 0 k s.
Proof.
  intros Hk. unfold substring. cbv zeta.
  assert (Ha : Z.min (Z.max 0 0) (Z.of_nat (String.length s)) = 0) by lia.
  assert (Hb : Z.min (Z.max (Z.of_nat k) 0) (Z.of_nat (String.length s)) = Z.of_nat k) by lia.
  rewrite Ha, Hb.
  assert (Hc : Z.to_nat (Z.min 0 (Z.of_nat k)) = 0%nat) by lia.
  assert (Hd : Z.to_nat (Z.max 0 (Z.of_nat k) - Z.min 0 (Z.of_nat k)) = k) by lia.
  by rewrite Hc, Hd.
Qed.

Lemma substring_0_nonpos l s : l <= 0 -> substring 0 l s = "".
Proof.
  intros Hl. unfold substring. cbv zeta.
  assert (Ha : Z.min (Z.max 0 0) (Z.of_nat (String.length s)) = 0) by lia.
  assert (Hb : Z.min (Z.max l 0) (Z.of_nat (String.length s)) = 0) by lia.
  rewrite Ha, Hb. by destruct s.
Qed.

Lemma getParentPath_dotted parent name :
  includes "." name = false ->
  getParentPath (parent ++ "." ++ name) = parent.
Proof.
  intros Hname.
  assert (Hlast : lastIndexOf dot (parent ++ "." ++ name)
                  = Z.of_nat (String.length parent)).
  { unfold lastIndexOf. rewrite lastIndexOf_from_app.
    change ("." ++ name)%string with (String dot name).
    cbn [lastIndexOf_from]. rewrite Ascii.eqb_refl.
    by rewrite lastIndexOf_from_none. }
  unfold getParentPath. rewrite Hlast.
  destruct parent as [|x parent]; [done|].
  assert (Hpos : (0 <? Z.of_nat (String.length (String x parent))) = true)
    by (apply Z.ltb_lt; simpl; lia).
  rewrite Hpos, substring_0_nat by (rewrite length_append; lia).
  apply substring_prefix.
Qed.

Lemma getParentPath_prefix s : exists rest, s = (getParentPath s ++ rest)%string.
Proof.
  unfold getParentPath. destruct (0 <? lastIndexOf dot s) eqn:Hpos; [|by exists s].
  apply Z.ltb_lt in Hpos.
  destruct (lastIndexOf_from_range 0 dot s (-1)) as [Hnone|Hrange];
    [unfold lastIndexOf in Hpos; lia|].
  fold (lastIndexOf dot s) in Hrange.
  rewrite <- (Z2Nat.id (lastIndexOf dot s)) by lia.
  rewrite substring_0_nat by lia. apply substring_0_prefix.
Qed.

(** X15: [getParentPath] cuts a path at its last dot.  It agrees on every
    string with the expression the earlier tools file uses in place,
    [instancePath.substring(0, instancePath.lastIndexOf('.'))]; the parent
    of [parent.name], where [name] has no dot, is [parent]; a path without
    a dot, or whose only dot is its first character, has the parent [""];
    and the parent is always a prefix of the path. *)
Theorem getParentPath_spec :
  (forall s, getParentPath s = parentPathInline s) /\
  (forall parent name,
     includes "." name = false -> getParentPath (parent ++ "." ++ name) = parent) /\
  (forall s, includes "." s = false -> getParentPath s = "") /\
  (forall s, exists rest, s = (getParentPath s ++ rest)%string).
Proof.
  split_and!.
  - intros s. unfold getParentPath, parentPathInline.
    destruct (0 <? lastIndexOf dot s) eqn:Hpos; [done|].
    apply Z.ltb_ge in Hpos. by rewrite substring_0_nonpos.
  - apply getParentPath_dotted.
  - intros s Hs. unfold getParentPath, lastIndexOf.
    by rewrite lastIndexOf_from_none.
  - apply getParentPath_prefix.
Qed.

Lemma getParentPath_spec_witness :
  getParentPath ("game.Workspace" ++ "." ++ "Part") = "game.Workspace" /\
  getParentPath "game" = "" /\
  getParentPath ".hidden" = parentPathInline ".hidden".
Proof.
  destruct getParentPath_spec as (Hsame & Hdot & Hnone & _).
  split_and!; [by apply Hdot | by apply Hnone | apply Hsame].
Defined.

Lemma includes_prefix_mono p rest k :
  includes (p ++ rest) k = true -> includes p k = true.
Proof.
  rewrite !includes_spec. intros (a & b & ->). exists a, (rest ++ b)%string.
  by rewrite append_assoc.
Qed.

(** X16: what [deleteObject] does before it asks Studio.  An empty
    [instancePath] is refused with ["instancePath is required"] and the
    cache is not touched.  Otherwise the two invalidations together remove
    exactly the cache entries whose key contains the parent path -- or the
    path itself, when it has no parent: every key that contains the path
    contains its parent, so the first invalidation removes nothing that the
    second would keep. *)
Theorem deleteObject_invalidates instancePath cache :
  deleteObject_cache "" cache = inl "instancePath is required"%string /\
  (instancePath ≠ "" ->
   let parentPath := getParentPath instancePath in
   deleteObject_cache instancePath cache
   = inr (filter (fun e => includes (if String.eqb parentPath "" then instancePath
                                      else parentPath) e.1 = false) cache) /\
   forall a b, exists cache',
     deleteObject_cache instancePath cache = inr cache' /\
     JsMap.has (a ++ instancePath ++ b) cache' = false).
Proof.
  split; [done|]. intros Hpath parentPath.
  assert (Hclosed : deleteObject_cache instancePath cache
    = inr (filter (fun e => includes (if String.eqb parentPath "" then instancePath
                                      else parentPath) e.1 = false) cache)).
  { unfold deleteObject_cache. cbn [validateRequired].
    destruct (String.eqb_spec instancePath ""); [done|].
    fold parentPath. cbn [truthy].
    rewrite (invalidateCache_filter instancePath cache Hpath).
    destruct (String.eqb_spec parentPath "") as [Hp|Hp]; cbn [negb]; [done|].
    rewrite (invalidateCache_filter parentPath _ Hp), list_filter_filter.
    f_equal. apply filter_ext_elem. intros [k v] _. cbn [fst]. split; [by intros []|].
    intros Hk. split; [done|].
    destruct (includes instancePath k) eqn:Hinc; [|done].
    destruct (getParentPath_prefix instancePath) as [rest Hrest].
    fold parentPath in Hrest. rewrite Hrest in Hinc.
    apply includes_prefix_mono in Hinc. congruence. }
  split; [done|]. intros a b. eexists. split; [exact Hclosed|].
  apply has_false_get. rewrite get_filter_includes.
  assert (Hinc : includes instancePath (a ++ instancePath ++ b) = true)
    by (apply includes_spec; by exists a, b).
  destruct (String.eqb_spec parentPath "") as [Hp|Hp]; [by rewrite Hinc|].
  destruct (getParentPath_prefix instancePath) as [rest Hrest].
  fold parentPath in Hrest. rewrite Hrest in Hinc at 1.
  apply includes_prefix_mono in Hinc. by rewrite Hinc.
Qed.

Lemma deleteObject_invalidates_witness :
  let cache := [("props:game.Workspace.Part", mkCacheEntry JNull 0);
                ("place-info", mkCacheEntry JNull 0);
                ("children:game.Workspace", mkCacheEntry JNull 0);
                ("props:game.Lighting", mkCacheEntry JNull 0)] in
  deleteObject_cache "game.Workspace.Part" cache
  = inr [("place-info", mkCacheEntry JNull 0);
         ("props:game.Lighting", mkCacheEntry JNull 0)].
Proof.
  intros cache.
  destruct (deleteObject_invalidates "game.Workspace.Part" cache) as (_ & H).
  destruct (H ltac:(done)) as (Hclosed & _). by rewrite Hclosed.
Defined.

(** ** batch *)

Lemma batch_loop_spec {St : Type} (executeTool : ToolCall -> St -> ToolOutcome * St)
    continueOnError operations acc successes errors st :
  exists items,
    let out := batch_loop executeTool continueOnError operations acc successes errors st in
    out.1.1.1 = acc ++ items /\
    item_tool <$> items = take (length items) (tool <$> operations) /\
    out.1.1.2 = (successes + length (filter (fun i => item_success i = true) items))%nat /\
    out.1.2 = (errors + length (filter (fun i => item_success i = false) items))%nat /\
    (continueOnError = true -> length items = length operations) /\
    (continueOnError = false ->
     (length (filter (fun i => item_success i = false) items) <= 1)%nat /\
     ((length items < length operations)%nat ->
      exists item, last items = Some item /\ item_success item = false) /\
     (forall i item, items !! i = Some item -> item_success item = false ->
                     S i = length items)).
Proof.
  revert acc successes errors st.
  induction operations as [|op rest IH]; intros acc successes errors st.
  - exists []. simpl. rewrite app_nil_r.
    split_and!; try done; try lia. intros _. split_and!; [lia|lia|done].
  - cbn [batch_loop]. destruct (executeTool op st) as [[result|message] st'].
    + destruct (IH (acc ++ [mkBatchItem (tool op) true result None])
                  (S successes) errors st')
        as (items & H1 & H2 & H3 & H4 & H5 & H6).
      exists (mkBatchItem (tool op) true result None :: items).
      cbn zeta in *. rewrite H1, H3, H4, <- app_assoc.
      rewrite !filter_cons. cbn [item_success item_tool].
      rewrite decide_True by done. rewrite decide_False by done.
      split_and!.
      * done.
      * rewrite !fmap_cons. cbn [length take item_tool]. by rewrite H2.
      * cbn [length]. lia.
      * done.
      * intros Hc. cbn [length]. by rewrite H5.
      * intros Hc. destruct (H6 Hc) as (Ha & Hb & Hd). split_and!.
        -- done.
        -- intros Hlen. cbn [length] in Hlen.
           destruct Hb as (item & Hlast & Hfail); [lia|].
           exists item. split; [|done].
           destruct items as [|i0 items']; [done|]. done.
        -- intros [|i] item Hi Hfail.
           ++ injection Hi as <-. done.
           ++ cbn [length]. f_equal. by apply (Hd i item).
    + destruct continueOnError eqn:Hc; cbn [negb].
      * destruct (IH (acc ++ [mkBatchItem (tool op) false JUndefined (Some message)])
                    successes (S errors) st')
          as (items & H1 & H2 & H3 & H4 & H5 & H6).
        exists (mkBatchItem (tool op) false JUndefined (Some message) :: items).
        cbn zeta in *. rewrite H1, H3, H4, <- app_assoc.
        rewrite !filter_cons. cbn [item_success item_tool].
        rewrite decide_False by done. rewrite decide_True by done.
        split_and!; try done.
        -- rewrite !fmap_cons. cbn [length take item_tool]. by rewrite H2.
        -- cbn [length]. lia.
        -- intros _. cbn [length]. by rewrite H5.
      * exists [mkBatchItem (tool op) false JUndefined (Some message)].
        cbn zeta. cbn [fst snd]. rewrite !filter_cons, !filter_nil.
        cbn [item_success]. rewrite decide_False by done. rewrite decide_True by done.
        split_and!; try done.
        -- cbn [length]. lia.
        -- intros _. split_and!.
           ++ done.
           ++ intros _. by eexists.
           ++ intros [|i] item Hi; [done|]. by destruct i.
Qed.

(** X17: the report of [batch].  A missing or empty [operations] array is
    refused with ["Operations array is required for batch"] before any
    tool runs.  Otherwise the report lists, in order, the tools that were
    run -- a prefix of the operations -- and its two counters are the
    numbers of successes and of failures in that list, so that they add up
    to its length; [totalOperations] is the length of the input.  With
    [continueOnError] every operation is run.  Without it the loop stops at
    the first failure: there is at most one failure, it is the last entry,
    and a list shorter than the input ends with a failure. *)
Theorem batch_report {St : Type} (executeTool : ToolCall -> St -> ToolOutcome * St)
    operations continueOnError st :
  batch executeTool None continueOnError st
    = (inl "Operations array is required for batch"%string, st) /\
  batch executeTool (Some []) continueOnError st
    = (inl "Operations array is required for batch"%string, st) /\
  (operations ≠ [] ->
   exists report st',
     batch executeTool (Some operations) continueOnError st = (inr report, st') /\
     totalOperations report = length operations /\
     item_tool <$> results report
       = take (length (results report)) (tool <$> operations) /\
     successCount report
       = length (filter (fun i => item_success i = true) (results report)) /\
     errorCount report
       = length (filter (fun i => item_success i = false) (results report)) /\
     (successCount report + errorCount report = length (results report))%nat /\
     (continueOnError = true -> length (results report) = length operations) /\
     (continueOnError = false ->
      (errorCount report <= 1)%nat /\
      (forall i item, results report !! i = Some item -> item_success item = false ->
                      S i = length (results report)) /\
      ((length (results report) < length operations)%nat -> errorCount report = 1%nat))).
Proof.
  split_and!; [done|done|]. intros Hops.
  destruct (batch_loop_spec executeTool continueOnError operations [] 0%nat 0%nat st)
    as (items & H1 & H2 & H3 & H4 & H5 & H6).
  cbn zeta in *. unfold batch.
  destruct operations as [|op rest]; [done|].
  destruct (batch_loop executeTool continueOnError (op :: rest) [] 0%nat 0%nat st)
    as [[[acc successes] errors] st'].
  cbn [fst snd] in *. subst acc successes errors.
  eexists _, st'. split; [reflexivity|]. cbn [results successCount errorCount totalOperations].
  assert (Hsum : (length (filter (fun i => item_success i = true) items)
                  + length (filter (fun i => item_success i = false) items)
                  = length items)%nat).
  { clear. induction items as [|i items IH]; [done|].
    rewrite !filter_cons.
    destruct (item_success i); repeat case_decide; try done; simpl; lia. }
  split_and!; try done.
  intros Hc. destruct (H6 Hc) as (Ha & Hb & Hd). split_and!; [done|done|].
  intros Hshort. destruct (Hb Hshort) as (item & Hlast & Hfail).
  assert (Hin : item ∈ filter (fun i => item_success i = false) items).
  { apply list_elem_of_filter. split; [done|].
    apply last_Some in Hlast as [l' ->]. apply elem_of_app. right.
    apply list_elem_of_here. }
  destruct (filter _ items) as [|x l]; [by apply elem_of_nil in Hin|].
  simpl in *. lia.
Qed.

Lemma batch_report_witness :
  let executeTool := fun (op : ToolCall) (calls : nat) =>
    if String.eqb (tool op) "delete_object"
    then (ToolThrows "Request timeout", S calls)
    else (ToolReturns JNull, S calls) in
  let operations := [mkToolCall "get_place_info" JNull;
                     mkToolCall "delete_object" JNull;
                     mkToolCall "get_selection" JNull] in
  exists report,
    batch executeTool (Some operations) false 0%nat = (inr report, 2%nat) /\
    successCount report = 1%nat /\ errorCount report = 1%nat /\
    totalOperations report = 3%nat.
Proof.
  intros executeTool operations.
  destruct (batch_report executeTool operations false 0%nat) as (_ & _ & H).
  destruct (H ltac:(done)) as (report & st' & Hb & Htotal & _ & _ & _ & _ & _ & Hstop).
  assert (Hrun : batch executeTool (Some operations) false 0%nat
                 = (inr (mkBatchReport
                      [mkBatchItem "get_place_info" true JNull None;
                       mkBatchItem "delete_object" false JUndefined
                         (Some "Request timeout")] 1 1 3), 2%nat)) by reflexivity.
  rewrite Hrun in Hb. injection Hb as <- <-.
  eexists. split; [exact Hrun|]. split; [reflexivity|]. split; [|exact Htotal].
  destruct (Hstop eq_refl) as (_ & _ & Hshort). apply Hshort. simpl. lia.
Defined.

(** ** The sweep beside the timers; stale ids in the queue *)

Lemma shrinks_advanceTimersByTime ms w : shrinks w (advanceTimersByTime ms w).
Proof.
  unfold advanceTimersByTime.
  eapply shrinks_trans; [apply shrinks_runTimers | apply shrinks_set_clock].
Qed.

(** X18: the periodic sweep finds nothing to do while the timers fire on
    time.  After the clock has moved on and every timer due on the way has
    fired, each request left is younger than 30 s, so [cleanupOldRequests]
    -- which [run] calls every 5 s -- leaves the bridge exactly as it is:
    the sweep only matters for a request whose timer did not fire. *)
Theorem sweep_idle_after_timers w ms :
  reachable w ->
  cleanupOldRequests (advanceTimersByTime ms w) = advanceTimersByTime ms w.
Proof.
  intros Hreach. pose proof (reachable_wf w Hreach) as Hwf.
  set (w1 := advanceTimersByTime ms w).
  unfold cleanupOldRequests. apply cleanup_fold_noop. intros k r Hin Hexp.
  destruct (shrinks_advanceTimersByTime ms w) as (Hm & _). fold w1 in Hm.
  assert (Hwf1 : wf w1).
  { unfold w1, advanceTimersByTime. by apply wf_set_clock, wf_runTimers. }
  apply (elem_get k r _ (wf_nodup w1 Hwf1)) in Hin.
  destruct (advanceTimersByTime_spec ms w k r Hwf (Hm k r Hin)) as (_ & _ & Hall & _).
  fold w1 in Hall. specialize (Hall k r Hin). unfold expired in Hexp. lia.
Qed.

Lemma sweep_idle_after_timers_witness :
  let w := execAll [OpSendRequest "a" "/api/1" JNull; OpAdvance 20000;
                    OpSendRequest "b" "/api/2" JNull] (newBridge 0) in
  requestQueue (advanceTimersByTime 10000 w) = ["b"] /\
  cleanupOldRequests (advanceTimersByTime 10000 w) = advanceTimersByTime 10000 w.
Proof.
  intros w. split; [reflexivity|]. apply sweep_idle_after_timers.
  apply reachable_execAll; [apply reachable_new|]. by simpl.
Defined.

Lemma getPendingRequest_loop_spec (m : list (string * PendingRequest)) queue :
  exists n,
    (getPendingRequest_loop m queue).2 = drop n queue /\
    Forall (fun k => JsMap.get k m = None) (take n queue) /\
    (getPendingRequest_loop m queue).1
      = head (drop n queue) ≫= (fun k => viewOf <$> JsMap.get k m) /\
    ((getPendingRequest_loop m queue).1 = None -> drop n queue = []).
Proof.
  induction queue as [|k queue IH].
  - exists 0%nat. by split_and!.
  - cbn [getPendingRequest_loop]. destruct (JsMap.get k m) as [r|] eqn:Hk.
    + exists 0%nat. cbn [drop take head fst snd]. split_and!; try done.
      simpl. by rewrite Hk.
    + destruct IH as (n & H1 & H2 & H3 & H4). exists (S n).
      cbn [drop take]. split_and!; try done. by apply Forall_cons.
Qed.

Lemma getPendingRequests_scan_spec (m : list (string * PendingRequest)) maxCount
    rest i results toRemove pre :
  exists n marked,
    let out := getPendingRequests_scan m maxCount i rest results toRemove in
    out.1 = results ++ omap (fun k => viewOf <$> JsMap.get k m) (take n rest) /\
    out.2 = toRemove ++ marked /\
    (length pre = i ->
     fold_left (fun q j => splice1 j q) (rev marked) (pre ++ rest)
     = pre ++ filter (fun k => is_Some (JsMap.get k m)) (take n rest) ++ drop n rest) /\
    (n = length rest \/ maxCount <= Z.of_nat (length out.1)).
Proof.
  revert i results toRemove pre.
  induction rest as [|k rest IH]; intros i results toRemove pre.
  - exists 0%nat, []. simpl. rewrite !app_nil_r. split_and!; [done|done|done|by left].
  - cbn [getPendingRequests_scan].
    destruct (Z.of_nat (length results) <? maxCount) eqn:Hroom.
    + destruct (JsMap.get k m) as [r|] eqn:Hk.
      * destruct (IH (S i) (results ++ [viewOf r]) toRemove (pre ++ [k]))
          as (n & marked & H1 & H2 & H3 & H4).
        exists (S n), marked. cbn zeta in *. split_and!.
        -- rewrite H1, <- app_assoc. cbn [take omap list_omap]. by rewrite Hk.
        -- done.
        -- intros Hpre. cbn [take drop]. rewrite filter_cons.
           rewrite decide_True by (rewrite Hk; by eexists).
           rewrite <- app_assoc in H3. cbn [app] in H3.
           rewrite H3 by (rewrite length_app; simpl; lia).
           by rewrite <- !app_assoc.
        -- destruct H4 as [->|H4]; [by left | by right].
      * destruct (IH (S i) results (toRemove ++ [i]) (pre ++ [k]))
          as (n & marked & H1 & H2 & H3 & H4).
        exists (S n), (i :: marked). cbn zeta in *. split_and!.
        -- rewrite H1. cbn [take omap list_omap]. by rewrite Hk.
        -- by rewrite H2, <- app_assoc.
        -- intros Hpre. cbn [take drop rev]. rewrite fold_left_app. cbn [fold_left].
           rewrite filter_cons.
           rewrite decide_False by (rewrite Hk; by intros []).
           rewrite <- app_assoc in H3. cbn [app] in H3.
           rewrite H3 by (rewrite length_app; simpl; lia).
           rewrite <- app_assoc. cbn [app]. unfold splice1. subst i.
           clear. induction pre as [|x pre IHpre]; [done|]. simpl. by rewrite IHpre.
        -- destruct H4 as [->|H4]; [by left | by right].
    + exists 0%nat, []. simpl. rewrite !app_nil_r. apply Z.ltb_ge in Hroom.
      split_and!; [done|done|done|by right].
Qed.

(** X19: how the two retrieval methods treat ids in the queue that are no
    longer in the map, in any state of the bridge.  [getPendingRequest]
    drops the stale ids in front of the first live one and returns that
    one, leaving it in the queue; it returns [null] only with the queue
    emptied.  [getPendingRequests] scans the queue up to some position: it
    returns the live requests of that part in order, and its second loop,
    which splices the marked positions out last one first, removes from
    that part exactly the stale ids; the part not scanned is as before, and
    the scan stops short of the end only with [maxCount] results.  Neither
    touches the map. *)
Theorem stale_ids_are_compacted w maxCount :
  let live := fun k => is_Some (JsMap.get k (pendingRequests w)) in
  let view := fun k => viewOf <$> JsMap.get k (pendingRequests w) in
  (exists n,
     (getPendingRequest w).2 = set_requestQueue (drop n (requestQueue w)) w /\
     Forall (fun k => ¬ live k) (take n (requestQueue w)) /\
     (getPendingRequest w).1 = head (drop n (requestQueue w)) ≫= view /\
     ((getPendingRequest w).1 = None -> drop n (requestQueue w) = [])) /\
  (exists n,
     (getPendingRequests maxCount w).1 = omap view (take n (requestQueue w)) /\
     (getPendingRequests maxCount w).2
       = set_requestQueue (filter live (take n (requestQueue w))
                           ++ drop n (requestQueue w)) w /\
     (n = length (requestQueue w) \/
      maxCount <= Z.of_nat (length (getPendingRequests maxCount w).1))).
Proof.
  intros live view. split.
  - destruct (getPendingRequest_loop_spec (pendingRequests w) (requestQueue w))
      as (n & H1 & H2 & H3 & H4).
    exists n. unfold getPendingRequest.
    destruct (getPendingRequest_loop _ _) as [r q]. cbn [fst snd] in *.
    split_and!; [by rewrite H1| |done|done].
    eapply Forall_impl; [exact H2|]. intros k Hk [r' Hr']. unfold live in *. congruence.
  - destruct (getPendingRequests_scan_spec (pendingRequests w) maxCount
                (requestQueue w) 0%nat [] [] [])
      as (n & marked & H1 & H2 & H3 & H4).
    exists n. unfold getPendingRequests, spliceMarked. cbn zeta in *.
    destruct (getPendingRequests_scan _ _ _ _ _ _) as [results toRemove].
    cbn [fst snd app] in *. subst toRemove. rewrite (H3 eq_refl).
    split_and!; [done|done|done].
Qed.

Lemma stale_ids_are_compacted_witness :
  let w := set_requestQueue ["x"; "a"; "y"]
             (exec (OpSendRequest "a" "/api/1" JNull) (newBridge 0)) in
  requestQueue (getPendingRequest w).2 = ["a"; "y"] /\
  requestQueue (getPendingRequests 10 w).2 = ["a"] /\
  exists n,
    (getPendingRequests 10 w).1
    = omap (fun k => viewOf <$> JsMap.get k (pendingRequests w))
        (take n (requestQueue w)).
Proof.
  intros w. destruct (stale_ids_are_compacted w 10) as (_ & n & Hres & _).
  split; [reflexivity|]. split; [reflexivity|]. exists n. exact Hres.
Defined.
